(** * MooseFS Prometheus exporter: a shallow embedding of [moosefs_exporter.py]

    The development follows the layout of the script:

    - [PyStr]: character classes of Python's [str] type as the [re] module
      and the numeric constructors see them;
    - [Re]: the fragment of the [re] module the exporter's patterns use
      ([re.search], [re.findall], capture groups, greedy [+] and [*]);
    - [Py], [PyNum]: exceptions, [int(...)], [float(...)] and the
      arithmetic of the unit conversions, over binary64 values
      ([spec_float]);
    - [Prom]: the gauges of [prometheus_client] as a finite map, the trace
      of the calls made on them and on the logger, and the state and
      exception monad of the methods;
    - [Exporter]: the methods of [MooseFSExporter].

    Then come the tools of the proofs: [Effects] and [Summary] (a method
    is determined by its outcome and its calls), [ReSpec] (what a match
    looks like), [Inventory] (the shape of an inventory row), and the
    properties of the collectors.

    A Python [str] is modelled by Rocq's [string]; a character is a code
    point below 256.  What an external command does is an input of the
    model, and so is the interpreter's limit on the digits of an [int]
    read from a string. *)

From Stdlib Require Import ZArith NArith String Ascii List Bool Lia.
From Stdlib Require Import Floats.SpecFloat.
From stdpp Require Import base gmap strings list.

Local Open Scope string_scope.
Local Open Scope list_scope.

(* ================================================================== *)
(** * Characters *)
(* ================================================================== *)

Module PyStr.

Definition code (a : ascii) : N := N_of_ascii a.

Definition in_range (lo hi : N) (a : ascii) : bool :=
  ((lo <=? code a) && (code a <=? hi))%N.

(** [\d]: a decimal digit (category Nd); below 256 these are 0-9. *)
Definition is_digit (a : ascii) : bool := in_range 48 57 a.

(** [\s] on [str] patterns: [str.isspace] characters.  Below 256 these
    are TAB..CR, FS..US, space, NEL and NBSP. *)
Definition is_space (a : ascii) : bool :=
  in_range 9 13 a || in_range 28 32 a || (code a =? 133)%N || (code a =? 160)%N.

(** The whitespace the C level scanners of [int] and [float] skip. *)
Definition is_c_space (a : ascii) : bool :=
  in_range 9 13 a || (code a =? 32)%N.

(** [str.isalnum] below 256. *)
Definition is_alnum (a : ascii) : bool :=
  in_range 48 57 a || in_range 65 90 a || in_range 97 122 a
  || (code a =? 170)%N || in_range 178 179 a || (code a =? 181)%N
  || in_range 185 186 a || in_range 188 190 a
  || in_range 192 214 a || in_range 216 246 a || in_range 248 255 a.

(** [\w]: alphanumeric or underscore. *)
Definition is_word (a : ascii) : bool := is_alnum a || (code a =? 95)%N.

Definition is_ascii (a : ascii) : bool := (code a <? 128)%N.

Definition newline : ascii := ascii_of_N 10.

Definition chars (s : string) : list ascii := list_ascii_of_string s.
Definition str (l : list ascii) : string := string_of_list_ascii l.

End PyStr.

(* ================================================================== *)
(** * Regular expressions *)
(* ================================================================== *)

Module Re.
Import PyStr.

(** A one-character matcher. *)
Inductive cclass :=
| Lit (c : ascii)       (* an ordinary or escaped character, or [[c]] *)
| Digit                 (* \d *)
| Space                 (* \s *)
| NotSpace              (* \S *)
| Word                  (* \w *)
| AnyChar.              (* .  (no DOTALL flag) *)

Inductive quant := Once | Star | Plus.

(** A character matcher with its repetition. *)
Inductive atom := At (c : cclass) (q : quant).

(** A compiled pattern is a sequence of atoms and of capture groups of
    atoms: the exporter's patterns repeat single characters only, and
    have neither alternation nor nested or repeated groups. *)
Inductive node :=
| One (a : atom)
| Group (body : list atom).

Definition regex := list node.

Definition accepts (c : cclass) (a : ascii) : bool :=
  match c with
  | Lit x => if ascii_dec x a then true else false
  | Digit => is_digit a
  | Space => is_space a
  | NotSpace => negb (is_space a)
  | Word => is_word a
  | AnyChar => if ascii_dec a newline then false else true
  end.

(** ** Reading a pattern *)

Inductive token :=
| TChar (c : cclass)
| TOpen | TClose | TStar | TPlus.

Definition special (a : ascii) : bool :=
  existsb (fun x => if ascii_dec x a then true else false)
          (chars "|?{}^$[]").

Fixpoint lex (s : list ascii) : option (list token) :=
  match s with
  | [] => Some []
  | "\"%char :: x :: s' =>
      match (if ascii_dec x "d" then Some Digit
             else if ascii_dec x "s" then Some Space
             else if ascii_dec x "S" then Some NotSpace
             else if ascii_dec x "w" then Some Word
             else if is_ascii x && negb (is_alnum x) then Some (Lit x)
             else None) with
      | Some c => option_map (cons (TChar c)) (lex s')
      | None => None
      end
  | "["%char :: x :: "]"%char :: s' =>
      if existsb (fun y => if ascii_dec y x then true else false) (chars "^\]")
      then None
      else option_map (cons (TChar (Lit x))) (lex s')
  | a :: s' =>
      if ascii_dec a "(" then option_map (cons TOpen) (lex s')
      else if ascii_dec a ")" then option_map (cons TClose) (lex s')
      else if ascii_dec a "*" then option_map (cons TStar) (lex s')
      else if ascii_dec a "+" then option_map (cons TPlus) (lex s')
      else if ascii_dec a "." then option_map (cons (TChar AnyChar)) (lex s')
      else if ascii_dec a "\" then None
      else if special a then None
      else option_map (cons (TChar (Lit a))) (lex s')
  end.

(** [cur] holds the atoms of the group being read, if one is open. *)
Definition push (a : atom) (cur : option (list atom)) (rest : option (list atom) -> option regex)
  : option regex :=
  match cur with
  | Some body => rest (Some (body ++ [a]))
  | None => option_map (cons (One a)) (rest None)
  end.

Fixpoint parse (ts : list token) (cur : option (list atom)) : option regex :=
  match ts with
  | [] => match cur with Some _ => None | None => Some [] end
  | TChar c :: TStar :: ts' => push (At c Star) cur (parse ts')
  | TChar c :: TPlus :: ts' => push (At c Plus) cur (parse ts')
  | TChar c :: ts' => push (At c Once) cur (parse ts')
  | TOpen :: ts' =>
      match cur with Some _ => None | None => parse ts' (Some []) end
  | TClose :: (TStar | TPlus) :: _ => None
  | TClose :: ts' =>
      match cur with
      | Some body => option_map (cons (Group body)) (parse ts' None)
      | None => None
      end
  | (TStar | TPlus) :: _ => None
  end.

(** [re.compile]; [None] stands for a pattern outside the fragment. *)
Definition compile (pattern : string) : option regex :=
  match lex (chars pattern) with
  | Some ts => parse ts None
  | None => None
  end.

(** ** Matching *)

(** Number of leading characters of [s] that [c] accepts. *)
Fixpoint span (c : cclass) (s : list ascii) : nat :=
  match s with
  | a :: s' => if accepts c a then S (span c s') else 0
  | [] => 0
  end.

(** Greedy repetition: try [k], then [k-1], ... down to [lo]. *)
Fixpoint backtrack {R} (f : nat -> option R) (lo k : nat) : option R :=
  match f k with
  | Some r => Some r
  | None =>
      match k with
      | 0 => None
      | S k' => if (lo <=? k')%nat then backtrack f lo k' else None
      end
  end.

Definition min_count (q : quant) : nat :=
  match q with Star => 0 | _ => 1 end.

(** [match_atoms b s off k]: match the atoms [b] against a prefix of
    [s], which lies [off] characters after the start of the attempt,
    then continue with [k] on what is left; when [k] fails, the last
    repetition that can gives one character back. *)
Fixpoint match_atoms {R} (b : list atom) (s : list ascii) (off : nat)
    (k : list ascii -> nat -> option R) : option R :=
  match b with
  | [] => k s off
  | At c Once :: b' =>
      match s with
      | a :: s' => if accepts c a then match_atoms b' s' (S off) k else None
      | [] => None
      end
  | At c q :: b' =>
      let n := span c s in
      if (min_count q <=? n)%nat
      then backtrack (fun j => match_atoms b' (drop j s) (off + j) k) (min_count q) n
      else None
  end.

(** The result of an attempt: the length of the match and the span
    (offset, length) of each group. *)
Definition spans := list (nat * nat).

Fixpoint match_here (r : regex) (s : list ascii) (off : nat) (gs : spans)
  : option (nat * spans) :=
  match r with
  | [] => Some (off, gs)
  | One a :: r' =>
      match_atoms [a] s off (fun s' off' => match_here r' s' off' gs)
  | Group b :: r' =>
      match_atoms b s off
        (fun s' off' => match_here r' s' off' (gs ++ [(off, off' - off)]))
  end.

(** A match object: where it starts and ends, and its groups. *)
Record Match := { m_start : nat; m_end : nat; m_groups : list string }.

Definition extract (s : list ascii) (g : nat * nat) : string :=
  str (take (snd g) (drop (fst g) s)).

(** An attempt anchored at the head of [s], which lies at position [pos]. *)
Definition match_at (r : regex) (s : list ascii) (pos : nat) : option Match :=
  match match_here r s 0 [] with
  | Some (len, gs) =>
      Some {| m_start := pos; m_end := pos + len; m_groups := map (extract s) gs |}
  | None => None
  end.

(** [re.search]: the leftmost position at which an attempt succeeds. *)
Fixpoint search_from (r : regex) (s : list ascii) (pos : nat) : option Match :=
  match match_at r s pos with
  | Some m => Some m
  | None =>
      match s with
      | [] => None
      | _ :: s' => search_from r s' (S pos)
      end
  end.

Definition search (r : regex) (text : string) : option Match :=
  search_from r (chars text) 0.

(** [m.group(n)] for [n >= 1]. *)
Definition group (m : Match) (n : nat) : option string :=
  m_groups m !! (n - 1).

(** [re.findall]: all matches, left to right, without overlap.  [skip]
    counts the characters still covered by the previous match.  (After
    an empty match the scan resumes one character further; none of the
    exporter's patterns can match the empty string.) *)
Fixpoint findall_from (r : regex) (s : list ascii) (pos skip : nat) : list Match :=
  match skip with
  | S k =>
      match s with
      | [] => []
      | _ :: s' => findall_from r s' (S pos) k
      end
  | 0 =>
      match match_at r s pos with
      | Some m =>
          m :: match s with
               | [] => []
               | _ :: s' => findall_from r s' (S pos) (m_end m - pos - 1)
               end
      | None =>
          match s with
          | [] => []
          | _ :: s' => findall_from r s' (S pos) 0
          end
      end
  end.

(** With several groups, [re.findall] returns the tuple of groups of
    each match. *)
Definition findall (r : regex) (text : string) : list (list string) :=
  map m_groups (findall_from r (chars text) 0 0).

End Re.

(* ================================================================== *)
(** * Exceptions and results *)
(* ================================================================== *)

Module Py.

(** The subclasses of [Exception] that can arise in the exporter. *)
Inductive exn :=
| ValueError
| OverflowError
| IndexError
| ReError                 (* re.error *)
| TimeoutExpired          (* subprocess.TimeoutExpired *)
| OSError
| UnicodeDecodeError.

Inductive result (A : Type) :=
| Ok (a : A)
| Raise (e : exn).
Arguments Ok {A} a.
Arguments Raise {A} e.

Definition rbind {A B} (r : result A) (k : A -> result B) : result B :=
  match r with
  | Ok a => k a
  | Raise e => Raise e
  end.

Definition is_timeout (e : exn) : bool :=
  match e with TimeoutExpired => true | _ => false end.

End Py.

(* ================================================================== *)
(** * Numbers *)
(* ================================================================== *)

Module PyNum.
Import PyStr Py.
Local Open Scope Z_scope.

(** Python's [float] is IEEE 754 binary64. *)
Definition prec : Z := 53.
Definition emax : Z := 1024.

(** A value handed to a gauge: a Python [int] or a Python [float]. *)
Inductive pyval :=
| PyInt (z : Z)
| PyFloat (f : spec_float).

(** The binary64 value nearest to [m * 2^e]. *)
Definition dyadic (m e : Z) : spec_float := binary_normalize prec emax m e false.

(** [exactly f n d]: the finite value [f] is the rational [n / d]. *)
Definition exactly (f : spec_float) (n d : Z) : Prop :=
  match f with
  | S754_zero _ => n = 0
  | S754_finite s m e =>
      let z := if s then Z.neg m else Z.pos m in
      if 0 <=? e then z * 2 ^ e * d = n else z * d = n * 2 ^ (- e)
  | _ => False
  end.

(** ** [float(n)] for an [int]: round to nearest even, [OverflowError]
    when the result is not finite. *)
Definition float_of_int (z : Z) : result spec_float :=
  match dyadic z 0 with
  | S754_infinity _ => Raise OverflowError
  | f => Ok f
  end.

(** [float(v)], as [Gauge.set] applies it to its argument. *)
Definition to_float (v : pyval) : result spec_float :=
  match v with
  | PyInt z => float_of_int z
  | PyFloat f => Ok f
  end.

(** [a * b] *)
Definition py_mul (a b : pyval) : result pyval :=
  match a, b with
  | PyInt x, PyInt y => Ok (PyInt (x * y))
  | PyFloat x, PyFloat y => Ok (PyFloat (SFmul prec emax x y))
  | PyFloat x, PyInt y =>
      rbind (float_of_int y) (fun fy => Ok (PyFloat (SFmul prec emax x fy)))
  | PyInt x, PyFloat y =>
      rbind (float_of_int x) (fun fx => Ok (PyFloat (SFmul prec emax fx y)))
  end.

(** ** Reading numerals *)

(** Both constructors first map the string to ASCII: a string that is
    not pure ASCII has its non-ASCII whitespace turned into spaces and
    any other non-ASCII character (none is a decimal digit below 256)
    into a question mark, on which the scan then fails. *)
Definition to_ascii (s : list ascii) : list ascii :=
  if forallb is_ascii s then s
  else map (fun a => if (code a <? 127)%N then a
                     else if is_space a then " "%char else "?"%char) s.

Fixpoint lstrip (s : list ascii) : list ascii :=
  match s with
  | a :: s' => if is_c_space a then lstrip s' else s
  | [] => []
  end.

Definition strip (s : list ascii) : list ascii :=
  rev (lstrip (rev (lstrip s))).

Definition digit_val (a : ascii) : Z := Z.of_N (code a) - 48.

(** [digitpart ::= digit (["_"] digit)*]: the digits, underscores
    removed; [prev] tells whether the previous character was a digit. *)
Fixpoint digitpart (s : list ascii) (prev : bool) : option (list ascii) :=
  match s with
  | [] => if prev then Some [] else None
  | a :: s' =>
      if is_digit a then option_map (cons a) (digitpart s' true)
      else if ascii_dec a "_" then (if prev then digitpart s' false else None)
      else None
  end.

Definition Z_of_digits (ds : list ascii) : Z :=
  fold_left (fun acc a => 10 * acc + digit_val a) ds 0.

(** An optional sign: [true] for minus. *)
Definition sign (s : list ascii) : bool * list ascii :=
  match s with
  | "-"%char :: s' => (true, s')
  | "+"%char :: s' => (false, s')
  | _ => (false, s)
  end.

(** The interpreter's limit on the digits of a decimal [int] literal
    read from a string ([sys.get_int_max_str_digits()]): [0] for no
    limit, and never applied to 640 digits or fewer. *)
Definition too_many_digits (max_str_digits : nat) (ds : list ascii) : bool :=
  (640 <? length ds)%nat && (0 <? max_str_digits)%nat
  && (max_str_digits <? length ds)%nat.

(** ** [int(s)] in base 10 *)
Definition py_int (max_str_digits : nat) (s : string) : result Z :=
  let (neg, body) := sign (lstrip (to_ascii (chars s))) in
  match digitpart (rev (lstrip (rev body))) false with
  | Some ds =>
      if too_many_digits max_str_digits ds then Raise ValueError
      else Ok (if neg then - Z_of_digits ds else Z_of_digits ds)
  | None => Raise ValueError
  end.

(** The binary64 value nearest to [m * 10^e], for [0 <= m]. *)
Definition decimal (neg : bool) (m e : Z) : spec_float :=
  match m with
  | Zpos p =>
      if 0 <=? e
      then binary_normalize prec emax (if neg then - (m * 10 ^ e) else m * 10 ^ e) 0 false
      else SFdiv prec emax (S754_finite neg p 0)
                           (S754_finite false (Z.to_pos (10 ^ (- e))) 0)
  | _ => S754_zero neg
  end.

Definition lower (a : ascii) : ascii :=
  if in_range 65 90 a then ascii_of_N (code a + 32) else a.

(** The part of [s] before the first character satisfying [p], and what
    follows that character, if there is one. *)
Fixpoint cut (p : ascii -> bool) (s : list ascii) : list ascii * option (list ascii) :=
  match s with
  | [] => ([], None)
  | a :: s' =>
      if p a then ([], Some s')
      else let (u, v) := cut p s' in (a :: u, v)
  end.

Definition is_e (a : ascii) : bool :=
  if ascii_dec (lower a) "e" then true else false.
Definition is_point (a : ascii) : bool :=
  if ascii_dec a "." then true else false.

(** [number ::= [digitpart] "." digitpart | digitpart ["."]]:
    the digits and the number of them after the point. *)
Definition number (s : list ascii) : option (list ascii * Z) :=
  match cut is_point s with
  | (i, None) =>
      match digitpart i false with
      | Some di => Some (di, 0)
      | None => None
      end
  | (i, Some f) =>
      match i, f with
      | [], [] => None
      | _, [] => option_map (fun di => (di, 0)) (digitpart i false)
      | [], _ => option_map (fun df => (df, Z.of_nat (length df))) (digitpart f false)
      | _, _ =>
          match digitpart i false, digitpart f false with
          | Some di, Some df => Some ((di ++ df)%list, Z.of_nat (length df))
          | _, _ => None
          end
      end
  end.

(** [exponent ::= ("e" | "E") [sign] digitpart], after the letter. *)
Definition exponent (s : list ascii) : option Z :=
  let (neg, body) := sign s in
  match digitpart body false with
  | Some ds => Some (if neg then - Z_of_digits ds else Z_of_digits ds)
  | None => None
  end.

(** ** [float(s)] *)
Definition py_float (s : string) : result spec_float :=
  let (neg, body) := sign (strip (to_ascii (chars s))) in
  let word := str (map lower body) in
  if string_dec word "inf" then Ok (S754_infinity neg)
  else if string_dec word "infinity" then Ok (S754_infinity neg)
  else if string_dec word "nan" then Ok S754_nan
  else
    let (mant, ex) := cut is_e body in
    match number mant, match ex with
                       | Some x => exponent x
                       | None => Some 0
                       end with
    | Some (ds, k), Some e => Ok (decimal neg (Z_of_digits ds) (e - k))
    | _, _ => Raise ValueError
    end.

End PyNum.

(* ================================================================== *)
(** * Gauges, logger and the state of the process *)
(* ================================================================== *)

Module Prom.
Import Py PyNum.

(** The gauges created by [MooseFSExporter.__init__], under the names
    of the attributes that hold them. *)
Inductive gauge :=
| mfs_version | mfs_ram_used | mfs_cpu_total | mfs_cpu_system | mfs_cpu_user
| mfs_total_space | mfs_free_space | mfs_trash_space
| mfs_total_objects | mfs_directories | mfs_files | mfs_chunks
| mfs_chunkserver_chunks | mfs_chunkserver_disk_used
| mfs_chunkserver_disk_total | mfs_chunkserver_disk_usage_percent
| mfs_chunkserver_read_speed | mfs_chunkserver_write_speed.

Definition name (g : gauge) : string :=
  match g with
  | mfs_version => "moosefs_master_version"
  | mfs_ram_used => "moosefs_ram_used_bytes"
  | mfs_cpu_total => "moosefs_cpu_usage_percent"
  | mfs_cpu_system => "moosefs_cpu_system_percent"
  | mfs_cpu_user => "moosefs_cpu_user_percent"
  | mfs_total_space => "moosefs_total_space_bytes"
  | mfs_free_space => "moosefs_free_space_bytes"
  | mfs_trash_space => "moosefs_trash_space_bytes"
  | mfs_total_objects => "moosefs_total_objects"
  | mfs_directories => "moosefs_directories"
  | mfs_files => "moosefs_files"
  | mfs_chunks => "moosefs_chunks"
  | mfs_chunkserver_chunks => "moosefs_chunkserver_chunks"
  | mfs_chunkserver_disk_used => "moosefs_chunkserver_disk_used_bytes"
  | mfs_chunkserver_disk_total => "moosefs_chunkserver_disk_total_bytes"
  | mfs_chunkserver_disk_usage_percent => "moosefs_chunkserver_disk_usage_percent"
  | mfs_chunkserver_read_speed => "moosefs_chunkserver_read_speed_bytes_per_second"
  | mfs_chunkserver_write_speed => "moosefs_chunkserver_write_speed_bytes_per_second"
  end.

Definition labelnames (g : gauge) : list string :=
  match g with
  | mfs_chunkserver_chunks | mfs_chunkserver_disk_used
  | mfs_chunkserver_disk_total | mfs_chunkserver_disk_usage_percent =>
      ["ip"; "server_id"]
  | mfs_chunkserver_read_speed | mfs_chunkserver_write_speed => ["ip"]
  | _ => []
  end.

Definition all_gauges : list gauge :=
  [ mfs_version; mfs_ram_used; mfs_cpu_total; mfs_cpu_system; mfs_cpu_user;
    mfs_total_space; mfs_free_space; mfs_trash_space;
    mfs_total_objects; mfs_directories; mfs_files; mfs_chunks;
    mfs_chunkserver_chunks; mfs_chunkserver_disk_used;
    mfs_chunkserver_disk_total; mfs_chunkserver_disk_usage_percent;
    mfs_chunkserver_read_speed; mfs_chunkserver_write_speed ].

Definition gauge_index (g : gauge) : nat :=
  match g with
  | mfs_version => 0 | mfs_ram_used => 1 | mfs_cpu_total => 2
  | mfs_cpu_system => 3 | mfs_cpu_user => 4 | mfs_total_space => 5
  | mfs_free_space => 6 | mfs_trash_space => 7 | mfs_total_objects => 8
  | mfs_directories => 9 | mfs_files => 10 | mfs_chunks => 11
  | mfs_chunkserver_chunks => 12 | mfs_chunkserver_disk_used => 13
  | mfs_chunkserver_disk_total => 14
  | mfs_chunkserver_disk_usage_percent => 15
  | mfs_chunkserver_read_speed => 16 | mfs_chunkserver_write_speed => 17
  end.

#[global] Instance gauge_eq_dec : EqDecision gauge.
Proof. solve_decision. Defined.

#[global] Instance gauge_countable : Countable gauge.
Proof.
  refine (inj_countable' gauge_index (fun n => default mfs_version (all_gauges !! n)) _).
  intros []; reflexivity.
Defined.

#[global] Instance spec_float_eq_dec : EqDecision spec_float.
Proof. solve_decision. Defined.

(** One time series: a gauge and the values of its labels, in the order
    of [labelnames]. *)
Abbreviation series := (gauge * list string)%type.

(** The values the exposition transport would serve. *)
Abbreviation registry := (gmap (gauge * list string) spec_float).

Definition zero : spec_float := S754_zero false.

(** A gauge without labels is exposed, at 0.0, from its creation. *)
Definition fresh_registry : registry :=
  list_to_map (map (fun g => ((g, []), zero))
                   (filter (fun g => labelnames g = []) all_gauges)).

(** ** The logger *)

Inductive level := ERROR | WARNING | INFO.

(** The messages, by their format string; an exception stands for its
    text. *)
Inductive message :=
| CommandTimedOut (command : string)        (* "Command timed out: {command}" *)
| CommandExecutionError (e : exn)           (* "Command execution error: {e}" *)
| ErrorProcessing (metric_name : string) (e : exn)
                                            (* "Error processing {metric_name}: {e}" *)
| SystemCollectionError (e : exn)           (* "System metrics collection error: {e}" *)
| ChunkserverCollectionError (e : exn)      (* "Chunkserver metrics collection error: {e}" *)
| IOCollectionError (e : exn)               (* "I/O metrics collection error: {e}" *)
| CollectionFailed (collector : string) (e : exn).
                                            (* "Metrics collection failed: {name} - {e}" *)

(** ** The state *)

(** What the process did, in order: the calls on the gauges and on the
    logger.  [EvLabels] is a call of [labels] that resolved to the given
    label values, [EvSet] a call of [set] that stored a value. *)
Inductive event :=
| EvLabels (g : gauge) (labelvalues : list string)
| EvSet (g : gauge) (labelvalues : list string) (v : spec_float)
| EvLog (l : level) (m : message).

Record world := World { metrics : registry; trace : list event }.

(** The effect of one call on the registry: [labels] creates the child
    of a combination not seen before, at 0.0; [set] stores the value. *)
Definition update (ev : event) (m : registry) : registry :=
  match ev with
  | EvLabels g lv =>
      match m !! (g, lv) with
      | Some _ => m
      | None => <[(g, lv) := zero]> m
      end
  | EvSet g lv v => <[(g, lv) := v]> m
  | EvLog _ _ => m
  end.

Definition step (ev : event) (w : world) : world :=
  {| metrics := update ev (metrics w); trace := trace w ++ [ev] |}.

(** The process as it starts: gauges created, nothing done yet. *)
Definition initial : world := {| metrics := fresh_registry; trace := [] |}.

(** ** The monad of methods: state, and exceptions that keep the state *)

Definition M (A : Type) : Type := world -> result A * world.

Definition ret {A} (a : A) : M A := fun w => (Ok a, w).
Definition raise {A} (e : exn) : M A := fun w => (Raise e, w).
Definition bind {A B} (m : M A) (k : A -> M B) : M B :=
  fun w => match m w with
           | (Ok a, w') => k a w'
           | (Raise e, w') => (Raise e, w')
           end.

(** [try: m / except Exception as e: h e] *)
Definition try_except {A} (m : M A) (h : exn -> M A) : M A :=
  fun w => match m w with
           | (Ok a, w') => (Ok a, w')
           | (Raise e, w') => h e w'
           end.

(** A pure computation that may raise. *)
Definition lift {A} (r : result A) : M A := fun w => (r, w).

(** [for x in l: body x] *)
Fixpoint for_each {A} (l : list A) (body : A -> M unit) : M unit :=
  match l with
  | [] => ret tt
  | x :: l' => bind (body x) (fun _ => for_each l' body)
  end.

Definition emit (ev : event) : M unit := fun w => (Ok tt, step ev w).

Definition log (l : level) (m : message) : M unit := emit (EvLog l m).

(** ** [Gauge.labels] with keyword arguments, and [Gauge.set] *)

Fixpoint assoc (k : string) (kw : list (string * string)) : option string :=
  match kw with
  | [] => None
  | (k', v) :: kw' => if string_dec k k' then Some v else assoc k kw'
  end.

(** The keyword arguments (whose names are distinct) must be exactly
    the declared label names. *)
Definition labels (g : gauge) (kw : list (string * string)) : M series :=
  match labelnames g with
  | [] => raise ValueError
  | names =>
      if Nat.eqb (length kw) (length names) then
        match mapM (fun l => assoc l kw) names with
        | Some lv => bind (emit (EvLabels g lv)) (fun _ => ret (g, lv))
        | None => raise ValueError
        end
      else raise ValueError
  end.

(** [set] stores [float(value)]; a gauge declared with labels cannot
    be set without them. *)
Definition set (s : series) (value : pyval) : M unit :=
  if Nat.eqb (length (snd s)) (length (labelnames (fst s))) then
    bind (lift (to_float value)) (fun f => emit (EvSet (fst s) (snd s) f))
  else raise ValueError.

End Prom.

Declare Scope py_scope.
Delimit Scope py_scope with py.
Notation "'let!' x ':=' m 'in' k" := (Prom.bind m (fun x => k))
  (at level 10, x name, m at level 100, k at level 200) : py_scope.
Notation "m ';;' k" := (Prom.bind m (fun _ => k))
  (at level 100, k at level 200, right associativity) : py_scope.

(* ================================================================== *)
(** * The exporter *)
(* ================================================================== *)

Module Exporter.
Import Py PyNum Prom.
Local Open Scope py_scope.

Record CompletedProcess := { returncode : Z; stdout : string }.

Record MooseFSExporter := { host : string; timeout : Z }.

(** [(pattern, converter, gauge)], the values of [metrics_map]. *)
Record rule := Rule {
  metric_name : string;
  pattern : string;
  converter : string -> result pyval;
  target : gauge
}.

Section Methods.

(** The interpreter's digit limit for [int(str)]. *)
Variable max_str_digits : nat.

(** [subprocess.run(command, shell=True, capture_output=True,
    text=True, timeout=...)]: what the external command does is an
    input of the model. *)
Variable subprocess_run : string -> Z -> result CompletedProcess.

Variable self : MooseFSExporter.

(** ** The converters *)

Definition float_ (x : string) : result pyval :=
  rbind (py_float x) (fun f => Ok (PyFloat f)).

Definition int_ (x : string) : result pyval :=
  rbind (py_int max_str_digits x) (fun z => Ok (PyInt z)).

Definition k1024 : pyval := PyInt 1024.

(** [lambda x: int(x) * 1024 * 1024] *)
Definition mib_to_bytes (x : string) : result pyval :=
  rbind (int_ x) (fun v =>
  rbind (py_mul v k1024) (fun v => py_mul v k1024)).

(** [float(x) * 1024 * 1024 * 1024] *)
Definition gib_to_bytes (x : string) : result pyval :=
  rbind (float_ x) (fun v =>
  rbind (py_mul v k1024) (fun v =>
  rbind (py_mul v k1024) (fun v => py_mul v k1024))).

(** [lambda x: float(x) * 1024 * 1024 * 1024 * 1024] *)
Definition tib_to_bytes (x : string) : result pyval :=
  rbind (gib_to_bytes x) (fun v => py_mul v k1024).

(** [float(x) * 1024 * 1024] *)
Definition mib_to_bytes_float (x : string) : result pyval :=
  rbind (float_ x) (fun v =>
  rbind (py_mul v k1024) (fun v => py_mul v k1024)).

(** ** [_execute_command] *)
Definition _execute_command (command : string) : M (option string) :=
  try_except
    (let! result := lift (subprocess_run command (timeout self)) in
     ret (if Z.eqb (returncode result) 0 then Some (stdout result) else None))
    (fun e =>
       if is_timeout e
       then log ERROR (CommandTimedOut command) ;; ret None
       else log ERROR (CommandExecutionError e) ;; ret None).

(** [if not output]: [None] or the empty string. *)
Definition falsy (output : option string) : bool :=
  match output with
  | None => true
  | Some s => if string_dec s "" then true else false
  end.

Definition text (output : option string) : string := default "" output.

(** [re.search(pattern, string)] and [re.findall(pattern, string)] *)
Definition re_search (pattern string_ : string) : M (option Re.Match) :=
  match Re.compile pattern with
  | Some r => ret (Re.search r string_)
  | None => raise ReError
  end.

Definition re_findall (pattern string_ : string) : M (list (list string)) :=
  match Re.compile pattern with
  | Some r => ret (Re.findall r string_)
  | None => raise ReError
  end.

Definition group (m : Re.Match) (n : nat) : M string :=
  match Re.group m n with
  | Some s => ret s
  | None => raise IndexError
  end.

(** ** [collect_system_metrics] *)

Definition metrics_map : list rule :=
  [ Rule "version" "master version\s+:\s+(\S+)" float_ mfs_version;
    Rule "ram_used" "RAM used\s+:\s+(\d+)\s*MiB" mib_to_bytes mfs_ram_used;
    Rule "cpu_total" "CPU used\s+:\s+(\d+\.\d+)%" float_ mfs_cpu_total;
    Rule "cpu_system" "CPU used \(system\)\s+:\s+(\d+\.\d+)%" float_ mfs_cpu_system;
    Rule "cpu_user" "CPU used \(user\)\s+:\s+(\d+\.\d+)%" float_ mfs_cpu_user;
    Rule "total_space" "total space\s+:\s+(\d+\.\d+)\s*TiB" tib_to_bytes mfs_total_space;
    Rule "free_space" "free space\s+:\s+(\d+\.\d+)\s*TiB" tib_to_bytes mfs_free_space;
    Rule "trash_space" "trash space\s+:\s+(\d+)\s*MiB" mib_to_bytes mfs_trash_space;
    Rule "total_objects" "all fs objects\s+:\s+(\d+)" int_ mfs_total_objects;
    Rule "directories" "directories\s+:\s+(\d+)" int_ mfs_directories;
    Rule "files" "files\s+:\s+(\d+)" int_ mfs_files;
    Rule "chunks" "chunks\s+:\s+(\d+)" int_ mfs_chunks ].

(** The body of the loop over [metrics_map.items()]. *)
Definition apply_rule (output : string) (r : rule) : M unit :=
  let! match_ := re_search (pattern r) output in
  match match_ with
  | Some m =>
      try_except
        (let! captured := group m 1 in
         let! value := lift (converter r captured) in
         set (target r, []) value)
        (fun e => log WARNING (ErrorProcessing (metric_name r) e))
  | None => ret tt
  end.

Definition collect_system_metrics : M bool :=
  try_except
    (let! output := _execute_command ("mfscli -H " +:+ host self +:+ " -SIG") in
     if falsy output then ret false
     else
       for_each metrics_map (apply_rule (text output)) ;;
       ret true)
    (fun e => log ERROR (SystemCollectionError e) ;; ret false).

(** ** [collect_chunkserver_metrics] *)

Definition chunkserver_pattern : string :=
  "(\d+\.\d+\.\d+\.\d+)\s+\d+\s+(\d+)\s+[-]\s+\d+\.\d+\.\d+\s+\d+\s+\w+\s+\w+\s+(\d+)\s+(\d+\.\d+)\s*GiB\s+(\d+)\s*GiB\s+(\d+\.\d+)%".

(** The body of the loop over [chunkserver_lines]. *)
Definition chunkserver_line (line : list string) : M unit :=
  match line with
  | [ip; server_id; chunks; used; total; used_percent] =>
      let! chunks := lift (int_ chunks) in
      let! used_bytes := lift (gib_to_bytes used) in
      let! total_bytes := lift (rbind (int_ total) (fun v =>
                                rbind (py_mul v k1024) (fun v =>
                                rbind (py_mul v k1024) (fun v => py_mul v k1024)))) in
      let! used_percent := lift (float_ used_percent) in
      let labels_ := [("ip", ip); ("server_id", server_id)] in
      (let! child := labels mfs_chunkserver_chunks labels_ in set child chunks) ;;
      (let! child := labels mfs_chunkserver_disk_used labels_ in set child used_bytes) ;;
      (let! child := labels mfs_chunkserver_disk_total labels_ in set child total_bytes) ;;
      (let! child := labels mfs_chunkserver_disk_usage_percent labels_ in
       set child used_percent)
  | _ => raise ValueError   (* unpacking a tuple of another length *)
  end.

Definition collect_chunkserver_metrics : M bool :=
  try_except
    (let! output := _execute_command ("mfscli -H " +:+ host self +:+ " -SCS") in
     if falsy output then ret false
     else
       let! chunkserver_lines := re_findall chunkserver_pattern (text output) in
       for_each chunkserver_lines chunkserver_line ;;
       ret true)
    (fun e => log ERROR (ChunkserverCollectionError e) ;; ret false).

(** ** [collect_io_metrics] *)

Definition io_pattern : string :=
  "(\d+\.\d+\.\d+\.\d+):\d+:.* (\d+\.\d+)\s*GiB/s\s+(\d+\.\d+)\s*MiB/s".

Definition io_line (line : list string) : M unit :=
  match line with
  | [ip; read_speed_gib; write_speed_mib] =>
      let! read_speed_bytes := lift (gib_to_bytes read_speed_gib) in
      let! write_speed_bytes := lift (mib_to_bytes_float write_speed_mib) in
      (let! child := labels mfs_chunkserver_read_speed [("ip", ip)] in
       set child read_speed_bytes) ;;
      (let! child := labels mfs_chunkserver_write_speed [("ip", ip)] in
       set child write_speed_bytes)
  | _ => raise ValueError
  end.

Definition collect_io_metrics : M bool :=
  try_except
    (let! output := _execute_command ("mfscli -H " +:+ host self +:+ " -SHD") in
     if falsy output then ret false
     else
       let! io_lines := re_findall io_pattern (text output) in
       for_each io_lines io_line ;;
       ret true)
    (fun e => log ERROR (IOCollectionError e) ;; ret false).

(** ** [collect_all_metrics] *)

Definition metrics_collectors : list (string * M bool) :=
  [ ("collect_system_metrics", collect_system_metrics);
    ("collect_chunkserver_metrics", collect_chunkserver_metrics);
    ("collect_io_metrics", collect_io_metrics) ].

(** The loop of [collect_all_metrics], for any list of collectors
    given with their [__name__]. *)
Definition run_collectors (collectors : list (string * M bool)) : M unit :=
  for_each collectors (fun collector =>
    try_except
      (snd collector ;; ret tt)
      (fun e => log ERROR (CollectionFailed (fst collector) e))).

Definition collect_all_metrics : M unit := run_collectors metrics_collectors.

End Methods.

End Exporter.

(* ================================================================== *)
(** * Reasoning about methods *)
(* ================================================================== *)

(** No method reads the state: a method is determined by its outcome and
    the calls it makes, and what it does to a world is the replay of
    these calls. *)

Module Effects.
Import Py PyNum Prom.
Local Open Scope py_scope.

Definition blank : world := {| metrics := ∅; trace := [] |}.

Definition replay (evs : list event) (w : world) : world :=
  fold_left (fun w ev => step ev w) evs w.

Definition outcome {A} (m : M A) : result A := fst (m blank).
Definition calls {A} (m : M A) : list event := trace (snd (m blank)).

Definition stable {A} (m : M A) : Prop :=
  forall w, m w = (outcome m, replay (calls m) w).

(** The value of one series after a call, from its value before. *)
Definition update_at (k : series) (o : option spec_float) (ev : event)
  : option spec_float :=
  match ev with
  | EvLabels g lv => if decide ((g, lv) = k) then Some (default zero o) else o
  | EvSet g lv v => if decide ((g, lv) = k) then Some v else o
  | EvLog _ _ => o
  end.

Definition replay_at (k : series) (evs : list event) (o : option spec_float)
  : option spec_float :=
  fold_left (update_at k) evs o.

(** The calls of [set] on gauge [g] among [evs]. *)
Definition sets_of (g : gauge) (evs : list event) : list event :=
  List.filter (fun ev => match ev with
                    | EvSet g' _ _ => bool_decide (g' = g)
                    | _ => false
                    end) evs.

End Effects.

(* ================================================================== *)
(** * What the methods do *)
(* ================================================================== *)

Module Summary.
Import Py PyNum Prom Exporter Effects.

(** The command line of each collector. *)
Definition system_command (self : MooseFSExporter) : string :=
  "mfscli -H " +:+ host self +:+ " -SIG".
Definition chunkserver_command (self : MooseFSExporter) : string :=
  "mfscli -H " +:+ host self +:+ " -SCS".
Definition io_command (self : MooseFSExporter) : string :=
  "mfscli -H " +:+ host self +:+ " -SHD".

(** A command that exits with status 0 and prints [output]. *)
Definition prints (output : string) : result CompletedProcess :=
  Ok {| returncode := 0; stdout := output |}.

(** What a rule does with a text on which its pattern [re] is tried:
    nothing when there is no match, else the value it stores or the
    exception it logs. *)
Definition rule_value (re : Re.regex) (output : string) (r : rule)
  : option (result spec_float) :=
  match Re.search re output with
  | None => None
  | Some m =>
      Some match Re.group m 1 with
           | None => Raise IndexError
           | Some c =>
               rbind (converter r c) (fun v =>
                 if Nat.eqb 0 (length (labelnames (target r)))
                 then to_float v else Raise ValueError)
           end
  end.

Definition rule_calls (re : Re.regex) (output : string) (r : rule) : list event :=
  match rule_value re output r with
  | None => []
  | Some (Ok f) => [EvSet (target r) [] f]
  | Some (Raise e) => [EvLog WARNING (ErrorProcessing (metric_name r) e)]
  end.

Definition rule_regex (r : rule) : Re.regex := default [] (Re.compile (pattern r)).

Definition system_calls (max_str_digits : nat) (output : string) : list event :=
  flat_map (fun r => rule_calls (rule_regex r) output r) (metrics_map max_str_digits).

Definition chunkserver_regex : Re.regex :=
  default [] (Re.compile chunkserver_pattern).
Definition io_regex : Re.regex := default [] (Re.compile io_pattern).

(** The two loops over the rows of a table. *)
Definition chunkserver_loop (max_str_digits : nat) (output : string) : M unit :=
  for_each (Re.findall chunkserver_regex output) (chunkserver_line max_str_digits).
Definition io_loop (output : string) : M unit :=
  for_each (Re.findall io_regex output) io_line.

(** A series holds the rational [n / d]. *)
Definition holds (w : world) (k : series) (n d : Z) : Prop :=
  exists f, metrics w !! k = Some f /\ exactly f n d.

(** The world a collector leaves when run inside the loop of
    [collect_all_metrics]. *)
Definition after (collector : string * M bool) (w : world) : world :=
  match snd collector w with
  | (Ok _, w') => w'
  | (Raise e, w') => step (EvLog ERROR (CollectionFailed (fst collector) e)) w'
  end.

(** The log records among the calls. *)
Definition is_log (ev : event) : bool :=
  match ev with EvLog _ _ => true | _ => false end.

(** An integer column that [int] reads and whose value, times [scale],
    [float] can hold. *)
Definition storable (max_str_digits : nat) (column : string) (scale : Z) : Prop :=
  exists z f, py_int max_str_digits column = Ok z
              /\ float_of_int (z * scale) = Ok f.

(** A record of the inventory table whose chunk count and total size can
    be stored. *)
Definition row_storable (max_str_digits : nat) (line : list string) : Prop :=
  exists ip server_id chunks used total used_percent,
    line = [ip; server_id; chunks; used; total; used_percent]
    /\ storable max_str_digits chunks 1
    /\ storable max_str_digits total (1024 ^ 3).

(** The log record of a failed command. *)
Definition command_failure (command : string) (e : exn) : event :=
  EvLog ERROR (if is_timeout e then CommandTimedOut command
               else CommandExecutionError e).

End Summary.

(* ================================================================== *)
(** * What a match looks like *)
(* ================================================================== *)

(** The matcher is sound for the usual reading of a pattern: what it
    matches is a concatenation of pieces, one per atom, and each group
    captures the pieces of its atoms. *)

Module ReSpec.
Import PyStr Re.

Definition all_in (c : cclass) (v : list ascii) : Prop :=
  Forall (fun a => accepts c a = true) v.

(** [lang b u]: the atoms [b] match exactly the characters [u]. *)
Fixpoint lang (b : list atom) (u : list ascii) : Prop :=
  match b with
  | [] => u = []
  | At c Once :: b' =>
      exists a u', u = a :: u' /\ accepts c a = true /\ lang b' u'
  | At c q :: b' =>
      exists v u', u = v ++ u' /\ all_in c v /\ min_count q <= length v /\ lang b' u'
  end.

(** [matched r u gs]: the pattern [r] matches exactly [u], its groups
    capturing [gs]. *)
Fixpoint matched (r : regex) (u : list ascii) (gs : list (list ascii)) : Prop :=
  match r with
  | [] => u = [] /\ gs = []
  | One a :: r' =>
      exists v u', u = v ++ u' /\ lang [a] v /\ matched r' u' gs
  | Group b :: r' =>
      exists v u' gs', u = v ++ u' /\ gs = v :: gs' /\ lang b v /\ matched r' u' gs'
  end.

(** The atoms of each group of a pattern. *)
Fixpoint groups_of (r : regex) : list (list atom) :=
  match r with
  | [] => []
  | One _ :: r' => groups_of r'
  | Group b :: r' => b :: groups_of r'
  end.

(** [r] does not begin with a character of the class [P]. *)
Definition stops (P : ascii -> bool) (r : list ascii) : Prop :=
  match r with
  | [] => True
  | x :: _ => P x = false
  end.

End ReSpec.

(* ================================================================== *)
(** * The shape of an inventory row *)
(* ================================================================== *)

Module Inventory.
Import PyStr Re Exporter Summary ReSpec.

(** The pattern from the unit of the used space on:
    [GiB\s+(\d+)\s*GiB\s+(\d+\.\d+)%]. *)
Definition row_tail : regex :=
  [ One (At (Lit "G") Once); One (At (Lit "i") Once); One (At (Lit "B") Once);
    One (At Space Plus); Group [At Digit Plus]; One (At Space Star);
    One (At (Lit "G") Once); One (At (Lit "i") Once); One (At (Lit "B") Once);
    One (At Space Plus);
    Group [At Digit Plus; At (Lit ".") Once; At Digit Plus];
    One (At (Lit "%") Once) ].

(** What precedes it:
    [(\d+\.\d+\.\d+\.\d+)\s+\d+\s+(\d+)\s+[-]\s+\d+\.\d+\.\d+\s+\d+\s+\w+\s+\w+\s+(\d+)\s+(\d+\.\d+)\s*]. *)
Definition row_head : regex :=
  take (length chunkserver_regex - length row_tail) chunkserver_regex.

Definition digits (v : list ascii) : Prop := all_in Digit v /\ v <> [].
Definition blanks (v : list ascii) : Prop := all_in Space v.

(** A row whose total is written with a fraction: [columns] is all that
    precedes the point of the total. *)
Definition fractional_row (columns frac sp1 sp2 pint pfrac : list ascii) : list ascii :=
  columns ++ "."%char :: frac ++ sp1 ++ chars "GiB" ++ sp2 ++ pint
          ++ "."%char :: pfrac ++ chars "%".

End Inventory.

(* ================================================================== *)
(** * Sample outputs *)
(* ================================================================== *)

Module Samples.

(** The inventory line of the specification. *)
Definition inventory_sample : string :=
  "10.0.0.5 1 000100 - 4.10.0 0 OK OK 1500 120.50 GiB 200 GiB 60.25%".

(** A chunk count of four hundred digits. *)
Definition four_hundred_nines : string := PyStr.str (repeat "9"%char 400).


(** Three rows that all have the shape of a row; the total of the second
    has four hundred digits. *)
Definition table_with_huge_total : string :=
  "10.0.0.5 1 000100 - 4.10.0 0 OK OK 1500 120.50 GiB 200 GiB 60.25%
10.0.0.6 2 000101 - 4.10.0 0 OK OK 1200 95.00 GiB " +:+ four_hundred_nines +:+ " GiB 47.50%
10.0.0.7 3 000102 - 4.10.0 0 OK OK 900 80.25 GiB 100 GiB 80.25%".

(** The inventory line of the specification after a row whose chunk
    count has four hundred digits, and before a row of the same server. *)
Definition sample_after_huge_count : string :=
  "10.0.0.4 1 000099 - 4.10.0 0 OK OK " +:+ four_hundred_nines
  +:+ " 95.00 GiB 200 GiB 47.50%
" +:+ inventory_sample.

Definition sample_before_same_server : string :=
  inventory_sample +:+ "
10.0.0.5 1 000100 - 4.10.0 0 OK OK 7 0.50 GiB 200 GiB 0.25%".

(** Three rows of the disk table: two disks of one server, one of
    another. *)
Definition throughput_sample : string :=
  "10.0.0.5:9422:/mnt/hdd1 0.25 GiB/s 12.50 MiB/s
10.0.0.5:9422:/mnt/hdd2 0.50 GiB/s 8.00 MiB/s
10.0.0.6:9422:/mnt/hdd1 1.00 GiB/s 4.00 MiB/s".

End Samples.

(* ================================================================== *)
(** * The loop of [run], and what a pass may touch *)
(* ================================================================== *)

Module Passes.
Import PyStr Py PyNum Prom Exporter Effects Summary.
Local Open Scope py_scope.

(** [time.sleep(secs)] for an [int]: the number of seconds is turned
    into nanoseconds in a signed 64-bit integer, OverflowError when that
    does not fit; a negative length is then refused with ValueError.
    Sleeping leaves the registry and the log alone. *)
Definition time_sleep (secs : Z) : M unit :=
  if ((secs <? -9223372036) || (9223372036 <? secs))%Z then raise OverflowError
  else if (secs <? 0)%Z then raise ValueError
  else ret tt.

(** The loop of [run],
    [while True: self.collect_all_metrics(); time.sleep(interval)],
    for as many rounds as [rounds] has entries: an entry is what the
    commands do in that round.  Nothing in [run] catches what
    [time.sleep] raises. *)
Fixpoint run_loop (max_str_digits : nat) (self : MooseFSExporter) (interval : Z)
    (rounds : list (string -> Z -> result CompletedProcess)) : M unit :=
  match rounds with
  | [] => ret tt
  | subprocess_run :: rounds' =>
      collect_all_metrics max_str_digits subprocess_run self ;;
      time_sleep interval ;;
      run_loop max_str_digits self interval rounds'
  end.

(** A call on the series [k]. *)
Definition mentions (k : series) (ev : event) : bool :=
  match ev with
  | EvLabels g lv | EvSet g lv _ => bool_decide ((g, lv) = k)
  | EvLog _ _ => false
  end.

(** The gauges of the two tables. *)
Definition inventory_gauges : list gauge :=
  [ mfs_chunkserver_chunks; mfs_chunkserver_disk_used;
    mfs_chunkserver_disk_total; mfs_chunkserver_disk_usage_percent ].

Definition throughput_gauges : list gauge :=
  [ mfs_chunkserver_read_speed; mfs_chunkserver_write_speed ].

(** A command that gave nothing to extract: it raised, or exited with
    another status than 0, or printed nothing. *)
Definition silent (ran : result CompletedProcess) : Prop :=
  forall output, ran = prints output -> output = "".

Definition silent_round (self : MooseFSExporter)
    (subprocess_run : string -> Z -> result CompletedProcess) : Prop :=
  silent (subprocess_run (system_command self) (timeout self))
  /\ silent (subprocess_run (chunkserver_command self) (timeout self))
  /\ silent (subprocess_run (io_command self) (timeout self)).

(** The calls of a row of the inventory table that is written in full,
    and of a row of the throughput table. *)
Definition inventory_events (lv : list string) (chunks used total percent : spec_float)
  : list event :=
  [ EvLabels mfs_chunkserver_chunks lv; EvSet mfs_chunkserver_chunks lv chunks;
    EvLabels mfs_chunkserver_disk_used lv; EvSet mfs_chunkserver_disk_used lv used;
    EvLabels mfs_chunkserver_disk_total lv; EvSet mfs_chunkserver_disk_total lv total;
    EvLabels mfs_chunkserver_disk_usage_percent lv;
    EvSet mfs_chunkserver_disk_usage_percent lv percent ].

Definition throughput_events (lv : list string) (read write : spec_float) : list event :=
  [ EvLabels mfs_chunkserver_read_speed lv; EvSet mfs_chunkserver_read_speed lv read;
    EvLabels mfs_chunkserver_write_speed lv; EvSet mfs_chunkserver_write_speed lv write ].

(** [g.labels(...).set(v)] for each [(g, v)] in turn, all with the label
    values [lv]: the outcome and the calls.  A value that [float] refuses
    ends the sequence, after the call of [labels]. *)
Fixpoint write_all (lv : list string) (ws : list (gauge * pyval))
  : result unit * list event :=
  match ws with
  | [] => (Ok tt, [])
  | (g, v) :: ws' =>
      match to_float v with
      | Ok f => (fst (write_all lv ws'),
                 EvLabels g lv :: EvSet g lv f :: snd (write_all lv ws'))
      | Raise e => (Raise e, [EvLabels g lv])
      end
  end.

(** The read and the write speed are known for the same addresses. *)
Definition paired (m : registry) : Prop :=
  forall lv, is_Some (m !! (mfs_chunkserver_read_speed, lv))
             <-> is_Some (m !! (mfs_chunkserver_write_speed, lv)).

(** The four inventory metrics are known for the same servers. *)
Definition aligned (m : registry) : Prop :=
  forall g lv, In g inventory_gauges ->
    (is_Some (m !! (g, lv)) <-> is_Some (m !! (mfs_chunkserver_chunks, lv))).

End Passes.

(* ================================================================== *)
(** * Replaying calls *)
(* ================================================================== *)

Import Re PyNum Py Prom Exporter Effects Summary ReSpec Inventory Samples Passes.

Section ReplayFacts.

Lemma replay_app evs1 evs2 w :
  replay (evs1 ++ evs2) w = replay evs2 (replay evs1 w).
Proof. unfold replay. apply fold_left_app. Qed.

Lemma trace_replay evs w : trace (replay evs w) = trace w ++ evs.
Proof.
  revert w. induction evs as [|ev evs IH]; intros w; simpl.
  - by rewrite app_nil_r.
  - rewrite IH. simpl. by rewrite <- app_assoc.
Qed.

Lemma lookup_update (ev : event) (m : registry) (k : series) :
  update ev m !! k = update_at k (m !! k) ev.
Proof.
  destruct ev as [g lv|g lv v|l msg]; simpl; [| |done].
  - destruct (m !! (g, lv)) eqn:E; case_decide; subst; try done.
    + by rewrite E.
    + by rewrite lookup_insert_eq, E.
    + by rewrite lookup_insert_ne.
  - case_decide; subst.
    + by rewrite lookup_insert_eq.
    + by rewrite lookup_insert_ne.
Qed.

Lemma lookup_replay (evs : list event) (w : world) (k : series) :
  metrics (replay evs w) !! k = replay_at k evs (metrics w !! k).
Proof.
  revert w. induction evs as [|ev evs IH]; intros w; [done|].
  simpl. rewrite IH. simpl. by rewrite lookup_update.
Qed.

Lemma replay_at_app k evs1 evs2 o :
  replay_at k (evs1 ++ evs2) o = replay_at k evs2 (replay_at k evs1 o).
Proof. unfold replay_at. apply fold_left_app. Qed.

(** After any sequence of calls a series is what it was, or was
    created if missing, or holds the last value set: three maps, each
    of which absorbs a second application. *)
Lemma replay_at_shape k evs :
  (forall o, replay_at k evs o = o)
  \/ (forall o, replay_at k evs o = Some (default zero o))
  \/ (exists v, forall o, replay_at k evs o = Some v).
Proof.
  induction evs as [|ev evs IH] using rev_ind; [by left|].
  assert (Hstep : forall o, replay_at k (evs ++ [ev]) o
                            = update_at k (replay_at k evs o) ev).
  { intros o. by rewrite replay_at_app. }
  destruct ev as [g lv|g lv v|l msg]; simpl in Hstep.
  - revert Hstep. destruct (decide ((g, lv) = k)) as [Heq|Hne]; intros Hstep.
    + right. destruct IH as [IH|[IH|[v IH]]];
        [left|left|right; exists v]; intros o; by rewrite Hstep, IH.
    + destruct IH as [IH|[IH|[v IH]]];
        [left|right; left|right; right; exists v];
        intros o; by rewrite Hstep, IH.
  - revert Hstep. destruct (decide ((g, lv) = k)) as [Heq|Hne]; intros Hstep.
    + right; right. exists v. intros o. by rewrite Hstep.
    + destruct IH as [IH|[IH|[v' IH]]];
        [left|right; left|right; right; exists v'];
        intros o; by rewrite Hstep, IH.
  - destruct IH as [IH|[IH|[v' IH]]];
      [left|right; left|right; right; exists v'];
      intros o; by rewrite Hstep, IH.
Qed.

Lemma replay_at_idem k evs o :
  replay_at k evs (replay_at k evs o) = replay_at k evs o.
Proof.
  destruct (replay_at_shape k evs) as [H|[H|[v H]]].
  - by rewrite !H.
  - by rewrite !H.
  - by rewrite !H.
Qed.

Lemma metrics_replay_idem evs w :
  metrics (replay evs (replay evs w)) = metrics (replay evs w).
Proof.
  apply map_eq. intros k. rewrite !lookup_replay. apply replay_at_idem.
Qed.

End ReplayFacts.

Section StableFacts.
Local Open Scope py_scope.

Lemma stable_intro {A} (m : M A) r evs :
  (forall w, m w = (r, replay evs w)) -> stable m.
Proof.
  intros H w. unfold outcome, calls. rewrite (H blank), H. simpl.
  by rewrite trace_replay.
Qed.

Lemma summary_intro {A} (m : M A) r evs :
  (forall w, m w = (r, replay evs w)) -> outcome m = r /\ calls m = evs.
Proof.
  intros H. unfold outcome, calls. rewrite (H blank). simpl.
  by rewrite trace_replay.
Qed.

Lemma stable_ret {A} (a : A) : stable (ret a).
Proof. by apply (stable_intro _ (Ok a) []). Qed.

Lemma stable_raise {A} e : stable (@raise A e).
Proof. by apply (stable_intro _ (Raise e) []). Qed.

Lemma stable_lift {A} (r : result A) : stable (lift r).
Proof. by apply (stable_intro _ r []). Qed.

Lemma stable_emit ev : stable (emit ev).
Proof. by apply (stable_intro _ (Ok tt) [ev]). Qed.

Lemma stable_log l m : stable (log l m).
Proof. apply stable_emit. Qed.

Lemma stable_bind {A B} (m : M A) (k : A -> M B) :
  stable m -> (forall a, stable (k a)) -> stable (bind m k).
Proof.
  intros Hm Hk.
  destruct (outcome m) as [a|e] eqn:E.
  - apply (stable_intro _ (outcome (k a)) (calls m ++ calls (k a))).
    intros w. unfold bind. rewrite Hm, E, Hk. by rewrite replay_app.
  - apply (stable_intro _ (Raise e) (calls m)).
    intros w. unfold bind. by rewrite Hm, E.
Qed.

Lemma stable_try_except {A} (m : M A) (h : exn -> M A) :
  stable m -> (forall e, stable (h e)) -> stable (try_except m h).
Proof.
  intros Hm Hh.
  destruct (outcome m) as [a|e] eqn:E.
  - apply (stable_intro _ (Ok a) (calls m)).
    intros w. unfold try_except. by rewrite Hm, E.
  - apply (stable_intro _ (outcome (h e)) (calls m ++ calls (h e))).
    intros w. unfold try_except. rewrite Hm, E, Hh. by rewrite replay_app.
Qed.

Lemma stable_for_each {A} (l : list A) (body : A -> M unit) :
  (forall x, stable (body x)) -> stable (for_each l body).
Proof.
  intros Hb. induction l as [|x l IH]; simpl.
  - apply stable_ret.
  - apply stable_bind; auto.
Qed.

Lemma stable_labels g kw : stable (labels g kw).
Proof.
  unfold labels. destruct (labelnames g); [apply stable_raise|].
  destruct (Nat.eqb _ _); [|apply stable_raise].
  destruct (mapM _ _); [|apply stable_raise].
  apply stable_bind; [apply stable_emit|intros; apply stable_ret].
Qed.

Lemma stable_set s v : stable (set s v).
Proof.
  unfold set. destruct (Nat.eqb _ _); [|apply stable_raise].
  apply stable_bind; [apply stable_lift|intros; apply stable_emit].
Qed.

(** The summary of a sequence. *)
Lemma summary_bind_ok {A B} (m : M A) (k : A -> M B) a :
  stable m -> stable (k a) -> outcome m = Ok a ->
  outcome (bind m k) = outcome (k a)
  /\ calls (bind m k) = calls m ++ calls (k a).
Proof.
  intros Hm Hk E. apply summary_intro. intros w.
  unfold bind. rewrite Hm, E, Hk. by rewrite replay_app.
Qed.

Lemma summary_bind_raise {A B} (m : M A) (k : A -> M B) e :
  stable m -> outcome m = Raise e ->
  outcome (bind m k) = Raise e /\ calls (bind m k) = calls m.
Proof.
  intros Hm E. apply summary_intro. intros w.
  unfold bind. by rewrite Hm, E.
Qed.

End StableFacts.

Create HintDb stable.
#[global] Hint Resolve stable_ret stable_raise stable_lift stable_emit stable_log
  stable_labels stable_set : stable.

(* ================================================================== *)
(** * The methods are stable *)
(* ================================================================== *)

(** Leaves are closed from the hint database; sequences, handlers, loops
    and case distinctions are taken apart one step at a time. *)
Ltac stable_tac :=
  repeat first
    [ solve [auto with stable]
    | apply stable_bind; [|intros]
    | apply stable_try_except; [|intros]
    | apply stable_for_each; intros
    | match goal with
      | |- stable (match ?x with _ => _ end) => destruct x
      end ].

Section MethodsStable.
Variable max_str_digits : nat.
Variable subprocess_run : string -> Z -> result CompletedProcess.
Variable self : MooseFSExporter.

Lemma stable_execute_command command :
  stable (_execute_command subprocess_run self command).
Proof. unfold _execute_command. stable_tac. Qed.

Lemma stable_re_search pat text : stable (re_search pat text).
Proof. unfold re_search. stable_tac. Qed.

Lemma stable_re_findall pat text : stable (re_findall pat text).
Proof. unfold re_findall. stable_tac. Qed.

Lemma stable_group m n : stable (group m n).
Proof. unfold group. stable_tac. Qed.

Lemma stable_apply_rule output r : stable (apply_rule output r).
Proof.
  unfold apply_rule.
  apply stable_bind; [apply stable_re_search|intros [m|]]; [|stable_tac].
  apply stable_try_except; [|intros; stable_tac].
  apply stable_bind; [apply stable_group|intros]. stable_tac.
Qed.

Lemma stable_chunkserver_line line :
  stable (chunkserver_line max_str_digits line).
Proof. unfold chunkserver_line. stable_tac. Qed.

Lemma stable_io_line line : stable (io_line line).
Proof. unfold io_line. stable_tac. Qed.

Lemma stable_collect_system_metrics :
  stable (collect_system_metrics max_str_digits subprocess_run self).
Proof.
  unfold collect_system_metrics.
  apply stable_try_except; [|intros; stable_tac].
  apply stable_bind; [apply stable_execute_command|intros output].
  destruct (falsy output); [stable_tac|].
  apply stable_bind; [|intros; stable_tac].
  apply stable_for_each. intros. apply stable_apply_rule.
Qed.

Lemma stable_collect_chunkserver_metrics :
  stable (collect_chunkserver_metrics max_str_digits subprocess_run self).
Proof.
  unfold collect_chunkserver_metrics.
  apply stable_try_except; [|intros; stable_tac].
  apply stable_bind; [apply stable_execute_command|intros output].
  destruct (falsy output); [stable_tac|].
  apply stable_bind; [apply stable_re_findall|intros lines].
  apply stable_bind; [|intros; stable_tac].
  apply stable_for_each. intros. apply stable_chunkserver_line.
Qed.

Lemma stable_collect_io_metrics :
  stable (collect_io_metrics subprocess_run self).
Proof.
  unfold collect_io_metrics.
  apply stable_try_except; [|intros; stable_tac].
  apply stable_bind; [apply stable_execute_command|intros output].
  destruct (falsy output); [stable_tac|].
  apply stable_bind; [apply stable_re_findall|intros lines].
  apply stable_bind; [|intros; stable_tac].
  apply stable_for_each. intros. apply stable_io_line.
Qed.

End MethodsStable.


Section MethodsRun.
Variable max_str_digits : nat.
Variable subprocess_run : string -> Z -> result CompletedProcess.
Variable self : MooseFSExporter.

Lemma execute_command_run command w :
  _execute_command subprocess_run self command w =
  match subprocess_run command (timeout self) with
  | Ok cp => (Ok (if Z.eqb (returncode cp) 0 then Some (stdout cp) else None), w)
  | Raise e => (Ok None, step (command_failure command e) w)
  end.
Proof.
  unfold _execute_command, try_except, bind, lift, command_failure.
  destruct (subprocess_run command (timeout self)) as [cp|e]; [done|].
  by destruct (is_timeout e).
Qed.

Lemma for_each_run {A} (l : list A) (body : A -> M unit) (f : A -> list event) :
  (forall x, In x l -> forall w, body x w = (Ok tt, replay (f x) w)) ->
  forall w, for_each l body w = (Ok tt, replay (flat_map f l) w).
Proof.
  induction l as [|x l IH]; intros H w; [done|].
  simpl. unfold bind. rewrite H by (by left).
  rewrite IH by (intros; apply H; by right).
  by rewrite replay_app.
Qed.

Lemma apply_rule_run re output r w :
  Re.compile (pattern r) = Some re ->
  apply_rule output r w = (Ok tt, replay (rule_calls re output r) w).
Proof.
  intros Hre. unfold apply_rule, re_search, rule_calls, rule_value.
  rewrite Hre. unfold bind at 1. unfold ret at 1.
  destruct (Re.search re output) as [m|]; [|done].
  unfold try_except, group, bind, lift, set; simpl.
  destruct (Re.group m 1) as [c|]; [|done]. simpl.
  destruct (converter r c) as [v|e]; [|done]. simpl.
  destruct (labelnames (target r)); simpl; [|done].
  by destruct (to_float v).
Qed.

Lemma metrics_map_compile r :
  In r (metrics_map max_str_digits) -> Re.compile (pattern r) = Some (rule_regex r).
Proof.
  intros H. unfold rule_regex.
  assert (Hall : Forall (fun r => is_Some (Re.compile (pattern r)))
                        (metrics_map max_str_digits)).
  { unfold metrics_map. repeat constructor; vm_compute; eauto. }
  rewrite Forall_forall in Hall. apply list_elem_of_In in H.
  destruct (Hall r H) as [re ->]. done.
Qed.

Lemma falsy_text output : output <> "" -> falsy (Some output) = false.
Proof. intros H. unfold falsy. by destruct (string_dec output ""). Qed.

Lemma collect_system_metrics_run output w :
  subprocess_run (system_command self) (timeout self) = prints output ->
  output <> "" ->
  collect_system_metrics max_str_digits subprocess_run self w
  = (Ok true, replay (system_calls max_str_digits output) w).
Proof.
  intros Hrun Hne. unfold collect_system_metrics, try_except, bind.
  fold (system_command self). rewrite execute_command_run, Hrun.
  unfold prints. cbn beta iota delta [returncode stdout Z.eqb].
  rewrite (falsy_text _ Hne). cbn beta iota. change (text (Some output)) with output.
  rewrite (for_each_run _ _ (fun r => rule_calls (rule_regex r) output r)); [done|].
  intros r Hr w'. apply apply_rule_run. by apply metrics_map_compile.
Qed.

(** Without output there is no extraction: the collector fails, and the
    only trace is the record of a failed command. *)
Lemma collect_system_metrics_no_output w :
  (forall output, subprocess_run (system_command self) (timeout self) = prints output ->
                  output = "") ->
  exists evs,
    collect_system_metrics max_str_digits subprocess_run self w
    = (Ok false, replay evs w)
    /\ (forall ev, In ev evs -> exists e,
          subprocess_run (system_command self) (timeout self) = Raise e
          /\ ev = command_failure (system_command self) e).
Proof.
  intros H. unfold collect_system_metrics, try_except, bind.
  fold (system_command self). rewrite execute_command_run.
  destruct (subprocess_run _ _) as [[rc out]|e] eqn:E; simpl.
  - exists []. split; [|by intros ? []].
    destruct (Z.eqb_spec rc 0) as [->|Hrc]; simpl; [|done].
    rewrite (H out) by done. done.
  - exists [command_failure (system_command self) e]. split; [done|].
    intros ev [<-|[]]. eauto.
Qed.

Lemma compile_chunkserver_pattern :
  Re.compile chunkserver_pattern = Some chunkserver_regex.
Proof. by vm_compute. Qed.

Lemma compile_io_pattern : Re.compile io_pattern = Some io_regex.
Proof. by vm_compute. Qed.

Lemma stable_chunkserver_loop output :
  stable (chunkserver_loop max_str_digits output).
Proof. apply stable_for_each. intros. apply stable_chunkserver_line. Qed.

Lemma stable_io_loop output : stable (io_loop output).
Proof. apply stable_for_each. intros. apply stable_io_line. Qed.

Lemma collect_chunkserver_metrics_run output w :
  subprocess_run (chunkserver_command self) (timeout self) = prints output ->
  output <> "" ->
  collect_chunkserver_metrics max_str_digits subprocess_run self w
  = match outcome (chunkserver_loop max_str_digits output) with
    | Ok _ => (Ok true, replay (calls (chunkserver_loop max_str_digits output)) w)
    | Raise e =>
        (Ok false,
         replay (calls (chunkserver_loop max_str_digits output)
                 ++ [EvLog ERROR (ChunkserverCollectionError e)]) w)
    end.
Proof.
  intros Hrun Hne. unfold collect_chunkserver_metrics, try_except, bind.
  fold (chunkserver_command self). rewrite execute_command_run, Hrun.
  unfold prints. cbn beta iota delta [returncode stdout Z.eqb].
  rewrite (falsy_text _ Hne). cbn beta iota. change (text (Some output)) with output.
  unfold re_findall. rewrite compile_chunkserver_pattern. unfold ret at 1.
  fold (chunkserver_loop max_str_digits output).
  rewrite (stable_chunkserver_loop output w).
  destruct (outcome _) as [[]|e]; [done|].
  by rewrite replay_app.
Qed.

Lemma collect_io_metrics_run output w :
  subprocess_run (io_command self) (timeout self) = prints output ->
  output <> "" ->
  collect_io_metrics subprocess_run self w
  = match outcome (io_loop output) with
    | Ok _ => (Ok true, replay (calls (io_loop output)) w)
    | Raise e =>
        (Ok false,
         replay (calls (io_loop output) ++ [EvLog ERROR (IOCollectionError e)]) w)
    end.
Proof.
  intros Hrun Hne. unfold collect_io_metrics, try_except, bind.
  fold (io_command self). rewrite execute_command_run, Hrun.
  unfold prints. cbn beta iota delta [returncode stdout Z.eqb].
  rewrite (falsy_text _ Hne). cbn beta iota. change (text (Some output)) with output.
  unfold re_findall. rewrite compile_io_pattern. unfold ret at 1.
  fold (io_loop output).
  rewrite (stable_io_loop output w).
  destruct (outcome _) as [[]|e]; [done|].
  by rewrite replay_app.
Qed.

End MethodsRun.

(* ================================================================== *)
(** * The command runner *)
(* ================================================================== *)

(** C6, as stated, fails: a command that exits with a non-zero status
    yields [None], but nothing is logged for it. *)
Lemma nonzero_exit_is_not_logged :
  let self := {| host := "mfsmaster"; timeout := 10 |} in
  let subprocess_run := fun (_ : string) (_ : Z) =>
                          Ok {| returncode := 1; stdout := "no route to host" |} in
  let run := _execute_command subprocess_run self (system_command self) initial in
  fst run = Ok None /\ ~ (exists ev, In ev (trace (snd run)) /\ is_log ev = true).
Proof.
  intros self subprocess_run run. split; [reflexivity|].
  intros (ev & Hin & _). vm_compute in Hin. exact Hin.
Qed.

(** C6, amended.  [_execute_command] never raises and never touches the
    registry.  It returns the captured text exactly when the process ran
    to completion with exit status 0.  A timeout and any other exception
    of [subprocess.run] each give [None] and one ERROR record, of a
    different kind; a completed process, whatever its exit status, is not
    logged. *)
Theorem command_runner_outcomes
    (subprocess_run : string -> Z -> result CompletedProcess)
    (self : MooseFSExporter) (command : string) (w : world) :
  let run := _execute_command subprocess_run self command w in
  let ran := subprocess_run command (timeout self) in
  (exists o, fst run = Ok o)
  /\ metrics (snd run) = metrics w
  /\ (forall text, fst run = Ok (Some text)
                   <-> exists cp, ran = Ok cp /\ returncode cp = 0%Z /\ stdout cp = text)
  /\ (ran = Raise TimeoutExpired ->
      fst run = Ok None
      /\ trace (snd run) = trace w ++ [EvLog ERROR (CommandTimedOut command)])
  /\ (forall e, e <> TimeoutExpired -> ran = Raise e ->
      fst run = Ok None
      /\ trace (snd run) = trace w ++ [EvLog ERROR (CommandExecutionError e)])
  /\ (forall cp, ran = Ok cp ->
      trace (snd run) = trace w
      /\ (returncode cp <> 0%Z -> fst run = Ok None)).
Proof.
  intros run ran. subst run ran. rewrite execute_command_run.
  destruct (subprocess_run command (timeout self)) as [cp|e] eqn:E; simpl.
  - split; [eauto|]. split; [done|]. split.
    { intros text. destruct (Z.eqb_spec (returncode cp) 0) as [Hz|Hnz]; split.
      - intros [= <-]. eauto.
      - intros (cp' & [= <-] & _ & <-). done.
      - done.
      - intros (cp' & [= <-] & Hz & _). done. }
    split; [done|]. split; [done|].
    intros cp' [= <-]. split; [done|].
    intros Hnz. by destruct (Z.eqb_spec (returncode cp) 0).
  - split; [eauto|]. split; [done|]. split.
    { intros text; split; [done|]. by intros (cp & ? & _). }
    split.
    { intros [= ->]. done. }
    split; [|done].
    intros e' Hne [= <-]. unfold command_failure. by destruct e.
Qed.

Lemma command_runner_outcomes_witness :
  let self := {| host := "mfsmaster"; timeout := 10 |} in
  let subprocess_run := fun (_ : string) (_ : Z) => @Raise CompletedProcess TimeoutExpired in
  let run := _execute_command subprocess_run self "mfscli -H mfsmaster -SIG" initial in
  fst run = Ok None
  /\ trace (snd run) = [EvLog ERROR (CommandTimedOut "mfscli -H mfsmaster -SIG")].
Proof.
  intros self subprocess_run run.
  destruct (command_runner_outcomes subprocess_run self "mfscli -H mfsmaster -SIG" initial)
    as (_ & _ & _ & H & _).
  exact (H eq_refl).
Defined.

(* ================================================================== *)
(** * Isolation of the collectors *)
(* ================================================================== *)

Section Isolation.
Local Open Scope py_scope.

(** A method that ends in [except Exception as e: log; return False]
    always returns. *)
Lemma guarded_returns {A} (m : M A) (msg : exn -> message) (a : A) w :
  exists a', fst (try_except m (fun e => log ERROR (msg e) ;; ret a) w) = Ok a'.
Proof.
  unfold try_except. destruct (m w) as [[a'|e] w']; simpl; eauto.
Qed.

Lemma run_collectors_fold (collectors : list (string * M bool)) w :
  run_collectors collectors w = (Ok tt, fold_left (fun w c => after c w) collectors w).
Proof.
  unfold run_collectors. revert w.
  induction collectors as [|c cs IH]; intros w; [done|].
  simpl. unfold bind at 1, try_except at 1, bind at 1, after at 2.
  destruct (snd c w) as [[b|e] w']; simpl; apply IH.
Qed.

End Isolation.

(** C7.  Each collector returns an outcome and never raises, whatever
    the command does and whatever its output is.  The loop of
    [collect_all_metrics] never raises either and runs every collector of
    its list, each on the world the previous one left, also after a
    collector that failed or raised; in particular one cycle is the three
    collectors run in order. *)
Theorem collectors_isolated
    (max_str_digits : nat)
    (subprocess_run : string -> Z -> result CompletedProcess)
    (self : MooseFSExporter) (w : world) :
  (exists b, fst (collect_system_metrics max_str_digits subprocess_run self w) = Ok b)
  /\ (exists b, fst (collect_chunkserver_metrics max_str_digits subprocess_run self w) = Ok b)
  /\ (exists b, fst (collect_io_metrics subprocess_run self w) = Ok b)
  /\ (forall (collectors : list (string * M bool)) (w0 : world),
        run_collectors collectors w0
        = (Ok tt, fold_left (fun w c => after c w) collectors w0))
  /\ (let w1 := snd (collect_system_metrics max_str_digits subprocess_run self w) in
      let w2 := snd (collect_chunkserver_metrics max_str_digits subprocess_run self w1) in
      let w3 := snd (collect_io_metrics subprocess_run self w2) in
      collect_all_metrics max_str_digits subprocess_run self w = (Ok tt, w3)).
Proof.
  split; [apply guarded_returns|].
  split; [apply guarded_returns|].
  split; [apply guarded_returns|].
  split; [apply run_collectors_fold|].
  intros w1 w2 w3. unfold collect_all_metrics. rewrite run_collectors_fold.
  f_equal. unfold metrics_collectors. cbn [fold_left].
  assert (Hafter : forall name (m : M bool) w0,
             (exists b, fst (m w0) = Ok b) -> after (name, m) w0 = snd (m w0)).
  { intros name m w0 [b Hb]. unfold after. cbn [snd fst].
    destruct (m w0) as [[b'|e] w']; simpl in *; [done|discriminate]. }
  rewrite !Hafter by apply guarded_returns. done.
Qed.

(* ================================================================== *)
(** * Idempotence *)
(* ================================================================== *)

Lemma stable_twice {A} (m : M A) w :
  stable m -> metrics (snd (m (snd (m w)))) = metrics (snd (m w)).
Proof.
  intros H. rewrite (H w). cbn [snd]. rewrite (H (replay (calls m) w)). cbn [snd].
  apply metrics_replay_idem.
Qed.

(** C8.  Running a collector a second time, on the same command output,
    leaves the registry as the first run left it: each series holds the
    value it held, and there is no series more (a registry has one entry
    per label combination).  This holds for every output and every
    outcome of the command, and for each of the three collectors. *)
Theorem extraction_idempotent
    (max_str_digits : nat)
    (subprocess_run : string -> Z -> result CompletedProcess)
    (self : MooseFSExporter) (w : world) :
  let system := collect_system_metrics max_str_digits subprocess_run self in
  let inventory := collect_chunkserver_metrics max_str_digits subprocess_run self in
  let throughput := collect_io_metrics subprocess_run self in
  metrics (snd (system (snd (system w)))) = metrics (snd (system w))
  /\ metrics (snd (inventory (snd (inventory w)))) = metrics (snd (inventory w))
  /\ metrics (snd (throughput (snd (throughput w)))) = metrics (snd (throughput w)).
Proof.
  intros system inventory throughput. repeat split; apply stable_twice.
  - apply stable_collect_system_metrics.
  - apply stable_collect_chunkserver_metrics.
  - apply stable_collect_io_metrics.
Qed.

(* ================================================================== *)
(** * The rules of the system collector *)
(* ================================================================== *)

Section Rules.
Variable max_str_digits : nat.

Lemma sets_of_app g evs1 evs2 :
  sets_of g (evs1 ++ evs2) = sets_of g evs1 ++ sets_of g evs2.
Proof. unfold sets_of. apply List.filter_app. Qed.

(** A rule touches the series of its own gauge only. *)
Lemma rule_calls_foreign re output r g :
  target r <> g ->
  sets_of g (rule_calls re output r) = []
  /\ forall lv o, replay_at (g, lv) (rule_calls re output r) o = o.
Proof.
  intros Hne. unfold rule_calls.
  destruct (rule_value re output r) as [[f|e]|]; simpl; try done.
  rewrite bool_decide_eq_false_2 by done. split; [done|].
  intros lv o. rewrite decide_False; [done|]. by intros [= ? ?].
Qed.

Lemma rules_foreign (rules : list rule) output g :
  (forall r, In r rules -> target r <> g) ->
  sets_of g (flat_map (fun r => rule_calls (rule_regex r) output r) rules) = []
  /\ forall lv o,
       replay_at (g, lv)
         (flat_map (fun r => rule_calls (rule_regex r) output r) rules) o = o.
Proof.
  induction rules as [|r rules IH]; intros H; [done|].
  simpl. rewrite sets_of_app.
  destruct (rule_calls_foreign (rule_regex r) output r g) as [H1 H2];
    [apply H; by left|].
  destruct IH as [H3 H4]; [intros; apply H; by right|].
  rewrite H1, H3. split; [done|].
  intros lv o. by rewrite replay_at_app, H2, H4.
Qed.

Lemma targets_distinct : NoDup (map target (metrics_map max_str_digits)).
Proof. unfold metrics_map. simpl. compute_done. Qed.

(** Around a rule of [metrics_map], the other rules have other gauges. *)
Lemma rule_split r :
  In r (metrics_map max_str_digits) ->
  exists before after_,
    metrics_map max_str_digits = before ++ r :: after_
    /\ (forall r', In r' before -> target r' <> target r)
    /\ (forall r', In r' after_ -> target r' <> target r).
Proof.
  intros Hin. destruct (in_split _ _ Hin) as (before & after_ & Heq).
  exists before, after_. split; [done|].
  pose proof targets_distinct as Hnd. rewrite Heq, map_app in Hnd. simpl in Hnd.
  apply NoDup_app in Hnd as (_ & Hdisj & Hnd).
  apply NoDup_cons in Hnd as [Hnot _].
  split.
  - intros r' Hr' Heq'. apply (Hdisj (target r')).
    + apply list_elem_of_In, in_map, Hr'.
    + rewrite Heq'. left.
  - intros r' Hr' Heq'. apply Hnot. rewrite <- Heq'.
    apply list_elem_of_In, in_map, Hr'.
Qed.

(** Hence, on the series of a rule's gauge, the whole pass does what
    this rule alone does. *)
Lemma system_calls_at r output :
  In r (metrics_map max_str_digits) ->
  sets_of (target r) (system_calls max_str_digits output)
  = sets_of (target r) (rule_calls (rule_regex r) output r)
  /\ forall lv o,
       replay_at (target r, lv) (system_calls max_str_digits output) o
       = replay_at (target r, lv) (rule_calls (rule_regex r) output r) o.
Proof.
  intros Hin. destruct (rule_split r Hin) as (before & after_ & Heq & Hb & Ha).
  unfold system_calls. rewrite Heq, flat_map_app. simpl.
  destruct (rules_foreign before output (target r) Hb) as [B1 B2].
  destruct (rules_foreign after_ output (target r) Ha) as [A1 A2].
  rewrite !sets_of_app, B1, A1, app_nil_r. split; [done|].
  intros lv o. by rewrite !replay_at_app, B2, A2.
Qed.

Lemma system_calls_in r output ev :
  In r (metrics_map max_str_digits) ->
  In ev (rule_calls (rule_regex r) output r) ->
  In ev (system_calls max_str_digits output).
Proof.
  intros Hr Hev. unfold system_calls. apply in_flat_map. eauto.
Qed.

(** No pattern of [metrics_map] matches the empty text. *)
Lemma rules_need_text r :
  In r (metrics_map max_str_digits) -> Re.search (rule_regex r) "" = None.
Proof.
  intros H.
  assert (Hall : Forall (fun r => Re.search (rule_regex r) "" = None)
                        (metrics_map max_str_digits)).
  { unfold metrics_map. repeat constructor. }
  rewrite Forall_forall in Hall. apply Hall. by apply list_elem_of_In.
Qed.

Lemma rule_labelnames r :
  In r (metrics_map max_str_digits) -> labelnames (target r) = [].
Proof.
  intros H.
  assert (Hall : Forall (fun r => labelnames (target r) = [])
                        (metrics_map max_str_digits)).
  { unfold metrics_map. repeat constructor. }
  rewrite Forall_forall in Hall. apply Hall. by apply list_elem_of_In.
Qed.

(** A rule that matches and converts makes one call: the [set]. *)
Lemma rule_calls_converted output r m captured value f :
  In r (metrics_map max_str_digits) ->
  Re.search (rule_regex r) output = Some m ->
  Re.group m 1 = Some captured ->
  converter r captured = Ok value ->
  to_float value = Ok f ->
  rule_calls (rule_regex r) output r = [EvSet (target r) [] f].
Proof.
  intros Hin Hm Hg Hc Hf. unfold rule_calls, rule_value. rewrite Hm, Hg, Hc. simpl.
  rewrite (rule_labelnames _ Hin). simpl. by rewrite Hf.
Qed.

(** A rule that matches and whose converter raises makes one call: the
    warning. *)
Lemma rule_calls_failed output r m captured e :
  Re.search (rule_regex r) output = Some m ->
  Re.group m 1 = Some captured ->
  converter r captured = Raise e ->
  rule_calls (rule_regex r) output r
  = [EvLog WARNING (ErrorProcessing (metric_name r) e)].
Proof.
  intros Hm Hg Hc. unfold rule_calls, rule_value. by rewrite Hm, Hg, Hc.
Qed.

(** The regex of a rule of [metrics_map], and the text it matched. *)
Lemma matched_rule r re output m :
  In r (metrics_map max_str_digits) ->
  Re.compile (pattern r) = Some re ->
  Re.search re output = Some m ->
  re = rule_regex r /\ output <> "".
Proof.
  intros Hin Hre Hm.
  rewrite (metrics_map_compile _ _ Hin) in Hre. injection Hre as <-.
  split; [done|]. intros ->. rewrite (rules_need_text _ Hin) in Hm. discriminate.
Qed.

End Rules.

(* ================================================================== *)
(** * The field extraction pass *)
(* ================================================================== *)




(** C3.  For every text and every rule whose pattern does not match it,
    the pass makes no call on the rule's gauge: the gauge keeps the value
    it had, whatever that was, and no [set] on it is traced. *)
Theorem unmatched_rule_keeps_value
    (max_str_digits : nat)
    (subprocess_run : string -> Z -> result CompletedProcess)
    (self : MooseFSExporter) (w : world)
    (output : string) (r : rule) (re : Re.regex) :
  subprocess_run (system_command self) (timeout self) = prints output ->
  In r (metrics_map max_str_digits) ->
  Re.compile (pattern r) = Some re ->
  Re.search re output = None ->
  let run := collect_system_metrics max_str_digits subprocess_run self w in
  metrics (snd run) !! (target r, []) = metrics w !! (target r, [])
  /\ sets_of (target r) (trace (snd run)) = sets_of (target r) (trace w).
Proof.
  intros Hrun Hin Hre Hm run. subst run.
  rewrite (metrics_map_compile _ _ Hin) in Hre. injection Hre as <-.
  destruct (string_dec output "") as [->|Hne].
  - destruct (collect_system_metrics_no_output max_str_digits subprocess_run self w)
      as (evs & -> & Hevs).
    { intros output. rewrite Hrun. by intros [= <-]. }
    destruct evs as [|ev evs]; [done|].
    destruct (Hevs ev) as (e & He & _); [by left|].
    rewrite Hrun in He. discriminate.
  - rewrite (collect_system_metrics_run _ _ _ output) by done. cbn [fst snd].
    destruct (system_calls_at max_str_digits r output Hin) as [Hs Hr].
    assert (Hcalls : rule_calls (rule_regex r) output r = []).
    { unfold rule_calls, rule_value. by rewrite Hm. }
    rewrite lookup_replay, Hr, trace_replay, sets_of_app, Hs, Hcalls.
    simpl. by rewrite app_nil_r.
Qed.

(** A registry seeded with a known value, and a text that has no RAM
    line. *)
Lemma unmatched_rule_keeps_value_witness :
  let self := {| host := "mfsmaster"; timeout := 10 |} in
  let seeded := {| metrics := <[(mfs_ram_used, []) := dyadic 42 0]> fresh_registry;
                   trace := [] |} in
  let run := collect_system_metrics 4300 (fun _ _ => prints "CPU used   : 3.50%")
                                    self seeded in
  metrics (snd run) !! (mfs_ram_used, []) = Some (dyadic 42 0).
Proof.
  intros self seeded run.
  pose (ram := Rule "ram_used" "RAM used\s+:\s+(\d+)\s*MiB" (mib_to_bytes 4300)
                    mfs_ram_used).
  assert (Hin : In ram (metrics_map 4300)) by (right; left; reflexivity).
  assert (Hre : Re.compile (pattern ram) = Some (rule_regex ram)) by (by vm_compute).
  assert (Hm : Re.search (rule_regex ram) "CPU used   : 3.50%" = None)
    by (by vm_compute).
  pose proof (proj1 (unmatched_rule_keeps_value 4300
                (fun _ _ => prints "CPU used   : 3.50%") self seeded
                "CPU used   : 3.50%" ram (rule_regex ram) eq_refl Hin Hre Hm)) as H.
  cbv zeta in H. subst run. change (target ram) with mfs_ram_used in H.
  rewrite H. by vm_compute.
Defined.

(** C5.  For every text, a rule whose pattern matches and whose converter
    raises on the captured string is skipped: its gauge is not written,
    one WARNING naming the rule is logged, and the pass goes on and
    succeeds; every other rule that matches and converts still has its
    value in the registry at the end of the same pass. *)
Theorem rules_independent
    (max_str_digits : nat)
    (subprocess_run : string -> Z -> result CompletedProcess)
    (self : MooseFSExporter) (w : world)
    (output : string) (r : rule) (re : Re.regex) (m : Re.Match)
    (captured : string) (e : exn) :
  subprocess_run (system_command self) (timeout self) = prints output ->
  In r (metrics_map max_str_digits) ->
  Re.compile (pattern r) = Some re ->
  Re.search re output = Some m ->
  Re.group m 1 = Some captured ->
  converter r captured = Raise e ->
  let run := collect_system_metrics max_str_digits subprocess_run self w in
  fst run = Ok true
  /\ metrics (snd run) !! (target r, []) = metrics w !! (target r, [])
  /\ sets_of (target r) (trace (snd run)) = sets_of (target r) (trace w)
  /\ (exists evs, trace (snd run) = trace w ++ evs
                  /\ In (EvLog WARNING (ErrorProcessing (metric_name r) e)) evs)
  /\ (forall r' re' m' captured' value' f',
        In r' (metrics_map max_str_digits) ->
        Re.compile (pattern r') = Some re' ->
        Re.search re' output = Some m' ->
        Re.group m' 1 = Some captured' ->
        converter r' captured' = Ok value' ->
        to_float value' = Ok f' ->
        metrics (snd run) !! (target r', []) = Some f'
        /\ sets_of (target r') (trace (snd run))
           = sets_of (target r') (trace w) ++ [EvSet (target r') [] f']).
Proof.
  intros Hrun Hin Hre Hm Hg Hc run. subst run.
  destruct (matched_rule _ _ _ _ _ Hin Hre Hm) as [-> Hne].
  rewrite (collect_system_metrics_run _ _ _ output) by done. cbn [fst snd].
  destruct (system_calls_at max_str_digits r output Hin) as [Hs Hr].
  pose proof (rule_calls_failed _ _ _ _ _ Hm Hg Hc) as Hcalls.
  split; [done|]. split; [|split; [|split]].
  - by rewrite lookup_replay, Hr, Hcalls.
  - rewrite trace_replay, sets_of_app, Hs, Hcalls. simpl. by rewrite app_nil_r.
  - exists (system_calls max_str_digits output). split; [apply trace_replay|].
    apply (system_calls_in _ r); [done|]. rewrite Hcalls. by left.
  - intros r' re' m' captured' value' f' Hin' Hre' Hm' Hg' Hc' Hf'.
    destruct (matched_rule _ _ _ _ _ Hin' Hre' Hm') as [-> _].
    destruct (system_calls_at max_str_digits r' output Hin') as [Hs' Hr'].
    pose proof (rule_calls_converted _ _ _ _ _ _ _ Hin' Hm' Hg' Hc' Hf') as Hcalls'.
    split.
    + rewrite lookup_replay, Hr', Hcalls'. simpl. by rewrite decide_True.
    + rewrite trace_replay, sets_of_app, Hs', Hcalls'. simpl.
      by rewrite bool_decide_eq_true_2.
Qed.

(** The version line of a real master, followed by a RAM line: the
    version is not a number, its gauge stays at its initial value and a
    warning is logged; the RAM gauge is written all the same. *)
Lemma rules_independent_witness :
  let self := {| host := "mfsmaster"; timeout := 10 |} in
  let output := "master version : 4.10.0
RAM used   : 512 MiB" in
  let run := collect_system_metrics 4300 (fun _ _ => prints output) self initial in
  float_ "4.10.0" = Raise ValueError
  /\ fst run = Ok true
  /\ metrics (snd run) !! (mfs_version, []) = Some zero
  /\ In (EvLog WARNING (ErrorProcessing "version" ValueError)) (trace (snd run))
  /\ holds (snd run) (mfs_ram_used, []) 536870912 1.
Proof.
  intros self output run.
  pose (version := Rule "version" "master version\s+:\s+(\S+)" float_ mfs_version).
  pose (ram := Rule "ram_used" "RAM used\s+:\s+(\d+)\s*MiB" (mib_to_bytes 4300)
                    mfs_ram_used).
  pose (m1 := {| Re.m_start := 0; Re.m_end := 23; Re.m_groups := ["4.10.0"] |}).
  pose (m2 := {| Re.m_start := 24; Re.m_end := 44; Re.m_groups := ["512"] |}).
  assert (Hc : float_ "4.10.0" = Raise ValueError) by (by vm_compute).
  assert (Hm1 : Re.search (rule_regex version) output = Some m1) by (by vm_compute).
  assert (Hm2 : Re.search (rule_regex ram) output = Some m2) by (by vm_compute).
  destruct (rules_independent 4300 (fun _ _ => prints output) self initial output
              version (rule_regex version) m1 "4.10.0" ValueError
              eq_refl (or_introl eq_refl) eq_refl Hm1 eq_refl Hc)
    as (H1 & H2 & _ & (evs & Htrace & H4) & H5).
  destruct (H5 ram (rule_regex ram) m2 "512" (PyInt 536870912) (dyadic 536870912 0)
              (or_intror (or_introl eq_refl)) eq_refl Hm2 eq_refl eq_refl eq_refl)
    as [H6 _].
  split; [exact Hc|]. split; [exact H1|]. split.
  - subst run. change (target version) with mfs_version in H2. rewrite H2.
    by vm_compute.
  - split; [subst run; rewrite Htrace; exact H4|].
    exists (dyadic 536870912 0). split; [exact H6|by vm_compute].
Defined.

(* ================================================================== *)
(** * The matcher is sound *)
(* ================================================================== *)

Section MatcherSound.

Lemma backtrack_some {R} (f : nat -> option R) lo k res :
  lo <= k -> Re.backtrack f lo k = Some res ->
  exists j, lo <= j <= k /\ f j = Some res.
Proof.
  induction k as [|k IH]; intros Hle H; simpl in H.
  - destruct (f 0) eqn:E; [|done]. exists 0. split; [lia|]. congruence.
  - destruct (f (S k)) eqn:E.
    + exists (S k). split; [lia|]. congruence.
    + destruct (Nat.leb_spec lo k) as [Hlo|Hlo]; [|done].
      destruct (IH Hlo H) as (j & Hj & Hf). exists j. split; [lia|done].
Qed.

Lemma span_take c s j : j <= Re.span c s -> all_in c (take j s) /\ length (take j s) = j.
Proof.
  revert j. induction s as [|a s IH]; intros j Hj; simpl in *.
  - assert (j = 0) as -> by lia. by split; [constructor|].
  - destruct j as [|j]; [by split; [constructor|]|].
    destruct (Re.accepts c a) eqn:E; [|lia].
    destruct (IH j) as [H1 H2]; [lia|]. simpl. split; [by constructor|by rewrite H2].
Qed.

Lemma match_atoms_sound {R} b s off (k : list ascii -> nat -> option R) res :
  Re.match_atoms b s off k = Some res ->
  exists u s', s = u ++ s' /\ lang b u /\ k s' (off + length u) = Some res.
Proof.
  revert s off. induction b as [|[c q] b IH]; intros s off H.
  - exists [], s. simpl in *. by rewrite Nat.add_0_r.
  - assert (Hrep : forall lo, Re.min_count q = lo ->
        (if (lo <=? Re.span c s)%nat
         then Re.backtrack (fun j => Re.match_atoms b (drop j s) (off + j) k) lo (Re.span c s)
         else None) = Some res ->
        exists v u' s', s = (v ++ u') ++ s' /\ all_in c v /\ lo <= length v /\ lang b u'
                        /\ k s' (off + length (v ++ u')) = Some res).
    { intros lo Hlo Hb.
      destruct (Nat.leb_spec lo (Re.span c s)) as [Hle|]; [|done].
      destruct (backtrack_some _ _ _ _ Hle Hb) as (j & Hj & Hm).
      destruct (IH _ _ Hm) as (u' & s' & Hs & Hl & Hk).
      destruct (span_take c s j) as [Hall Hlen]; [lia|].
      exists (take j s), u', s'. rewrite <- app_assoc, <- Hs, take_drop.
      rewrite length_app, Hlen, Nat.add_assoc. repeat split; try done. lia. }
    destruct q; simpl in H.
    + destruct s as [|a s]; [done|]. destruct (Re.accepts c a) eqn:E; [|done].
      destruct (IH _ _ H) as (u' & s' & -> & Hl & Hk).
      exists (a :: u'), s'. simpl.
      replace (off + S (length u')) with (S off + length u') by lia.
      repeat split; try done. by exists a, u'.
    + destruct (Hrep 0 eq_refl H) as (v & u' & s' & Hs & Hall & Hlo & Hl & Hk).
      exists (v ++ u'), s'. repeat split; try done. by exists v, u'.
    + destruct (Hrep 1 eq_refl H) as (v & u' & s' & Hs & Hall & Hlo & Hl & Hk).
      exists (v ++ u'), s'. repeat split; try done. by exists v, u'.
Qed.

Lemma extract_middle pre v s' :
  Re.extract (pre ++ v ++ s') (length pre, length v) = PyStr.str v.
Proof.
  unfold Re.extract. simpl. f_equal.
  rewrite drop_app_length. by rewrite take_app_length.
Qed.

Lemma match_here_sound r pre s gs0 len gs :
  Re.match_here r s (length pre) gs0 = Some (len, gs) ->
  exists u s' caps,
    s = u ++ s' /\ len = length pre + length u /\ matched r u caps
    /\ map (Re.extract (pre ++ s)) gs
       = map (Re.extract (pre ++ s)) gs0 ++ map PyStr.str caps.
Proof.
  revert pre s gs0.
  induction r as [|[a|b] r IH]; intros pre s gs0 H; cbn [Re.match_here] in H.
  - injection H as <- <-. exists [], s, []. simpl.
    by rewrite Nat.add_0_r, app_nil_r.
  - destruct (match_atoms_sound _ _ _ _ _ H) as (v & s1 & -> & Hl & Hk).
    rewrite <- length_app in Hk.
    destruct (IH _ _ _ Hk) as (u & s' & caps & -> & -> & Hm & Hg).
    exists (v ++ u), s', caps. rewrite !length_app, <- !app_assoc in *.
    repeat split; try done; [lia|]. by exists v, u.
  - destruct (match_atoms_sound _ _ _ _ _ H) as (v & s1 & -> & Hl & Hk).
    rewrite <- length_app in Hk.
    destruct (IH _ _ _ Hk) as (u & s' & caps & -> & -> & Hm & Hg).
    exists (v ++ u), s', (v :: caps). rewrite !length_app, <- !app_assoc in *.
    repeat split; try done; [lia| |].
    + by exists v, u, caps.
    + rewrite Hg, map_app. simpl. rewrite <- app_assoc. simpl. do 2 f_equal.
      replace (length pre + length v - length pre) with (length v) by lia.
      apply extract_middle.
Qed.

Lemma match_at_sound r s pos m :
  Re.match_at r s pos = Some m ->
  exists u s' caps,
    s = u ++ s' /\ matched r u caps
    /\ Re.m_start m = pos /\ Re.m_end m = pos + length u
    /\ Re.m_groups m = map PyStr.str caps.
Proof.
  unfold Re.match_at. intros H.
  destruct (Re.match_here r s 0 []) as [[len gs]|] eqn:E; [|done].
  injection H as <-. simpl.
  destruct (match_here_sound r [] s [] len gs E) as (u & s' & caps & Hs & -> & Hm & Hg).
  exists u, s', caps. simpl in *. done.
Qed.

(** Every record of [re.findall] is a match of the pattern somewhere in
    the text. *)
Lemma findall_from_sound r s pos skip m :
  In m (Re.findall_from r s pos skip) ->
  exists pre u post caps,
    s = pre ++ u ++ post /\ matched r u caps
    /\ Re.m_end m = pos + length (pre ++ u)
    /\ Re.m_groups m = map PyStr.str caps.
Proof.
  revert pos skip. induction s as [|a s IH]; intros pos skip H.
  - destruct skip; simpl in H; [|done].
    destruct (Re.match_at r [] pos) as [m'|] eqn:E; [|done].
    destruct H as [<-|[]].
    destruct (match_at_sound _ _ _ _ E) as (u & s' & caps & Hs & Hm & _ & He & Hg).
    exists [], u, s', caps. done.
  - assert (Hrec : forall pos' skip', In m (Re.findall_from r s pos' skip') ->
                pos' = S pos ->
                exists pre u post caps,
                  a :: s = pre ++ u ++ post /\ matched r u caps
                  /\ Re.m_end m = pos + length (pre ++ u)
                  /\ Re.m_groups m = map PyStr.str caps).
    { intros pos' skip' Hin ->.
      destruct (IH _ _ Hin) as (pre & u & post & caps & -> & Hm & He & Hg).
      exists (a :: pre), u, post, caps. simpl. repeat split; try done.
      rewrite He. simpl. lia. }
    destruct skip; simpl in H; [|by eapply Hrec].
    destruct (Re.match_at r (a :: s) pos) as [m'|] eqn:E; [|by eapply Hrec].
    destruct H as [<-|H]; [|by eapply Hrec].
    destruct (match_at_sound _ _ _ _ E) as (u & s' & caps & Hs & Hm & _ & He & Hg).
    exists [], u, s', caps. done.
Qed.

Lemma matched_app r1 r2 u caps :
  matched (r1 ++ r2) u caps ->
  exists u1 u2 c1 c2,
    u = u1 ++ u2 /\ caps = c1 ++ c2 /\ matched r1 u1 c1 /\ matched r2 u2 c2.
Proof.
  revert u caps. induction r1 as [|[a|b] r1 IH]; intros u caps H; simpl in H.
  - by exists [], u, [], caps.
  - destruct H as (v & u' & -> & Hl & H).
    destruct (IH _ _ H) as (u1 & u2 & c1 & c2 & -> & -> & H1 & H2).
    exists (v ++ u1), u2, c1, c2. rewrite <- app_assoc. repeat split; try done.
    by exists v, u1.
  - destruct H as (v & u' & gs' & -> & -> & Hl & H).
    destruct (IH _ _ H) as (u1 & u2 & c1 & c2 & -> & -> & H1 & H2).
    exists (v ++ u1), u2, (v :: c1), c2. rewrite <- app_assoc. repeat split; try done.
    by exists v, u1, c1.
Qed.

End MatcherSound.

(* ================================================================== *)
(** * Runs of characters *)
(* ================================================================== *)

Section Runs.
Import PyStr.

(** A maximal run of [P] at the head of a string is determined by the
    string. *)
Lemma run_unique (P : ascii -> bool) u v r1 r2 :
  Forall (fun a => P a = true) u -> Forall (fun a => P a = true) v ->
  stops P r1 -> stops P r2 ->
  u ++ r1 = v ++ r2 -> u = v /\ r1 = r2.
Proof.
  intros Hu. revert v. induction Hu as [|a u Ha Hu IH]; intros v Hv H1 H2 E.
  - destruct Hv as [|b v Hb Hv]; [done|].
    simpl in E. subst r1. simpl in H1. congruence.
  - destruct Hv as [|b v Hb Hv].
    + simpl in E. subst r2. simpl in H2. congruence.
    + simpl in E. injection E as -> E.
      destruct (IH v Hv H1 H2 E) as [-> ->]. done.
Qed.

Lemma stops_run (P Q : ascii -> bool) l r :
  (forall a, Q a = true -> P a = false) ->
  l <> [] -> Forall (fun a => Q a = true) l -> stops P (l ++ r).
Proof.
  intros HQP Hne Hl. destruct Hl as [|a l Ha Hl]; [done|]. simpl. auto.
Qed.

Lemma rev_nonempty {A} (l : list A) : l <> [] -> rev l <> [].
Proof.
  destruct l as [|a l]; [done|]. simpl. intros _ H.
  by apply app_eq_nil in H as [_ ?].
Qed.

Lemma digit_not_space a : is_digit a = true -> is_space a = false.
Proof. destruct a as [[] [] [] [] [] [] [] []]; by vm_compute. Qed.

Lemma space_not_digit a : is_space a = true -> is_digit a = false.
Proof. destruct a as [[] [] [] [] [] [] [] []]; by vm_compute. Qed.

End Runs.

(* ================================================================== *)
(** * The tail of an inventory row *)
(* ================================================================== *)

Section RowShape.
Import PyStr.

Lemma chunkserver_regex_split : chunkserver_regex = row_head ++ row_tail.
Proof. by vm_compute. Qed.

Lemma lang_lit x v : lang [Re.At (Re.Lit x) Re.Once] v -> v = [x].
Proof.
  cbn [lang Re.accepts]. intros (a & u' & -> & Ha & ->).
  by destruct (ascii_dec x a) as [->|].
Qed.

Lemma lang_plus c v : lang [Re.At c Re.Plus] v -> all_in c v /\ v <> [].
Proof.
  cbn [lang]. intros (v' & u' & -> & Hall & Hlen & ->). rewrite app_nil_r.
  split; [done|]. by destruct v'; [simpl in Hlen; lia|].
Qed.

Lemma lang_star c v : lang [Re.At c Re.Star] v -> all_in c v.
Proof.
  cbn [lang]. intros (v' & u' & -> & Hall & Hlen & ->). by rewrite app_nil_r.
Qed.

(** [\d+\.\d+] *)
Lemma lang_decimal v :
  lang [Re.At Re.Digit Re.Plus; Re.At (Re.Lit ".") Re.Once; Re.At Re.Digit Re.Plus] v ->
  exists d1 d2, v = d1 ++ "."%char :: d2 /\ digits d1 /\ digits d2.
Proof.
  cbn [lang Re.accepts].
  intros (d1 & u1 & -> & H1 & L1 & a & u2 & -> & Ha & d2 & u3 & -> & H2 & L2 & ->).
  destruct (ascii_dec "." a) as [<-|]; [|done].
  exists d1, d2. rewrite app_nil_r. repeat split; try done.
  - by destruct d1; [simpl in L1; lia|].
  - by destruct d2; [simpl in L2; lia|].
Qed.

Lemma row_tail_shape u caps :
  matched row_tail u caps ->
  exists a d b c d1 d2,
    u = chars "GiB" ++ a ++ d ++ b ++ chars "GiB" ++ c ++ d1 ++ "."%char :: d2 ++ chars "%"
    /\ caps = [d; d1 ++ "."%char :: d2]
    /\ blanks a /\ a <> [] /\ digits d /\ blanks b /\ blanks c /\ c <> []
    /\ digits d1 /\ digits d2.
Proof.
  unfold row_tail. cbn [matched].
  intros (g1 & ? & -> & G1 & i1 & ? & -> & I1 & b1 & ? & -> & B1
          & a & ? & -> & Ha
          & d & ? & ? & -> & -> & Hd
          & b & ? & -> & Hb
          & g2 & ? & -> & G2 & i2 & ? & -> & I2 & b2 & ? & -> & B2
          & c & ? & -> & Hc
          & p & ? & ? & -> & -> & Hp
          & pc & ? & -> & Hpc & -> & ->).
  apply lang_lit in G1 as ->, I1 as ->, B1 as ->, G2 as ->, I2 as ->, B2 as ->,
                   Hpc as ->.
  apply lang_plus in Ha as [Ha Ha'], Hd as [Hd Hd'], Hc as [Hc Hc'].
  apply lang_star in Hb.
  apply lang_decimal in Hp as (d1 & d2 & -> & H1 & H2).
  exists a, d, b, c, d1, d2. simpl. rewrite <- !app_assoc. simpl.
  split; [done|]. split; [done|]. unfold digits, blanks in *. tauto.
Qed.

End RowShape.

Section FractionalTotal.
Import PyStr.

Lemma digits_rev v :
  all_in Re.Digit v -> Forall (fun a => is_digit a = true) (rev v).
Proof. apply Forall_rev. Qed.

Lemma blanks_rev v :
  all_in Re.Space v -> Forall (fun a => is_space a = true) (rev v).
Proof. apply Forall_rev. Qed.

(** A row whose total is written with a fraction: whatever precedes the
    point of the total, no match of the row pattern ends at the row's
    percent sign. *)
Lemma fractional_row_core before tf ws3 ws4 pi pf pre u caps :
  digits tf -> blanks ws3 -> blanks ws4 -> ws4 <> [] ->
  all_in Re.Digit pi -> all_in Re.Digit pf ->
  matched chunkserver_regex u caps ->
  pre ++ u
  = before ++ "."%char :: tf ++ ws3 ++ chars "GiB" ++ ws4 ++ pi
           ++ "."%char :: pf ++ chars "%" ->
  False.
Proof.
  intros [Htf Htf'] Hws3 Hws4 Hws4' Hpi Hpf Hm E.
  rewrite chunkserver_regex_split in Hm.
  apply matched_app in Hm as (u1 & u2 & c1 & c2 & -> & -> & _ & Hm).
  apply row_tail_shape in Hm
    as (a & d & b & c & d1 & d2 & -> & _ & Ha & Ha' & [Hd Hd'] & Hb & Hc & Hc'
        & [Hd1 _] & [Hd2 _]).
  apply (f_equal (@rev ascii)) in E.
  repeat (rewrite ?rev_app_distr in E; simpl in E; rewrite <- ?app_assoc in E).
  simpl in E. injection E as E.
  (* the fraction of the percentage *)
  apply (run_unique is_digit) in E as [_ E];
    [|by apply digits_rev|by apply digits_rev|done|done].
  injection E as E.
  (* its integer part *)
  apply (run_unique is_digit) in E as [_ E];
    [|by apply digits_rev|by apply digits_rev
     |apply (stops_run _ is_space); [apply space_not_digit|by apply rev_nonempty
                                    |by apply blanks_rev]
     |apply (stops_run _ is_space); [apply space_not_digit|by apply rev_nonempty
                                    |by apply blanks_rev]].
  (* the blanks before it, and the unit *)
  apply (run_unique is_space) in E as [_ E];
    [|by apply blanks_rev|by apply blanks_rev|done|done].
  injection E as E.
  (* the blanks between the total and its unit *)
  apply (run_unique is_space) in E as [_ E];
    [|by apply blanks_rev|by apply blanks_rev
     |apply (stops_run _ is_digit); [apply digit_not_space|by apply rev_nonempty
                                    |by apply digits_rev]
     |apply (stops_run _ is_digit); [apply digit_not_space|by apply rev_nonempty
                                    |by apply digits_rev]].
  (* the digits before the unit: an integer on one side, a fraction on
     the other *)
  apply (run_unique is_digit) in E as [_ E];
    [|by apply digits_rev|by apply digits_rev
     |apply (stops_run _ is_space); [apply space_not_digit|by apply rev_nonempty
                                    |by apply blanks_rev]
     |done].
  destruct (rev a) as [|x ra] eqn:Era; [by apply rev_nonempty in Era|].
  apply blanks_rev in Ha. rewrite Era in Ha. inversion Ha as [|? ? Hx _]; subst.
  simpl in E. injection E as -> _. discriminate Hx.
Qed.

End FractionalTotal.

Section FractionalRow.
Import PyStr.
Variables columns frac sp1 sp2 pint pfrac : list ascii.
Hypothesis frac_digits : digits frac.
Hypothesis sp1_blank : blanks sp1.
Hypothesis sp2_blank : blanks sp2.
Hypothesis sp2_some : sp2 <> [].
Hypothesis pint_digits : all_in Re.Digit pint.
Hypothesis pfrac_digits : all_in Re.Digit pfrac.

Local Abbreviation fractional_row :=
  (Inventory.fractional_row columns frac sp1 sp2 pint pfrac).

Lemma fractional_row_no_record rest m :
  In m (Re.findall_from chunkserver_regex (fractional_row ++ rest) 0 0) ->
  Re.m_end m <> length fractional_row.
Proof.
  intros Hin Hend.
  destruct (findall_from_sound _ _ _ _ _ Hin) as (pre & u & post & caps & E & Hm & He & _).
  simpl in He. rewrite He in Hend.
  rewrite app_assoc in E. apply app_inj_1 in E as [E _]; [|done].
  apply (fractional_row_core columns frac sp1 sp2 pint pfrac pre u caps); try done.
Qed.

Lemma matched_ends_with_percent u caps :
  matched chunkserver_regex u caps -> exists u', u = u' ++ chars "%".
Proof.
  intros Hm. rewrite chunkserver_regex_split in Hm.
  apply matched_app in Hm as (u1 & u2 & c1 & c2 & -> & -> & _ & Hm).
  apply row_tail_shape in Hm as (a & d & b & c & d1 & d2 & -> & _).
  exists (u1 ++ chars "GiB" ++ a ++ d ++ b ++ chars "GiB" ++ c ++ d1 ++ "."%char :: d2).
  rewrite <- !app_assoc. simpl. by rewrite <- ?app_assoc.
Qed.

Lemma last_occurrence {A} (x : A) (X Y post : list A) :
  ~ In x X -> X ++ [x] = Y ++ x :: post -> post = [].
Proof.
  intros Hx E. destruct post as [|z post _] using rev_ind; [done|].
  exfalso. apply Hx.
  change (Y ++ x :: post ++ [z]) with (Y ++ (x :: post) ++ [z]) in E.
  rewrite app_assoc in E. apply app_inj_tail in E as [-> _].
  apply in_or_app. right. by left.
Qed.

Lemma not_percent c v :
  Re.accepts c "%"%char = false -> all_in c v -> ~ In "%"%char v.
Proof.
  intros Hc Hv Hin. unfold all_in in Hv. rewrite List.Forall_forall in Hv.
  specialize (Hv _ Hin). congruence.
Qed.

(** Alone on its line, such a row yields no record at all. *)
Lemma fractional_row_findall :
  ~ In "%"%char columns ->
  Re.findall_from chunkserver_regex fractional_row 0 0 = [].
Proof.
  intros Hcols.
  destruct (Re.findall_from chunkserver_regex fractional_row 0 0) as [|m ms] eqn:F;
    [done|exfalso].
  assert (Hin : In m (Re.findall_from chunkserver_regex (fractional_row ++ []) 0 0)).
  { rewrite app_nil_r, F. by left. }
  apply (fractional_row_no_record [] m Hin).
  destruct (findall_from_sound _ _ _ _ _ Hin) as (pre & u & post & caps & E & Hm & He & _).
  destruct (matched_ends_with_percent _ _ Hm) as [u' ->].
  rewrite app_nil_r in E. unfold fractional_row in E at 1.
  assert (E' : (columns ++ "."%char :: frac ++ sp1 ++ chars "GiB" ++ sp2 ++ pint
                        ++ "."%char :: pfrac) ++ ["%"%char]
               = (pre ++ u') ++ "%"%char :: post).
  { repeat (first [rewrite <- app_assoc | progress simpl]).
    repeat (first [rewrite <- app_assoc in E | progress simpl in E]). exact E. }
  apply last_occurrence in E' as ->.
  - rewrite He. simpl. unfold fractional_row. rewrite E.
    by rewrite app_nil_r.
  - destruct frac_digits as [Hf _].
    clear - Hcols Hf sp1_blank sp2_blank pint_digits pfrac_digits.
    intros Hin'.
    repeat (first [rewrite in_app_iff in Hin' | progress simpl in Hin']).
    repeat match goal with H : _ \/ _ |- _ => destruct H end;
      first [ contradiction | discriminate
            | by eapply (not_percent Re.Digit); [| |eassumption]
            | by eapply (not_percent Re.Space); [| |eassumption] ].
Qed.

End FractionalRow.

Section Strings.
Import PyStr.

Lemma chars_app (a b : string) : chars (a +:+ b) = chars a ++ chars b.
Proof. induction a as [|x a IH]; simpl; [done|]. by rewrite <- IH. Qed.

Lemma length_chars (a : string) : length (chars a) = String.length a.
Proof. induction a as [|x a IH]; simpl; [done|]. by rewrite <- IH. Qed.

Lemma chars_nonempty (a : string) : a <> "" -> chars a <> [].
Proof. by destruct a. Qed.

End Strings.

(* ================================================================== *)
(** * A total with a fraction *)
(* ================================================================== *)

(** C10.  The row pattern wants the total as an integer number of GiB.
    Take any row that ends in a total written with a fraction, its unit,
    and a percentage: [columns] stands for everything before the point of
    the total.  In any table, no record of [re.findall] ends at the
    percent sign of this row.  When the row is the whole output and
    [columns] holds no percent sign, [re.findall] returns no record, and
    the collector succeeds without any call on a gauge or on the logger:
    none of the four metrics of the row is written. *)
Theorem fractional_total_row_unmatched
    (max_str_digits : nat)
    (subprocess_run : string -> Z -> result CompletedProcess)
    (self : MooseFSExporter) (w : world)
    (columns frac sp1 sp2 pint pfrac : string) :
  digits (PyStr.chars frac) ->
  blanks (PyStr.chars sp1) ->
  blanks (PyStr.chars sp2) -> sp2 <> "" ->
  digits (PyStr.chars pint) -> digits (PyStr.chars pfrac) ->
  let row := columns +:+ "." +:+ frac +:+ sp1 +:+ "GiB" +:+ sp2
                     +:+ pint +:+ "." +:+ pfrac +:+ "%" in
  (forall rest m,
      In m (Re.findall_from chunkserver_regex (PyStr.chars (row +:+ rest)) 0 0) ->
      Re.m_end m <> String.length row)
  /\ (~ In "%"%char (PyStr.chars columns) ->
      Re.findall chunkserver_regex row = []
      /\ (subprocess_run (chunkserver_command self) (timeout self) = prints row ->
          collect_chunkserver_metrics max_str_digits subprocess_run self w
          = (Ok true, w))).
Proof.
  intros Hfrac Hsp1 Hsp2 Hsp2' [Hpint _] [Hpfrac _] row.
  assert (Hrow : PyStr.chars row
                 = fractional_row (PyStr.chars columns) (PyStr.chars frac)
                     (PyStr.chars sp1) (PyStr.chars sp2) (PyStr.chars pint)
                     (PyStr.chars pfrac)).
  { subst row. unfold fractional_row. by rewrite !chars_app. }
  split.
  - intros rest m Hin. rewrite <- length_chars, Hrow.
    rewrite chars_app, Hrow in Hin.
    by apply (fractional_row_no_record _ _ _ _ _ _ Hfrac Hsp1 Hsp2
                (chars_nonempty _ Hsp2') Hpint Hpfrac (PyStr.chars rest)).
  - intros Hcols.
    assert (Hnone : Re.findall chunkserver_regex row = []).
    { unfold Re.findall. rewrite Hrow.
      by rewrite (fractional_row_findall _ _ _ _ _ _ Hfrac Hsp1 Hsp2
                    (chars_nonempty _ Hsp2') Hpint Hpfrac Hcols). }
    split; [done|]. intros Hrun.
    assert (Hne : row <> "").
    { intros E. apply (f_equal PyStr.chars) in E. rewrite Hrow in E.
      unfold fractional_row in E. by destruct (PyStr.chars columns). }
    rewrite (collect_chunkserver_metrics_run _ _ _ row) by done.
    unfold chunkserver_loop. rewrite Hnone. by vm_compute.
Qed.

(** The row of the sample with 200.5 GiB as its total. *)
Lemma fractional_total_row_unmatched_witness :
  let self := {| host := "mfsmaster"; timeout := 10 |} in
  let row := "10.0.0.5 1 000100 - 4.10.0 0 OK OK 1500 120.50 GiB 200.5 GiB 60.25%" in
  Re.findall chunkserver_regex row = []
  /\ collect_chunkserver_metrics 4300 (fun _ _ => prints row) self initial
     = (Ok true, initial).
Proof.
  intros self row.
  assert (Hcols : ~ In "%"%char
            (PyStr.chars "10.0.0.5 1 000100 - 4.10.0 0 OK OK 1500 120.50 GiB 200")).
  { rewrite <- list_elem_of_In. compute_done. }
  destruct (fractional_total_row_unmatched 4300 (fun _ _ => prints row) self initial
              "10.0.0.5 1 000100 - 4.10.0 0 OK OK 1500 120.50 GiB 200"
              "5" " " " " "60" "25") as [_ H].
  - split; [by repeat constructor|done].
  - by repeat constructor.
  - by repeat constructor.
  - done.
  - split; [by repeat constructor|done].
  - split; [by repeat constructor|done].
  - destruct (H Hcols) as [H1 H2]. split; [exact H1|exact (H2 eq_refl)].
Defined.

(* ================================================================== *)
(** * What the groups capture *)
(* ================================================================== *)

Section Captures.
Import PyStr.

Lemma matched_groups r u caps : matched r u caps -> Forall2 lang (groups_of r) caps.
Proof.
  revert u caps. induction r as [|[a|b] r IH]; intros u caps H; simpl in H.
  - destruct H as [_ ->]. constructor.
  - destruct H as (v & u' & _ & _ & H). simpl. eauto.
  - destruct H as (v & u' & gs' & _ & -> & Hl & H). simpl. constructor; eauto.
Qed.

Lemma chars_str l : chars (str l) = l.
Proof. apply list_ascii_of_string_of_list_ascii. Qed.

(** The records of [re.findall] are the captures of matches. *)
Lemma findall_sound r text line :
  In line (Re.findall r text) ->
  exists caps, line = map str caps /\ Forall2 lang (groups_of r) caps.
Proof.
  unfold Re.findall. intros H. apply in_map_iff in H as (m & <- & Hin).
  destruct (findall_from_sound _ _ _ _ _ Hin) as (pre & u & post & caps & _ & Hm & _ & Hg).
  exists caps. split; [done|]. by eapply matched_groups.
Qed.

(** A record of the inventory pattern: two integers among its columns,
    and two decimals. *)
Lemma chunkserver_record output line :
  In line (Re.findall chunkserver_regex output) ->
  exists ip server_id chunks used1 used2 total pct1 pct2,
    line = [ip; server_id; str chunks; str (used1 ++ "."%char :: used2);
            str total; str (pct1 ++ "."%char :: pct2)]
    /\ digits chunks /\ digits used1 /\ digits used2
    /\ digits total /\ digits pct1 /\ digits pct2.
Proof.
  intros H. apply findall_sound in H as (caps & -> & Hcaps).
  change (groups_of chunkserver_regex) with
    [ [Re.At Re.Digit Re.Plus; Re.At (Re.Lit ".") Re.Once; Re.At Re.Digit Re.Plus;
       Re.At (Re.Lit ".") Re.Once; Re.At Re.Digit Re.Plus;
       Re.At (Re.Lit ".") Re.Once; Re.At Re.Digit Re.Plus];
      [Re.At Re.Digit Re.Plus]; [Re.At Re.Digit Re.Plus];
      [Re.At Re.Digit Re.Plus; Re.At (Re.Lit ".") Re.Once; Re.At Re.Digit Re.Plus];
      [Re.At Re.Digit Re.Plus];
      [Re.At Re.Digit Re.Plus; Re.At (Re.Lit ".") Re.Once; Re.At Re.Digit Re.Plus] ]
    in Hcaps.
  inversion Hcaps as [|? ip ? ? _ H1]; subst; clear Hcaps.
  inversion H1 as [|? sid ? ? _ H2]; subst; clear H1.
  inversion H2 as [|? chunks ? ? Hc H3]; subst; clear H2.
  inversion H3 as [|? used ? ? Hu H4]; subst; clear H3.
  inversion H4 as [|? total ? ? Ht H5]; subst; clear H4.
  inversion H5 as [|? pct ? ? Hp H6]; subst; clear H5.
  inversion H6; subst; clear H6.
  apply lang_plus in Hc, Ht.
  apply lang_decimal in Hu as (u1 & u2 & -> & Hu1 & Hu2).
  apply lang_decimal in Hp as (p1 & p2 & -> & Hp1 & Hp2).
  exists (str ip), (str sid), chunks, u1, u2, total, p1, p2. done.
Qed.

(** A record of the throughput pattern. *)
Lemma io_record output line :
  In line (Re.findall io_regex output) ->
  exists ip read1 read2 write1 write2,
    line = [ip; str (read1 ++ "."%char :: read2); str (write1 ++ "."%char :: write2)]
    /\ digits read1 /\ digits read2 /\ digits write1 /\ digits write2.
Proof.
  intros H. apply findall_sound in H as (caps & -> & Hcaps).
  change (groups_of io_regex) with
    [ [Re.At Re.Digit Re.Plus; Re.At (Re.Lit ".") Re.Once; Re.At Re.Digit Re.Plus;
       Re.At (Re.Lit ".") Re.Once; Re.At Re.Digit Re.Plus;
       Re.At (Re.Lit ".") Re.Once; Re.At Re.Digit Re.Plus];
      [Re.At Re.Digit Re.Plus; Re.At (Re.Lit ".") Re.Once; Re.At Re.Digit Re.Plus];
      [Re.At Re.Digit Re.Plus; Re.At (Re.Lit ".") Re.Once; Re.At Re.Digit Re.Plus] ]
    in Hcaps.
  inversion Hcaps as [|? ip ? ? _ H1]; subst; clear Hcaps.
  inversion H1 as [|? rd ? ? Hr H2]; subst; clear H1.
  inversion H2 as [|? wr ? ? Hw H3]; subst; clear H2.
  inversion H3; subst; clear H3.
  apply lang_decimal in Hr as (r1 & r2 & -> & Hr1 & Hr2).
  apply lang_decimal in Hw as (w1 & w2 & -> & Hw1 & Hw2).
  exists (str ip), r1, r2, w1, w2. done.
Qed.

End Captures.

(* ================================================================== *)
(** * Reading what the groups capture *)
(* ================================================================== *)

Section Numerals.
Import PyStr.
Local Open Scope Z_scope.

Lemma digit_facts a :
  is_digit a = true ->
  is_ascii a = true /\ is_c_space a = false /\ lower a = a
  /\ is_e a = false /\ is_point a = false /\ sign [a] = (false, [a]).
Proof. destruct a as [[] [] [] [] [] [] [] []]; by vm_compute. Qed.

Lemma sign_digit a l : is_digit a = true -> sign (a :: l) = (false, a :: l).
Proof. destruct a as [[] [] [] [] [] [] [] []]; by vm_compute. Qed.

Lemma lstrip_id l : stops is_c_space l -> lstrip l = l.
Proof. destruct l as [|a l]; [done|]. simpl. by intros ->. Qed.

Lemma digits_stop_space ds r : digits ds -> stops is_c_space (ds ++ r).
Proof.
  intros [Hall Hne]. apply (stops_run _ is_digit); try done.
  intros a Ha. by apply digit_facts in Ha as (_ & ? & _).
Qed.

Lemma digits_rev_stop_space ds r : digits ds -> stops is_c_space (rev ds ++ r).
Proof.
  intros [Hall Hne]. apply (stops_run _ is_digit).
  - intros a Ha. by apply digit_facts in Ha as (_ & ? & _).
  - by apply rev_nonempty.
  - by apply digits_rev.
Qed.

Lemma digitpart_digits ds : all_in Re.Digit ds -> digitpart ds true = Some ds.
Proof.
  induction 1 as [|a ds Ha _ IH]; [done|].
  simpl in *. by rewrite Ha, IH.
Qed.

Lemma digitpart_some ds : digits ds -> digitpart ds false = Some ds.
Proof.
  intros [Hall Hne]. destruct Hall as [|a ds Ha Hall]; [done|].
  simpl in *. by rewrite Ha, (digitpart_digits ds Hall).
Qed.

Lemma digits_ascii ds : all_in Re.Digit ds -> forallb is_ascii ds = true.
Proof.
  induction 1 as [|a ds Ha _ IH]; [done|]. simpl.
  apply digit_facts in Ha as (-> & _). done.
Qed.

(** An integer column: [int] reads all its digits, unless the
    interpreter finds them too many. *)
Lemma py_int_digits max_str_digits ds :
  digits ds ->
  py_int max_str_digits (str ds)
  = if too_many_digits max_str_digits ds then Raise ValueError
    else Ok (Z_of_digits ds).
Proof.
  intros Hds. unfold py_int. rewrite chars_str.
  unfold to_ascii. rewrite (digits_ascii ds) by apply Hds.
  rewrite lstrip_id by (rewrite <- (app_nil_r ds); by apply digits_stop_space).
  destruct Hds as [Hall Hne]. destruct ds as [|a ds]; [done|].
  rewrite sign_digit by (by inversion Hall).
  rewrite lstrip_id
    by (rewrite <- (app_nil_r (rev _)); by apply digits_rev_stop_space).
  rewrite rev_involutive, digitpart_some by done. done.
Qed.

Lemma cut_none p l : Forall (fun a => p a = false) l -> cut p l = (l, None).
Proof.
  induction 1 as [|a l Ha _ IH]; [done|]. simpl. by rewrite Ha, IH.
Qed.

Lemma cut_at p l x r :
  Forall (fun a => p a = false) l -> p x = true -> cut p (l ++ x :: r) = (l, Some r).
Proof.
  intros Hl Hx. induction Hl as [|a l Ha _ IH]; simpl.
  - by rewrite Hx.
  - by rewrite Ha, IH.
Qed.

Lemma digits_no p ds :
  (forall a, is_digit a = true -> p a = false) ->
  all_in Re.Digit ds -> Forall (fun a => p a = false) ds.
Proof. intros Hp H. eapply Forall_impl; [exact H|]. simpl. auto. Qed.

(** A decimal column: [float] always reads it. *)
Lemma py_float_decimal d1 d2 :
  digits d1 -> digits d2 ->
  py_float (str (d1 ++ "."%char :: d2))
  = Ok (decimal false (Z_of_digits (d1 ++ d2)) (0 - Z.of_nat (length d2))).
Proof.
  intros H1 H2. unfold py_float. rewrite chars_str.
  assert (Hascii : forallb is_ascii (d1 ++ "."%char :: d2) = true).
  { rewrite forallb_app. simpl.
    by rewrite !digits_ascii by (apply H1 || apply H2). }
  unfold to_ascii. rewrite Hascii.
  assert (Hstrip : strip (d1 ++ "."%char :: d2) = d1 ++ "."%char :: d2).
  { unfold strip.
    rewrite (lstrip_id (d1 ++ "."%char :: d2)) by (by apply digits_stop_space).
    rewrite rev_app_distr. simpl. rewrite <- app_assoc.
    rewrite lstrip_id by (by apply digits_rev_stop_space).
    rewrite app_assoc. change (rev d2 ++ ["."%char]) with (rev ("."%char :: d2)).
    by rewrite <- rev_app_distr, rev_involutive. }
  rewrite Hstrip.
  destruct H1 as [Hall1 Hne1]. destruct d1 as [|a d1]; [done|].
  assert (Ha : is_digit a = true) by (by inversion Hall1).
  simpl app. rewrite sign_digit by done.
  destruct (digit_facts a Ha) as (_ & _ & Hlow & _).
  simpl map. rewrite Hlow.
  destruct (string_dec _ "inf") as [E|_];
    [injection E as -> _; discriminate Ha|].
  destruct (string_dec _ "infinity") as [E|_];
    [injection E as -> _; discriminate Ha|].
  destruct (string_dec _ "nan") as [E|_];
    [injection E as -> _; discriminate Ha|].
  change (a :: d1 ++ "."%char :: d2) with ((a :: d1) ++ "."%char :: d2).
  assert (Hno_e : Forall (fun a => is_e a = false) ((a :: d1) ++ "."%char :: d2)).
  { apply Forall_app. split.
    - apply digits_no; [|done]. intros x Hx. by apply digit_facts in Hx as (_&_&_&?&_).
    - constructor; [done|]. apply digits_no; [|apply H2].
      intros x Hx. by apply digit_facts in Hx as (_&_&_&?&_). }
  rewrite (cut_none _ _ Hno_e).
  unfold number. rewrite cut_at; [|apply digits_no; [|done]|done].
  2: { intros x Hx. by apply digit_facts in Hx as (_&_&_&_&?&_). }
  destruct H2 as [Hall2 Hne2]. destruct d2 as [|b d2]; [done|].
  rewrite !digitpart_some by done. done.
Qed.

End Numerals.

(* ================================================================== *)
(** * The rows of a table *)
(* ================================================================== *)

Section Rows.
Import PyStr.
Variable max_str_digits : nat.

Lemma py_mul_float f :
  py_mul (PyFloat f) k1024 = Ok (PyFloat (SFmul prec emax f (dyadic 1024 0))).
Proof. reflexivity. Qed.

Lemma gib_to_bytes_decimal d1 d2 :
  digits d1 -> digits d2 ->
  exists f, gib_to_bytes (str (d1 ++ "."%char :: d2)) = Ok (PyFloat f).
Proof.
  intros H1 H2. unfold gib_to_bytes, float_.
  rewrite py_float_decimal by done. unfold rbind. rewrite !py_mul_float. eauto.
Qed.

Lemma mib_to_bytes_float_decimal d1 d2 :
  digits d1 -> digits d2 ->
  exists f, mib_to_bytes_float (str (d1 ++ "."%char :: d2)) = Ok (PyFloat f).
Proof.
  intros H1 H2. unfold mib_to_bytes_float, float_.
  rewrite py_float_decimal by done. unfold rbind. rewrite !py_mul_float. eauto.
Qed.

Lemma float_decimal d1 d2 :
  digits d1 -> digits d2 ->
  exists f, float_ (str (d1 ++ "."%char :: d2)) = Ok (PyFloat f).
Proof.
  intros H1 H2. unfold float_. rewrite py_float_decimal by done. simpl. eauto.
Qed.

(** A row of the throughput table is always written. *)
Lemma io_line_outcome ip read1 read2 write1 write2 :
  digits read1 -> digits read2 -> digits write1 -> digits write2 ->
  outcome (io_line [ip; str (read1 ++ "."%char :: read2);
                    str (write1 ++ "."%char :: write2)]) = Ok tt.
Proof.
  intros Hr1 Hr2 Hw1 Hw2.
  destruct (gib_to_bytes_decimal _ _ Hr1 Hr2) as [fr Er].
  destruct (mib_to_bytes_float_decimal _ _ Hw1 Hw2) as [fw Ew].
  unfold outcome, io_line. rewrite Er, Ew. reflexivity.
Qed.

(** A row of the inventory table is written in full exactly when its two
    integer columns can be stored; otherwise it raises. *)
Lemma chunkserver_line_outcome ip server_id chunks used1 used2 total pct1 pct2 :
  digits used1 -> digits used2 -> digits pct1 -> digits pct2 ->
  let line := [ip; server_id; chunks; str (used1 ++ "."%char :: used2);
               total; str (pct1 ++ "."%char :: pct2)] in
  outcome (chunkserver_line max_str_digits line) = Ok tt
  <-> storable max_str_digits chunks 1 /\ storable max_str_digits total (1024 ^ 3).
Proof.
  intros Hu1 Hu2 Hp1 Hp2 line. subst line.
  destruct (gib_to_bytes_decimal _ _ Hu1 Hu2) as [fu Eu].
  destruct (float_decimal _ _ Hp1 Hp2) as [fp Ep].
  unfold storable, outcome, chunkserver_line, int_. rewrite Eu, Ep.
  destruct (py_int max_str_digits chunks) as [c|ec] eqn:Ec.
  2: { split; [done|]. by intros [(z & f & [=] & _) _]. }
  destruct (py_int max_str_digits total) as [t|et] eqn:Et.
  2: { split; [done|]. by intros [_ (z & f & [=] & _)]. }
  assert (Hmul : rbind (rbind (Ok t) (fun z => Ok (PyInt z)))
                   (fun v => rbind (py_mul v k1024)
                      (fun v => rbind (py_mul v k1024) (fun v => py_mul v k1024)))
                 = Ok (PyInt (t * 1024 ^ 3))).
  { simpl. do 2 f_equal. lia. }
  rewrite Hmul. clear Hmul.
  unfold bind, lift, labels, set, emit, ret, to_float. simpl.
  destruct (float_of_int c) as [f1|e1] eqn:E1; simpl.
  2: { split; [done|]. intros [(z & f & [= <-] & Hf) _].
       rewrite Z.mul_1_r in Hf. congruence. }
  destruct (float_of_int (t * 1024 ^ 3)) as [f2|e2] eqn:E2; simpl.
  2: { split; [done|]. intros [_ (z & f & [= <-] & Hf)]. congruence. }
  split; [|done]. intros _. split.
  - exists c, f1. by rewrite Z.mul_1_r.
  - by exists t, f2.
Qed.

Lemma chunkserver_record_outcome output line :
  In line (Re.findall chunkserver_regex output) ->
  outcome (chunkserver_line max_str_digits line) = Ok tt
  <-> row_storable max_str_digits line.
Proof.
  intros Hin.
  destruct (chunkserver_record _ _ Hin)
    as (ip & sid & chunks & u1 & u2 & total & p1 & p2 & -> & Hc & Hu1 & Hu2 & Ht & Hp1 & Hp2).
  rewrite (chunkserver_line_outcome ip sid (str chunks) u1 u2 (str total) p1 p2) by done.
  unfold row_storable. split.
  - intros [H1 H2]. do 6 eexists. split; [reflexivity|done].
  - intros (? & ? & ? & ? & ? & ? & [= <- <- <- <- <- <-] & H1 & H2). done.
Qed.

Lemma io_record_outcome output line :
  In line (Re.findall io_regex output) -> outcome (io_line line) = Ok tt.
Proof.
  intros Hin.
  destruct (io_record _ _ Hin) as (ip & r1 & r2 & w1 & w2 & -> & ? & ? & ? & ?).
  by apply io_line_outcome.
Qed.

(** A loop succeeds exactly when each of its rounds does. *)
Lemma for_each_outcome {A} (l : list A) (body : A -> M unit) :
  (forall x, stable (body x)) ->
  (outcome (for_each l body) = Ok tt
   <-> Forall (fun x => outcome (body x) = Ok tt) l).
Proof.
  intros Hb. induction l as [|x l IH]; [by split; [constructor|]|].
  simpl for_each.
  destruct (outcome (body x)) as [[]|e] eqn:E.
  - destruct (summary_bind_ok (body x) (fun _ => for_each l body) tt) as [-> _];
      [done|by apply stable_for_each|done|].
    rewrite IH. split.
    + intros H. by constructor.
    + intros H. by inversion H.
  - destruct (summary_bind_raise (body x) (fun _ => for_each l body) e) as [-> _];
      [done|done|].
    split; [done|]. intros H. inversion H. congruence.
Qed.

End Rows.

(* ================================================================== *)
(** * Success and failure of a collector *)
(* ================================================================== *)

Section NoOutput.
Variable max_str_digits : nat.
Variable subprocess_run : string -> Z -> result CompletedProcess.
Variable self : MooseFSExporter.

Lemma collect_system_metrics_empty w :
  subprocess_run (system_command self) (timeout self) = prints "" ->
  collect_system_metrics max_str_digits subprocess_run self w = (Ok false, w).
Proof.
  intros H. unfold collect_system_metrics, try_except, bind.
  fold (system_command self). by rewrite execute_command_run, H.
Qed.

Lemma collect_chunkserver_metrics_empty w :
  subprocess_run (chunkserver_command self) (timeout self) = prints "" ->
  collect_chunkserver_metrics max_str_digits subprocess_run self w = (Ok false, w).
Proof.
  intros H. unfold collect_chunkserver_metrics, try_except, bind.
  fold (chunkserver_command self). by rewrite execute_command_run, H.
Qed.

Lemma collect_io_metrics_empty w :
  subprocess_run (io_command self) (timeout self) = prints "" ->
  collect_io_metrics subprocess_run self w = (Ok false, w).
Proof.
  intros H. unfold collect_io_metrics, try_except, bind.
  fold (io_command self). by rewrite execute_command_run, H.
Qed.

Lemma collect_system_metrics_failed e w :
  subprocess_run (system_command self) (timeout self) = Raise e ->
  collect_system_metrics max_str_digits subprocess_run self w
  = (Ok false, step (command_failure (system_command self) e) w).
Proof.
  intros H. unfold collect_system_metrics, try_except, bind.
  fold (system_command self). by rewrite execute_command_run, H.
Qed.

Lemma collect_chunkserver_metrics_failed e w :
  subprocess_run (chunkserver_command self) (timeout self) = Raise e ->
  collect_chunkserver_metrics max_str_digits subprocess_run self w
  = (Ok false, step (command_failure (chunkserver_command self) e) w).
Proof.
  intros H. unfold collect_chunkserver_metrics, try_except, bind.
  fold (chunkserver_command self). by rewrite execute_command_run, H.
Qed.

Lemma collect_io_metrics_failed e w :
  subprocess_run (io_command self) (timeout self) = Raise e ->
  collect_io_metrics subprocess_run self w
  = (Ok false, step (command_failure (io_command self) e) w).
Proof.
  intros H. unfold collect_io_metrics, try_except, bind.
  fold (io_command self). by rewrite execute_command_run, H.
Qed.

Lemma collect_system_metrics_nonzero rc out w :
  rc <> 0%Z ->
  subprocess_run (system_command self) (timeout self)
  = Ok {| returncode := rc; stdout := out |} ->
  collect_system_metrics max_str_digits subprocess_run self w = (Ok false, w).
Proof.
  intros Hrc H. unfold collect_system_metrics, try_except, bind.
  fold (system_command self). rewrite execute_command_run, H.
  cbn [returncode]. by destruct (Z.eqb_spec rc 0).
Qed.

Lemma collect_chunkserver_metrics_nonzero rc out w :
  rc <> 0%Z ->
  subprocess_run (chunkserver_command self) (timeout self)
  = Ok {| returncode := rc; stdout := out |} ->
  collect_chunkserver_metrics max_str_digits subprocess_run self w = (Ok false, w).
Proof.
  intros Hrc H. unfold collect_chunkserver_metrics, try_except, bind.
  fold (chunkserver_command self). rewrite execute_command_run, H.
  cbn [returncode]. by destruct (Z.eqb_spec rc 0).
Qed.

Lemma collect_io_metrics_nonzero rc out w :
  rc <> 0%Z ->
  subprocess_run (io_command self) (timeout self)
  = Ok {| returncode := rc; stdout := out |} ->
  collect_io_metrics subprocess_run self w = (Ok false, w).
Proof.
  intros Hrc H. unfold collect_io_metrics, try_except, bind.
  fold (io_command self). rewrite execute_command_run, H.
  cbn [returncode]. by destruct (Z.eqb_spec rc 0).
Qed.

Lemma chunkserver_loop_outcome output :
  outcome (chunkserver_loop max_str_digits output) = Ok tt
  <-> Forall (row_storable max_str_digits) (Re.findall chunkserver_regex output).
Proof.
  unfold chunkserver_loop.
  rewrite for_each_outcome by apply stable_chunkserver_line.
  rewrite !List.Forall_forall. split; intros H line Hin.
  - apply (chunkserver_record_outcome _ output); auto.
  - apply (chunkserver_record_outcome _ output); auto.
Qed.

Lemma io_loop_outcome output : outcome (io_loop output) = Ok tt.
Proof.
  unfold io_loop. rewrite for_each_outcome by apply stable_io_line.
  apply List.Forall_forall. intros line Hin. by apply (io_record_outcome output).
Qed.

End NoOutput.

(** C9, as stated, fails: the inventory command prints a row, the row
    matches, and the collector still reports a failure, because the chunk
    count does not fit a float and [Gauge.set] raises OverflowError. *)
Lemma inventory_overflow_reports_failure :
  let self := {| host := "mfsmaster"; timeout := 10 |} in
  let output := "10.0.0.5 1 000100 - 4.10.0 0 OK OK " +:+ four_hundred_nines
                +:+ " 120.50 GiB 200 GiB 60.25%" in
  let run := collect_chunkserver_metrics 4300 (fun _ _ => prints output) self initial in
  output <> ""
  /\ length (Re.findall chunkserver_regex output) = 1
  /\ fst run = Ok false
  /\ In (EvLog ERROR (ChunkserverCollectionError OverflowError)) (trace (snd run)).
Proof.
  intros self output run. split; [done|]. split; [by vm_compute|].
  split; [by vm_compute|]. vm_compute. tauto.
Qed.

(** C9, amended.  With a non-empty output, the system collector and the
    throughput collector always succeed, and the inventory collector
    succeeds exactly when, in every row that matches, the chunk count and
    the total size can be stored as floats (otherwise it returns False);
    all three succeed without touching the world when no rule or row
    matches.  With an empty output a collector returns False and leaves
    the world as it was.  So it does after each failure of the command:
    when the command exits with another status than 0, whatever it
    printed, the collector returns False and leaves the world as it was;
    when the command raises (a timeout, a spawn error), the collector
    returns False, the registry is as it was, and the only new entry of
    the log is the record of the failed command. *)
Theorem success_follows_output
    (max_str_digits : nat)
    (subprocess_run : string -> Z -> result CompletedProcess)
    (self : MooseFSExporter) (w : world) :
  let system := collect_system_metrics max_str_digits subprocess_run self w in
  let inventory := collect_chunkserver_metrics max_str_digits subprocess_run self w in
  let throughput := collect_io_metrics subprocess_run self w in
  let ran_system := subprocess_run (system_command self) (timeout self) in
  let ran_inventory := subprocess_run (chunkserver_command self) (timeout self) in
  let ran_throughput := subprocess_run (io_command self) (timeout self) in
  (forall output, output <> "" -> ran_system = prints output ->
     fst system = Ok true
     /\ ((forall r, In r (metrics_map max_str_digits) ->
                    Re.search (rule_regex r) output = None) ->
         system = (Ok true, w)))
  /\ (forall output, output <> "" -> ran_throughput = prints output ->
        fst throughput = Ok true
        /\ (Re.findall io_regex output = [] -> throughput = (Ok true, w)))
  /\ (forall output, output <> "" -> ran_inventory = prints output ->
        (fst inventory = Ok true
         <-> Forall (row_storable max_str_digits)
                    (Re.findall chunkserver_regex output))
        /\ (fst inventory = Ok true \/ fst inventory = Ok false)
        /\ (Re.findall chunkserver_regex output = [] -> inventory = (Ok true, w)))
  /\ (ran_system = prints "" -> system = (Ok false, w))
  /\ (ran_inventory = prints "" -> inventory = (Ok false, w))
  /\ (ran_throughput = prints "" -> throughput = (Ok false, w))
  /\ (forall rc out, rc <> 0%Z ->
        ran_system = Ok {| returncode := rc; stdout := out |} ->
        system = (Ok false, w))
  /\ (forall rc out, rc <> 0%Z ->
        ran_inventory = Ok {| returncode := rc; stdout := out |} ->
        inventory = (Ok false, w))
  /\ (forall rc out, rc <> 0%Z ->
        ran_throughput = Ok {| returncode := rc; stdout := out |} ->
        throughput = (Ok false, w))
  /\ (forall e, ran_system = Raise e ->
        system = (Ok false, step (command_failure (system_command self) e) w))
  /\ (forall e, ran_inventory = Raise e ->
        inventory = (Ok false, step (command_failure (chunkserver_command self) e) w))
  /\ (forall e, ran_throughput = Raise e ->
        throughput = (Ok false, step (command_failure (io_command self) e) w)).
Proof.
  intros system inventory throughput ran_system ran_inventory ran_throughput.
  subst system inventory throughput ran_system ran_inventory ran_throughput.
  repeat apply conj.
  - intros output Hne Hrun.
    rewrite (collect_system_metrics_run _ _ _ output) by done.
    split; [done|]. intros Hnone. f_equal.
    assert (Hcalls : system_calls max_str_digits output = []).
    { unfold system_calls.
      induction (metrics_map max_str_digits) as [|r rules IH]; [done|].
      simpl. unfold rule_calls at 1, rule_value.
      rewrite Hnone by (by left). simpl. apply IH.
      intros r' Hr'. apply Hnone. by right. }
    by rewrite Hcalls.
  - intros output Hne Hrun.
    rewrite (collect_io_metrics_run _ _ output) by done.
    rewrite io_loop_outcome. split; [done|].
    intros Hnone. unfold io_loop. by rewrite Hnone.
  - intros output Hne Hrun.
    rewrite (collect_chunkserver_metrics_run _ _ _ output) by done.
    rewrite <- chunkserver_loop_outcome.
    split; [|split].
    + destruct (outcome _) as [[]|e]; simpl; by split.
    + destruct (outcome _) as [[]|e]; simpl; auto.
    + intros Hnone. unfold chunkserver_loop. by rewrite Hnone.
  - apply collect_system_metrics_empty.
  - apply collect_chunkserver_metrics_empty.
  - apply collect_io_metrics_empty.
  - intros rc out. apply collect_system_metrics_nonzero.
  - intros rc out. apply collect_chunkserver_metrics_nonzero.
  - intros rc out. apply collect_io_metrics_nonzero.
  - intros e. apply collect_system_metrics_failed.
  - intros e. apply collect_chunkserver_metrics_failed.
  - intros e. apply collect_io_metrics_failed.
Qed.

(** A text in which no rule and no row matches, an empty text, a
    command that prints the sample and exits with status 2, and a command
    that times out. *)
Lemma success_follows_output_witness :
  let self := {| host := "mfsmaster"; timeout := 10 |} in
  let say := fun output => fun (_ : string) (_ : Z) => prints output in
  let exit2 := fun (_ : string) (_ : Z) =>
                 Ok {| returncode := 2; stdout := inventory_sample |} in
  let late := fun (_ : string) (_ : Z) => @Raise CompletedProcess TimeoutExpired in
  collect_system_metrics 4300 (say "mfsmaster: unknown option") self initial
  = (Ok true, initial)
  /\ collect_chunkserver_metrics 4300 (say "mfsmaster: unknown option") self initial
     = (Ok true, initial)
  /\ collect_chunkserver_metrics 4300 (say "") self initial = (Ok false, initial)
  /\ collect_chunkserver_metrics 4300 exit2 self initial = (Ok false, initial)
  /\ collect_chunkserver_metrics 4300 late self initial
     = (Ok false,
        step (EvLog ERROR (CommandTimedOut (chunkserver_command self))) initial).
Proof.
  intros self say exit2 late.
  destruct (success_follows_output 4300 (say "mfsmaster: unknown option") self initial)
    as (H1 & _ & H3 & _).
  destruct (success_follows_output 4300 (say "") self initial)
    as (_ & _ & _ & _ & H5 & _).
  destruct (success_follows_output 4300 exit2 self initial)
    as (_ & _ & _ & _ & _ & _ & _ & H8 & _).
  destruct (success_follows_output 4300 late self initial)
    as (_ & _ & _ & _ & _ & _ & _ & _ & _ & _ & H11 & _).
  split; [|split; [|split; [|split]]];
    [| | |by apply (H8 2%Z inventory_sample)|by apply (H11 TimeoutExpired)].
  - apply (H1 "mfsmaster: unknown option"); [done|done|].
    intros r Hr.
    assert (Hall : Forall (fun r => Re.search (rule_regex r) "mfsmaster: unknown option"
                                    = None) (metrics_map 4300)).
    { unfold metrics_map. repeat constructor. }
    rewrite List.Forall_forall in Hall. by apply Hall.
  - apply (H3 "mfsmaster: unknown option"); [done|done|by vm_compute].
  - by apply H5.
Defined.

(* ================================================================== *)
(** * A table with a malformed row *)
(* ================================================================== *)




(* ================================================================== *)
(** * More about replaying calls *)
(* ================================================================== *)

Section ReplayMore.

(** Calls that do not mention a series leave it as it is. *)
Lemma replay_at_frame (k : series) evs o :
  Forall (fun ev => mentions k ev = false) evs -> replay_at k evs o = o.
Proof.
  intros H. revert o. induction H as [|ev evs Hev _ IH]; intros o; [done|].
  simpl. rewrite <- (IH o) at 2. f_equal.
  destruct ev as [g lv|g lv v|l msg]; simpl in *; try done;
    apply bool_decide_eq_false in Hev; by rewrite decide_False.
Qed.


(** Log records leave the registry alone. *)
Lemma metrics_replay_logs evs w :
  Forall (fun ev => is_log ev = true) evs -> metrics (replay evs w) = metrics w.
Proof.
  intros H. revert w. induction H as [|ev evs Hev _ IH]; intros w; [done|].
  simpl. fold (replay evs (step ev w)). rewrite IH.
  by destruct ev.
Qed.

(** What a replay does to the registry depends on the registry only. *)
Lemma metrics_replay_ext evs w1 w2 :
  metrics w1 = metrics w2 -> metrics (replay evs w1) = metrics (replay evs w2).
Proof.
  intros H. apply map_eq. intros k. by rewrite !lookup_replay, H.
Qed.

Lemma mentions_log (k : series) evs :
  Forall (fun ev => is_log ev = true) evs ->
  Forall (fun ev => mentions k ev = false) evs.
Proof. intros H. eapply Forall_impl; [exact H|]. by intros []. Qed.

End ReplayMore.

(* ================================================================== *)
(** * More about the methods *)
(* ================================================================== *)

Section MethodsMore.
Local Open Scope py_scope.
Variable max_str_digits : nat.
Variable self : MooseFSExporter.

Lemma stable_run_collectors (collectors : list (string * M bool)) :
  (forall c, In c collectors -> stable (snd c)) -> stable (run_collectors collectors).
Proof.
  intros H. unfold run_collectors.
  induction collectors as [|c cs IH]; simpl; [apply stable_ret|].
  apply stable_bind.
  - apply stable_try_except; [|intros; apply stable_log].
    apply stable_bind; [apply H; by left|intros; apply stable_ret].
  - intros _. apply IH. intros c' Hc'. apply H. by right.
Qed.

Lemma stable_collect_all_metrics subprocess_run :
  stable (collect_all_metrics max_str_digits subprocess_run self).
Proof.
  apply stable_run_collectors. unfold metrics_collectors.
  intros c [<-|[<-|[<-|[]]]]; simpl.
  - apply stable_collect_system_metrics.
  - apply stable_collect_chunkserver_metrics.
  - apply stable_collect_io_metrics.
Qed.



(** A command either prints something, or is silent. *)
Lemma prints_or_silent (ran : result CompletedProcess) :
  (exists output, output <> "" /\ ran = prints output) \/ silent ran.
Proof.
  destruct ran as [[rc out]|e].
  - destruct (Z.eq_dec rc 0%Z) as [->|Hrc].
    + destruct (string_dec out "") as [->|Hout].
      * right. by intros output [= <-].
      * left. by exists out.
    + right. intros output [= ? ?]. done.
  - right. by intros output.
Qed.

(** What [_execute_command] returns for a silent command. *)
Lemma execute_command_silent subprocess_run command :
  silent (subprocess_run command (timeout self)) ->
  exists o evs,
    falsy o = true
    /\ Forall (fun ev => is_log ev = true) evs
    /\ forall w, _execute_command subprocess_run self command w = (Ok o, replay evs w).
Proof.
  intros Hs. destruct (subprocess_run command (timeout self)) as [[rc out]|e] eqn:E.
  - exists (if Z.eqb rc 0%Z then Some out else None), [].
    split; [|split; [constructor|]].
    + destruct (Z.eqb_spec rc 0%Z) as [->|]; [|done]. simpl.
      rewrite (Hs out) by done. done.
    + intros w. by rewrite execute_command_run, E.
  - exists None, [command_failure command e]. split; [done|]. split.
    + by repeat constructor.
    + intros w. by rewrite execute_command_run, E.
Qed.

Lemma collect_system_metrics_silent subprocess_run :
  silent (subprocess_run (system_command self) (timeout self)) ->
  exists evs,
    Forall (fun ev => is_log ev = true) evs
    /\ forall w, collect_system_metrics max_str_digits subprocess_run self w
                 = (Ok false, replay evs w).
Proof.
  intros Hs. destruct (execute_command_silent _ _ Hs) as (o & evs & Ho & Hevs & Hrun).
  exists evs. split; [done|]. intros w.
  unfold collect_system_metrics, try_except, bind.
  fold (system_command self). by rewrite Hrun, Ho.
Qed.

Lemma collect_chunkserver_metrics_silent subprocess_run :
  silent (subprocess_run (chunkserver_command self) (timeout self)) ->
  exists evs,
    Forall (fun ev => is_log ev = true) evs
    /\ forall w, collect_chunkserver_metrics max_str_digits subprocess_run self w
                 = (Ok false, replay evs w).
Proof.
  intros Hs. destruct (execute_command_silent _ _ Hs) as (o & evs & Ho & Hevs & Hrun).
  exists evs. split; [done|]. intros w.
  unfold collect_chunkserver_metrics, try_except, bind.
  fold (chunkserver_command self). by rewrite Hrun, Ho.
Qed.

Lemma collect_io_metrics_silent subprocess_run :
  silent (subprocess_run (io_command self) (timeout self)) ->
  exists evs,
    Forall (fun ev => is_log ev = true) evs
    /\ forall w, collect_io_metrics subprocess_run self w = (Ok false, replay evs w).
Proof.
  intros Hs. destruct (execute_command_silent _ _ Hs) as (o & evs & Ho & Hevs & Hrun).
  exists evs. split; [done|]. intros w.
  unfold collect_io_metrics, try_except, bind.
  fold (io_command self). by rewrite Hrun, Ho.
Qed.

(** One cycle is the three collectors in a row. *)
Lemma collect_all_metrics_run subprocess_run w :
  collect_all_metrics max_str_digits subprocess_run self w
  = (Ok tt,
     snd (collect_io_metrics subprocess_run self
       (snd (collect_chunkserver_metrics max_str_digits subprocess_run self
         (snd (collect_system_metrics max_str_digits subprocess_run self w)))))).
Proof.
  unfold collect_all_metrics. rewrite run_collectors_fold.
  f_equal. unfold metrics_collectors. cbn [fold_left].
  assert (Hafter : forall name (m : M bool) w0,
             (exists b, fst (m w0) = Ok b) -> after (name, m) w0 = snd (m w0)).
  { intros name m w0 [b Hb]. unfold after. cbn [snd fst].
    destruct (m w0) as [[b'|e] w']; simpl in *; [done|discriminate]. }
  rewrite !Hafter by apply guarded_returns. done.
Qed.

End MethodsMore.

(* ================================================================== *)
(** * The rows, one by one *)
(* ================================================================== *)

Section RowRuns.
Local Open Scope py_scope.
Variable max_str_digits : nat.

(** [labels] then [set] on a gauge of the inventory table. *)
Lemma inventory_write g ip server_id v w :
  In g inventory_gauges ->
  (let! child := labels g [("ip", ip); ("server_id", server_id)] in set child v) w
  = match to_float v with
    | Ok f => (Ok tt, replay [EvLabels g [ip; server_id]; EvSet g [ip; server_id] f] w)
    | Raise e => (Raise e, replay [EvLabels g [ip; server_id]] w)
    end.
Proof.
  intros [<-|[<-|[<-|[<-|[]]]]];
    unfold bind, labels, set, lift, emit, ret; simpl; by destruct (to_float v).
Qed.

Lemma throughput_write g ip v w :
  In g throughput_gauges ->
  (let! child := labels g [("ip", ip)] in set child v) w
  = match to_float v with
    | Ok f => (Ok tt, replay [EvLabels g [ip]; EvSet g [ip] f] w)
    | Raise e => (Raise e, replay [EvLabels g [ip]] w)
    end.
Proof.
  intros [<-|[<-|[]]];
    unfold bind, labels, set, lift, emit, ret; simpl; by destruct (to_float v).
Qed.

(** A row of the inventory table raises before any call, or makes the
    calls of [write_all] on the four gauges. *)
Lemma chunkserver_line_cases line :
  (exists e, forall w, chunkserver_line max_str_digits line w = (Raise e, w))
  \/ (exists ip server_id rest chunks used total percent,
        line = ip :: server_id :: rest
        /\ forall w,
             chunkserver_line max_str_digits line w
             = (fst (write_all [ip; server_id]
                       [ (mfs_chunkserver_chunks, chunks);
                         (mfs_chunkserver_disk_used, used);
                         (mfs_chunkserver_disk_total, total);
                         (mfs_chunkserver_disk_usage_percent, percent) ]),
                replay (snd (write_all [ip; server_id]
                       [ (mfs_chunkserver_chunks, chunks);
                         (mfs_chunkserver_disk_used, used);
                         (mfs_chunkserver_disk_total, total);
                         (mfs_chunkserver_disk_usage_percent, percent) ])) w)).
Proof.
  destruct line as [|ip [|sid [|ch [|us [|tot [|pct [|x rest]]]]]]];
    try (left; by exists ValueError).
  unfold chunkserver_line.
  destruct (int_ max_str_digits ch) as [vc|e]; [|left; by exists e].
  destruct (gib_to_bytes us) as [vu|e]; [|left; by exists e].
  destruct (rbind (int_ max_str_digits tot) _) as [vt|e]; [|left; by exists e].
  destruct (float_ pct) as [vp|e]; [|left; by exists e].
  right. exists ip, sid, [ch; us; tot; pct], vc, vu, vt, vp. split; [done|].
  intros w. unfold bind at 1 2 3 4. unfold lift. cbn beta iota.
  unfold bind at 1. rewrite inventory_write by (unfold inventory_gauges; simpl; auto).
  cbn [write_all].
  destruct (to_float vc) as [fc|e]; [|done]. cbn [fst snd].
  unfold bind at 1. rewrite inventory_write by (unfold inventory_gauges; simpl; auto).
  destruct (to_float vu) as [fu|e]; [|done]. cbn [fst snd].
  unfold bind at 1. rewrite inventory_write by (unfold inventory_gauges; simpl; auto).
  destruct (to_float vt) as [ft|e]; [|done]. cbn [fst snd].
  rewrite inventory_write by (unfold inventory_gauges; simpl; auto).
  by destruct (to_float vp) as [fp|e].
Qed.

Lemma io_line_cases line :
  (exists e, forall w, io_line line w = (Raise e, w))
  \/ (exists ip rest read write,
        line = ip :: rest
        /\ forall w,
             io_line line w
             = (fst (write_all [ip] [ (mfs_chunkserver_read_speed, read);
                                      (mfs_chunkserver_write_speed, write) ]),
                replay (snd (write_all [ip] [ (mfs_chunkserver_read_speed, read);
                                              (mfs_chunkserver_write_speed, write) ]))
                       w)).
Proof.
  destruct line as [|ip [|rd [|wr [|x rest]]]]; try (left; by exists ValueError).
  unfold io_line.
  destruct (gib_to_bytes rd) as [vr|e]; [|left; by exists e].
  destruct (mib_to_bytes_float wr) as [vw|e]; [|left; by exists e].
  right. exists ip, [rd; wr], vr, vw. split; [done|].
  intros w. unfold bind at 1 2. unfold lift. cbn beta iota.
  unfold bind at 1. rewrite throughput_write by (unfold throughput_gauges; simpl; auto).
  cbn [write_all].
  destruct (to_float vr) as [fr|e]; [|done]. cbn [fst snd].
  rewrite throughput_write by (unfold throughput_gauges; simpl; auto).
  by destruct (to_float vw) as [fw|e].
Qed.

(** [write_all] calls the gauges it is given, with the label values it is
    given, and nothing else. *)
Lemma write_all_scope lv ws ev (k : series) :
  In ev (snd (write_all lv ws)) -> mentions k ev = true ->
  exists g, In g (map fst ws) /\ k = (g, lv).
Proof.
  intros H Hm. induction ws as [|[g v] ws IH]; [done|].
  simpl in H. destruct (to_float v) as [f|e]; simpl in H.
  - destruct H as [<-|[<-|H]].
    + simpl in Hm. apply bool_decide_eq_true in Hm as <-. exists g. split; [by left|done].
    + simpl in Hm. apply bool_decide_eq_true in Hm as <-. exists g. split; [by left|done].
    + destruct (IH H) as (g' & Hg' & ->). exists g'. split; [by right|done].
  - destruct H as [<-|[]].
    simpl in Hm. apply bool_decide_eq_true in Hm as <-. exists g. split; [by left|done].
Qed.

Lemma chunkserver_line_scope line ev (k : series) :
  In ev (calls (chunkserver_line max_str_digits line)) -> mentions k ev = true ->
  exists g, In g inventory_gauges /\ k = (g, take 2 line).
Proof.
  intros H Hm.
  destruct (chunkserver_line_cases line)
    as [[e He]|(ip & sid & rest & vc & vu & vt & vp & -> & Hrun)].
  - destruct (summary_intro _ (Raise e) [] He) as [_ Hc]. by rewrite Hc in H.
  - destruct (summary_intro _ _ _ Hrun) as [_ Hc]. rewrite Hc in H.
    by apply (write_all_scope _ _ _ _ H Hm).
Qed.

Lemma io_line_scope line ev (k : series) :
  In ev (calls (io_line line)) -> mentions k ev = true ->
  exists g, In g throughput_gauges /\ k = (g, take 1 line).
Proof.
  intros H Hm.
  destruct (io_line_cases line) as [[e He]|(ip & rest & vr & vw & -> & Hrun)].
  - destruct (summary_intro _ (Raise e) [] He) as [_ Hc]. by rewrite Hc in H.
  - destruct (summary_intro _ _ _ Hrun) as [_ Hc]. rewrite Hc in H.
    by apply (write_all_scope _ _ _ _ H Hm).
Qed.

End RowRuns.

(* ================================================================== *)
(** * Loops over rows *)
(* ================================================================== *)

Section LoopFacts.
Local Open Scope py_scope.
Context {A : Type}.
Variable body : A -> M unit.
Hypothesis stable_body : forall x, stable (body x).

Lemma for_each_cons_ok x l :
  outcome (body x) = Ok tt ->
  outcome (for_each (x :: l) body) = outcome (for_each l body)
  /\ calls (for_each (x :: l) body) = calls (body x) ++ calls (for_each l body).
Proof.
  intros E. simpl for_each.
  apply (summary_bind_ok (body x) (fun _ => for_each l body) tt);
    [done|by apply stable_for_each|done].
Qed.

Lemma for_each_cons_raise x l e :
  outcome (body x) = Raise e ->
  outcome (for_each (x :: l) body) = Raise e
  /\ calls (for_each (x :: l) body) = calls (body x).
Proof.
  intros E. simpl for_each.
  by apply (summary_bind_raise (body x) (fun _ => for_each l body) e).
Qed.

(** The calls of a loop are calls of its rounds. *)
Lemma for_each_calls_in l ev :
  In ev (calls (for_each l body)) -> exists x, In x l /\ In ev (calls (body x)).
Proof.
  induction l as [|x l IH]; intros H; [done|].
  destruct (outcome (body x)) as [[]|e] eqn:E.
  - destruct (for_each_cons_ok x l E) as [_ Hc]. rewrite Hc in H.
    apply in_app_or in H as [H|H].
    + exists x. split; [by left|done].
    + destruct (IH H) as (x' & Hx' & Hev). exists x'. split; [by right|done].
  - destruct (for_each_cons_raise x l e E) as [_ Hc]. rewrite Hc in H.
    exists x. split; [by left|done].
Qed.

(** Rounds that succeed are followed by the rest of the loop. *)
Lemma for_each_app_ok l1 l2 :
  Forall (fun x => outcome (body x) = Ok tt) l1 ->
  outcome (for_each (l1 ++ l2) body) = outcome (for_each l2 body)
  /\ calls (for_each (l1 ++ l2) body)
     = calls (for_each l1 body) ++ calls (for_each l2 body).
Proof.
  induction 1 as [|x l1 Hx _ [IH1 IH2]]; [done|].
  rewrite <- app_comm_cons.
  destruct (for_each_cons_ok x (l1 ++ l2) Hx) as [-> ->].
  destruct (for_each_cons_ok x l1 Hx) as [_ ->].
  by rewrite IH1, IH2, app_assoc.
Qed.

End LoopFacts.

(* ================================================================== *)
(** * What each collector may touch *)
(* ================================================================== *)

Section Scopes.
Local Open Scope py_scope.
Variable max_str_digits : nat.
Variable self : MooseFSExporter.

(** Calls that never mention a series leave it as it is. *)
Lemma replay_at_untouched (k : series) evs o :
  (forall ev, In ev evs -> mentions k ev = true -> False) ->
  replay_at k evs o = o.
Proof.
  intros H. apply replay_at_frame. apply List.Forall_forall. intros ev Hev.
  destruct (mentions k ev) eqn:E; [|done]. by destruct (H ev Hev).
Qed.

Lemma replay_at_log (k : series) evs l msg o :
  replay_at k (evs ++ [EvLog l msg]) o = replay_at k evs o.
Proof. by rewrite replay_at_app. Qed.

Lemma system_calls_scope output ev (k : series) :
  In ev (system_calls max_str_digits output) -> mentions k ev = true ->
  exists r, In r (metrics_map max_str_digits) /\ k = (target r, []).
Proof.
  unfold system_calls. intros H Hm.
  apply in_flat_map in H as (r & Hr & Hev). exists r. split; [done|].
  unfold rule_calls in Hev.
  destruct (rule_value _ _ _) as [[f|e]|]; simpl in Hev; [| |done].
  - destruct Hev as [<-|[]]. simpl in Hm. by apply bool_decide_eq_true in Hm.
  - destruct Hev as [<-|[]]. done.
Qed.

Lemma chunkserver_loop_scope output ev (k : series) :
  In ev (calls (chunkserver_loop max_str_digits output)) -> mentions k ev = true ->
  exists g line,
    In g inventory_gauges
    /\ In line (Re.findall chunkserver_regex output)
    /\ k = (g, take 2 line).
Proof.
  intros H Hm. unfold chunkserver_loop in H.
  apply for_each_calls_in in H as (line & Hline & Hev);
    [|apply stable_chunkserver_line].
  destruct (chunkserver_line_scope _ _ _ _ Hev Hm) as (g & Hg & ->). eauto.
Qed.

Lemma io_loop_scope output ev (k : series) :
  In ev (calls (io_loop output)) -> mentions k ev = true ->
  exists g line,
    In g throughput_gauges /\ In line (Re.findall io_regex output)
    /\ k = (g, take 1 line).
Proof.
  intros H Hm. unfold io_loop in H.
  apply for_each_calls_in in H as (line & Hline & Hev); [|apply stable_io_line].
  destruct (io_line_scope _ _ _ Hev Hm) as (g & Hg & ->). eauto.
Qed.

(** A collector leaves alone the series that its extraction does not
    mention, whatever the command does. *)
Lemma collect_system_metrics_frame subprocess_run w (k : series) :
  (forall output ev,
      subprocess_run (system_command self) (timeout self) = prints output ->
      In ev (system_calls max_str_digits output) -> mentions k ev = true -> False) ->
  metrics (snd (collect_system_metrics max_str_digits subprocess_run self w)) !! k
  = metrics w !! k.
Proof.
  intros H.
  destruct (prints_or_silent (subprocess_run (system_command self) (timeout self)))
    as [(output & Hne & Hrun)|Hs].
  - rewrite (collect_system_metrics_run _ _ _ output) by done. cbn [snd].
    rewrite lookup_replay. apply replay_at_untouched. eauto.
  - destruct (collect_system_metrics_silent max_str_digits self _ Hs) as (evs & Hl & ->).
    cbn [snd]. by rewrite metrics_replay_logs.
Qed.

Lemma collect_chunkserver_metrics_frame subprocess_run w (k : series) :
  (forall output ev,
      subprocess_run (chunkserver_command self) (timeout self) = prints output ->
      In ev (calls (chunkserver_loop max_str_digits output)) ->
      mentions k ev = true -> False) ->
  metrics (snd (collect_chunkserver_metrics max_str_digits subprocess_run self w)) !! k
  = metrics w !! k.
Proof.
  intros H.
  destruct (prints_or_silent (subprocess_run (chunkserver_command self) (timeout self)))
    as [(output & Hne & Hrun)|Hs].
  - rewrite (collect_chunkserver_metrics_run _ _ _ output) by done.
    destruct (outcome _) as [[]|e]; cbn [snd]; rewrite lookup_replay, ?replay_at_log;
      apply replay_at_untouched; eauto.
  - destruct (collect_chunkserver_metrics_silent max_str_digits self _ Hs)
      as (evs & Hl & ->).
    cbn [snd]. by rewrite metrics_replay_logs.
Qed.

Lemma collect_io_metrics_frame subprocess_run w (k : series) :
  (forall output ev,
      subprocess_run (io_command self) (timeout self) = prints output ->
      In ev (calls (io_loop output)) -> mentions k ev = true -> False) ->
  metrics (snd (collect_io_metrics subprocess_run self w)) !! k = metrics w !! k.
Proof.
  intros H.
  destruct (prints_or_silent (subprocess_run (io_command self) (timeout self)))
    as [(output & Hne & Hrun)|Hs].
  - rewrite (collect_io_metrics_run _ _ output) by done.
    destruct (outcome _) as [[]|e]; cbn [snd]; rewrite lookup_replay, ?replay_at_log;
      apply replay_at_untouched; eauto.
  - destruct (collect_io_metrics_silent self _ Hs) as (evs & Hl & ->).
    cbn [snd]. by rewrite metrics_replay_logs.
Qed.

(** The gauges of the three collectors are disjoint. *)
Lemma system_targets_unlabelled r :
  In r (metrics_map max_str_digits) ->
  ~ In (target r) inventory_gauges /\ ~ In (target r) throughput_gauges.
Proof.
  intros H.
  assert (Hall : Forall (fun r => ~ In (target r) inventory_gauges
                                  /\ ~ In (target r) throughput_gauges)
                        (metrics_map max_str_digits)).
  { unfold metrics_map, inventory_gauges, throughput_gauges.
    repeat constructor; simpl; intros Hin; decompose [or] Hin; discriminate || done. }
  rewrite Forall_forall in Hall. apply Hall. by apply list_elem_of_In.
Qed.

Lemma tables_disjoint g : In g inventory_gauges -> In g throughput_gauges -> False.
Proof.
  unfold inventory_gauges, throughput_gauges. simpl.
  intros H1 H2. decompose [or] H1; decompose [or] H2; subst; discriminate || done.
Qed.

End Scopes.

(* ================================================================== *)
(** * The polling loop *)
(* ================================================================== *)

Section Polling.
Local Open Scope py_scope.
Variable max_str_digits : nat.
Variable self : MooseFSExporter.

(** [time.sleep] returns for a length from 0 to 9223372036 seconds, and
    raises for any other, ValueError if the length is negative and its
    nanoseconds fit 64 bits. *)
Lemma time_sleep_cases secs :
  ((0 <= secs <= 9223372036)%Z /\ forall w, time_sleep secs w = (Ok tt, w))
  \/ (~ (0 <= secs <= 9223372036)%Z
      /\ exists e, (e = ValueError \/ e = OverflowError)
                   /\ ((-9223372036 <= secs < 0)%Z -> e = ValueError)
                   /\ forall w, time_sleep secs w = (Raise e, w)).
Proof.
  unfold time_sleep.
  destruct (Z.ltb_spec secs (-9223372036)) as [H1|H1]; cbn [orb].
  { right. split; [lia|]. exists OverflowError. repeat split; auto. lia. }
  destruct (Z.ltb_spec 9223372036 secs) as [H2|H2].
  { right. split; [lia|]. exists OverflowError. repeat split; auto. lia. }
  destruct (Z.ltb_spec secs 0) as [H3|H3].
  { right. split; [lia|]. exists ValueError. repeat split; auto. }
  left. split; [lia|done].
Qed.

(** A round is one cycle; the loop goes on if [time.sleep] returns, and
    ends there with its exception otherwise. *)
Lemma run_loop_cons interval subprocess_run rounds w :
  run_loop max_str_digits self interval (subprocess_run :: rounds) w
  = match time_sleep interval
            (snd (collect_all_metrics max_str_digits subprocess_run self w)) with
    | (Ok _, w') => run_loop max_str_digits self interval rounds w'
    | (Raise e, w') => (Raise e, w')
    end.
Proof.
  cbn [run_loop]. unfold bind at 1. rewrite collect_all_metrics_run. cbn [snd].
  unfold bind at 1. done.
Qed.




(** What holds of the registry after each cycle holds after the loop,
    whether [time.sleep] ends it or not. *)
Lemma run_loop_invariant (P : registry -> Prop) interval rounds w :
  (forall subprocess_run w',
      In subprocess_run rounds -> P (metrics w') ->
      P (metrics (snd (collect_all_metrics max_str_digits subprocess_run self w')))) ->
  P (metrics w) ->
  P (metrics (snd (run_loop max_str_digits self interval rounds w))).
Proof.
  revert w. induction rounds as [|sh rounds IH]; intros w Hstep Hw; [done|].
  rewrite run_loop_cons.
  destruct (time_sleep_cases interval) as [[_ ->]|(_ & e & _ & _ & ->)].
  - apply IH; [intros sh' w' Hin; apply Hstep; by right|]. apply Hstep; [by left|done].
  - cbn [snd]. apply Hstep; [by left|done].
Qed.


(** A cycle in which every command is silent leaves the registry. *)
Lemma silent_cycle subprocess_run w :
  silent_round self subprocess_run ->
  metrics (snd (collect_all_metrics max_str_digits subprocess_run self w)) = metrics w.
Proof.
  intros (H1 & H2 & H3). rewrite collect_all_metrics_run. cbn [snd].
  destruct (collect_system_metrics_silent max_str_digits self _ H1) as (e1 & L1 & R1).
  destruct (collect_chunkserver_metrics_silent max_str_digits self _ H2)
    as (e2 & L2 & R2).
  destruct (collect_io_metrics_silent self _ H3) as (e3 & L3 & R3).
  rewrite R1, R2, R3. cbn [snd]. by rewrite !metrics_replay_logs.
Qed.

End Polling.

(** X1.  The system collector writes the unlabelled series of the gauges
    of its rules and nothing else: a series with label values, and every
    series of the six per-server gauges, is after the pass what it was
    before, whatever the command did and printed. *)
Theorem system_pass_keeps_server_series
    (max_str_digits : nat)
    (subprocess_run : string -> Z -> result CompletedProcess)
    (self : MooseFSExporter) (w : world) (g : gauge) (lv : list string) :
  lv <> [] \/ In g inventory_gauges \/ In g throughput_gauges ->
  metrics (snd (collect_system_metrics max_str_digits subprocess_run self w)) !! (g, lv)
  = metrics w !! (g, lv).
Proof.
  intros H. apply collect_system_metrics_frame.
  intros output ev _ Hev Hm.
  destruct (system_calls_scope _ _ _ _ Hev Hm) as (r & Hr & [= -> ->]).
  destruct (system_targets_unlabelled max_str_digits r Hr) as [Hi Ht].
  destruct H as [H|[H|H]]; auto.
Qed.

Lemma system_pass_keeps_server_series_witness :
  let self := {| host := "mfsmaster"; timeout := 10 |} in
  let w := snd (collect_chunkserver_metrics 4300 (fun _ _ => prints inventory_sample)
                  self initial) in
  let run := collect_system_metrics 4300 (fun _ _ => prints "chunks : 7") self w in
  metrics (snd run) !! (mfs_chunkserver_chunks, ["10.0.0.5"; "000100"])
  = metrics w !! (mfs_chunkserver_chunks, ["10.0.0.5"; "000100"]).
Proof.
  intros self w run.
  apply (system_pass_keeps_server_series 4300 (fun _ _ => prints "chunks : 7") self w
           mfs_chunkserver_chunks ["10.0.0.5"; "000100"]).
  left. discriminate.
Defined.

(** X2.  The inventory collector writes the four inventory series of the
    servers (address and identifier) of the rows it finds, and nothing
    else.  A series of another gauge, and the series of a server that no
    row of the output names, for instance one that left the cluster,
    keeps the value it had: the collector never removes or resets it. *)
Theorem inventory_pass_keeps_other_series
    (max_str_digits : nat)
    (subprocess_run : string -> Z -> result CompletedProcess)
    (self : MooseFSExporter) (w : world) (g : gauge) (lv : list string) :
  (~ In g inventory_gauges
   \/ forall output,
        subprocess_run (chunkserver_command self) (timeout self) = prints output ->
        ~ In lv (map (take 2) (Re.findall chunkserver_regex output))) ->
  metrics (snd (collect_chunkserver_metrics max_str_digits subprocess_run self w))
    !! (g, lv)
  = metrics w !! (g, lv).
Proof.
  intros H. apply collect_chunkserver_metrics_frame.
  intros output ev Hrun Hev Hm.
  destruct (chunkserver_loop_scope _ _ _ _ Hev Hm) as (g' & line & Hg' & Hline & [= -> ->]).
  destruct H as [H|H]; [done|].
  apply (H output Hrun). by apply in_map.
Qed.

Lemma inventory_pass_keeps_other_series_witness :
  let self := {| host := "mfsmaster"; timeout := 10 |} in
  let w := snd (collect_chunkserver_metrics 4300 (fun _ _ => prints inventory_sample)
                  self initial) in
  let later := "10.0.0.9 9422 000109 - 4.10.0 0 OK OK 10 1.50 GiB 200 GiB 0.75%" in
  let run := collect_chunkserver_metrics 4300 (fun _ _ => prints later) self w in
  metrics (snd run) !! (mfs_chunkserver_chunks, ["10.0.0.5"; "000100"])
  = metrics w !! (mfs_chunkserver_chunks, ["10.0.0.5"; "000100"]).
Proof.
  intros self w later run.
  apply (inventory_pass_keeps_other_series 4300 (fun _ _ => prints later) self w
           mfs_chunkserver_chunks ["10.0.0.5"; "000100"]).
  right. intros output [= <-]. vm_compute. intros [H|[]]. discriminate H.
Defined.

(** X3.  The throughput collector writes the read and the write speed of
    the addresses of the rows it finds, and nothing else: every other
    series, also the speeds of an address that no row names, keeps the
    value it had. *)
Theorem throughput_pass_keeps_other_series
    (subprocess_run : string -> Z -> result CompletedProcess)
    (self : MooseFSExporter) (w : world) (g : gauge) (lv : list string) :
  (~ In g throughput_gauges
   \/ forall output,
        subprocess_run (io_command self) (timeout self) = prints output ->
        ~ In lv (map (take 1) (Re.findall io_regex output))) ->
  metrics (snd (collect_io_metrics subprocess_run self w)) !! (g, lv)
  = metrics w !! (g, lv).
Proof.
  intros H. apply collect_io_metrics_frame.
  intros output ev Hrun Hev Hm.
  destruct (io_loop_scope _ _ _ Hev Hm) as (g' & line & Hg' & Hline & [= -> ->]).
  destruct H as [H|H]; [done|].
  apply (H output Hrun). by apply in_map.
Qed.

Lemma throughput_pass_keeps_other_series_witness :
  let self := {| host := "mfsmaster"; timeout := 10 |} in
  let run := collect_io_metrics (fun _ _ => prints throughput_sample) self initial in
  metrics (snd run) !! (mfs_chunkserver_read_speed, ["10.0.0.9"])
  = metrics initial !! (mfs_chunkserver_read_speed, ["10.0.0.9"]).
Proof.
  intros self run.
  apply (throughput_pass_keeps_other_series (fun _ _ => prints throughput_sample)
           self initial mfs_chunkserver_read_speed ["10.0.0.9"]).
  right. intros output [= <-]. vm_compute. intuition discriminate.
Defined.



(** X5.  Polling a master whose commands keep giving the same results:
    after any number of rounds, the registry is what the first round
    made it, whatever the interval is. *)
Theorem polling_unchanged_master
    (max_str_digits : nat) (self : MooseFSExporter) (interval : Z)
    (subprocess_run : string -> Z -> result CompletedProcess) (n : nat) (w : world) :
  metrics (snd (run_loop max_str_digits self interval (repeat subprocess_run (S n)) w))
  = metrics (snd (collect_all_metrics max_str_digits subprocess_run self w)).
Proof.
  revert w. induction n as [|n IH]; intros w.
  - cbn [repeat]. rewrite run_loop_cons.
    by destruct (time_sleep_cases interval) as [[_ ->]|(_ & e & _ & _ & ->)].
  - change (repeat subprocess_run (S (S n)))
      with (subprocess_run :: repeat subprocess_run (S n)).
    rewrite run_loop_cons.
    destruct (time_sleep_cases interval) as [[_ ->]|(_ & e & _ & _ & ->)]; [|done].
    rewrite IH. apply stable_twice, stable_collect_all_metrics.
Qed.

(** X6.  Rounds in which every command fails, exits with another status
    than 0 or prints nothing leave the registry as it was: the exporter
    keeps serving the last values it read. *)
Theorem silent_rounds_keep_registry
    (max_str_digits : nat) (self : MooseFSExporter) (interval : Z)
    (rounds : list (string -> Z -> result CompletedProcess)) (w : world) :
  Forall (silent_round self) rounds ->
  metrics (snd (run_loop max_str_digits self interval rounds w)) = metrics w.
Proof.
  intros H.
  apply (run_loop_invariant max_str_digits self (fun m => m = metrics w)); [|done].
  intros sh w' Hin Hw'. rewrite <- Hw'. apply silent_cycle.
  rewrite List.Forall_forall in H. by apply H.
Qed.

Lemma silent_rounds_keep_registry_witness :
  let self := {| host := "mfsmaster"; timeout := 10 |} in
  let rounds := [ (fun _ _ => Raise TimeoutExpired);
                  (fun _ _ => Ok {| returncode := 1; stdout := "no route to host" |});
                  (fun _ _ => prints "") ] in
  metrics (snd (run_loop 4300 self 15 rounds initial)) = metrics initial.
Proof.
  intros self rounds.
  apply (silent_rounds_keep_registry 4300 self 15 rounds initial).
  repeat constructor; intros output H; discriminate H || by injection H.
Defined.

(* ================================================================== *)
(** * The rows that are written *)
(* ================================================================== *)

Section RowsWritten.
Local Open Scope py_scope.
Variable max_str_digits : nat.

(** A record of the throughput pattern is written as one block. *)
Lemma io_record_run output line :
  In line (Re.findall io_regex output) ->
  exists ip read write fr fw,
    line = [ip; read; write]
    /\ gib_to_bytes read = Ok (PyFloat fr)
    /\ mib_to_bytes_float write = Ok (PyFloat fw)
    /\ forall w, io_line line w = (Ok tt, replay (throughput_events [ip] fr fw) w).
Proof.
  intros Hin.
  destruct (io_record _ _ Hin) as (ip & r1 & r2 & w1 & w2 & -> & Hr1 & Hr2 & Hw1 & Hw2).
  destruct (gib_to_bytes_decimal _ _ Hr1 Hr2) as [fr Er].
  destruct (mib_to_bytes_float_decimal _ _ Hw1 Hw2) as [fw Ew].
  exists ip, (PyStr.str (r1 ++ "."%char :: r2)), (PyStr.str (w1 ++ "."%char :: w2)), fr, fw.
  split; [done|]. split; [done|]. split; [done|].
  intros w. unfold io_line. rewrite Er, Ew. reflexivity.
Qed.

(** A storable record of the inventory pattern is written as one block. *)
Lemma chunkserver_record_run output line :
  In line (Re.findall chunkserver_regex output) ->
  row_storable max_str_digits line ->
  exists ip server_id chunks used total percent c t fc fu ft fp,
    line = [ip; server_id; chunks; used; total; percent]
    /\ py_int max_str_digits chunks = Ok c /\ float_of_int c = Ok fc
    /\ gib_to_bytes used = Ok (PyFloat fu)
    /\ py_int max_str_digits total = Ok t /\ float_of_int (t * 1024 ^ 3) = Ok ft
    /\ float_ percent = Ok (PyFloat fp)
    /\ forall w, chunkserver_line max_str_digits line w
                 = (Ok tt, replay (inventory_events [ip; server_id] fc fu ft fp) w).
Proof.
  intros Hin Hst.
  destruct (chunkserver_record _ _ Hin)
    as (ip & sid & chunks & u1 & u2 & total & p1 & p2 & -> & Hc & Hu1 & Hu2 & Ht & Hp1 & Hp2).
  destruct Hst as (? & ? & ? & ? & ? & ? & [= <- <- <- <- <- <-]
                   & (c & fc & Ec & Efc) & (t & ft & Et & Eft)).
  rewrite Z.mul_1_r in Efc.
  destruct (gib_to_bytes_decimal _ _ Hu1 Hu2) as [fu Eu].
  destruct (float_decimal _ _ Hp1 Hp2) as [fp Ep].
  exists ip, sid, (PyStr.str chunks), (PyStr.str (u1 ++ "."%char :: u2)),
    (PyStr.str total), (PyStr.str (p1 ++ "."%char :: p2)), c, t, fc, fu, ft, fp.
  repeat (split; [done|]).
  intros w. unfold chunkserver_line, int_. rewrite Ec, Et, Eu, Ep.
  assert (Hmul : rbind (rbind (Ok t) (fun z => Ok (PyInt z)))
                   (fun v => rbind (py_mul v k1024)
                      (fun v => rbind (py_mul v k1024) (fun v => py_mul v k1024)))
                 = Ok (PyInt (t * 1024 ^ 3))).
  { simpl. do 2 f_equal. lia. }
  rewrite Hmul. clear Hmul.
  unfold bind, lift, labels, set, emit, ret, to_float. simpl.
  rewrite Efc. simpl. rewrite Eft. reflexivity.
Qed.

(** What a block leaves in its own series. *)
Lemma throughput_events_at lv fr fw o1 o2 :
  replay_at (mfs_chunkserver_read_speed, lv) (throughput_events lv fr fw) o1 = Some fr
  /\ replay_at (mfs_chunkserver_write_speed, lv) (throughput_events lv fr fw) o2
     = Some fw.
Proof.
  unfold throughput_events, replay_at. cbn [fold_left update_at].
  split; repeat case_decide; congruence.
Qed.

Lemma inventory_events_at lv fc fu ft fp o1 o2 o3 o4 :
  replay_at (mfs_chunkserver_chunks, lv) (inventory_events lv fc fu ft fp) o1 = Some fc
  /\ replay_at (mfs_chunkserver_disk_used, lv) (inventory_events lv fc fu ft fp) o2
     = Some fu
  /\ replay_at (mfs_chunkserver_disk_total, lv) (inventory_events lv fc fu ft fp) o3
     = Some ft
  /\ replay_at (mfs_chunkserver_disk_usage_percent, lv)
       (inventory_events lv fc fu ft fp) o4 = Some fp.
Proof.
  unfold inventory_events, replay_at. cbn [fold_left update_at].
  repeat split; repeat case_decide; congruence.
Qed.

(** The loops do nothing on the empty text. *)
Lemma findall_empty :
  Re.findall io_regex "" = [] /\ Re.findall chunkserver_regex "" = [].
Proof. split; by vm_compute. Qed.

(** The only exceptions of the numeric conversions. *)
Lemma py_int_raises s e : py_int max_str_digits s = Raise e -> e = ValueError.
Proof.
  unfold py_int. destruct (sign _) as [neg body].
  destruct (digitpart _ _); [|congruence].
  destruct (too_many_digits _ _); congruence.
Qed.

Lemma float_of_int_raises z e : float_of_int z = Raise e -> e = OverflowError.
Proof. unfold float_of_int. destruct (dyadic z 0); congruence. Qed.

End RowsWritten.

Section RowsRaised.
Local Open Scope py_scope.
Variable max_str_digits : nat.

(** A record of the inventory pattern that raises does so on a digit
    string too long for [int], or on an integer too large for [float]. *)
Lemma chunkserver_record_raises output line e :
  In line (Re.findall chunkserver_regex output) ->
  outcome (chunkserver_line max_str_digits line) = Raise e ->
  e = ValueError \/ e = OverflowError.
Proof.
  intros Hin.
  destruct (chunkserver_record _ _ Hin)
    as (ip & sid & chunks & u1 & u2 & total & p1 & p2 & -> & Hc & Hu1 & Hu2 & Ht & Hp1 & Hp2).
  destruct (gib_to_bytes_decimal _ _ Hu1 Hu2) as [fu Eu].
  destruct (float_decimal _ _ Hp1 Hp2) as [fp Ep].
  unfold outcome, chunkserver_line, int_. rewrite Eu, Ep.
  destruct (py_int max_str_digits (PyStr.str chunks)) as [c|ec] eqn:Ec.
  2: { intros [= <-]. left. by eapply py_int_raises. }
  destruct (py_int max_str_digits (PyStr.str total)) as [t|et] eqn:Et.
  2: { intros [= <-]. left. by eapply py_int_raises. }
  assert (Hmul : rbind (rbind (Ok t) (fun z => Ok (PyInt z)))
                   (fun v => rbind (py_mul v k1024)
                      (fun v => rbind (py_mul v k1024) (fun v => py_mul v k1024)))
                 = Ok (PyInt (t * 1024 ^ 3))).
  { simpl. do 2 f_equal. lia. }
  rewrite Hmul. clear Hmul.
  unfold bind, lift, labels, set, emit, ret, to_float. simpl.
  destruct (float_of_int c) as [f1|e1] eqn:E1; simpl.
  2: { intros [= <-]. right. by eapply float_of_int_raises. }
  destruct (float_of_int (t * 1024 ^ 3)) as [f2|e2] eqn:E2; simpl.
  2: { intros [= <-]. right. by eapply float_of_int_raises. }
  discriminate.
Qed.

End RowsRaised.

(** X7.  Every row of the throughput table is written, and for an
    address that appears in several rows (a server with several disks)
    the last row wins: after the pass the two speeds of the address are
    those of its last row, in bytes per second, and the collector
    succeeds. *)
Theorem throughput_last_row_wins
    (subprocess_run : string -> Z -> result CompletedProcess)
    (self : MooseFSExporter) (w : world) (output : string)
    (before after_ : list (list string)) (ip read write : string) :
  subprocess_run (io_command self) (timeout self) = prints output ->
  Re.findall io_regex output = before ++ [ip; read; write] :: after_ ->
  (forall line, In line after_ -> take 1 line <> [ip]) ->
  let run := collect_io_metrics subprocess_run self w in
  exists fr fw,
    gib_to_bytes read = Ok (PyFloat fr)
    /\ mib_to_bytes_float write = Ok (PyFloat fw)
    /\ fst run = Ok true
    /\ metrics (snd run) !! (mfs_chunkserver_read_speed, [ip]) = Some fr
    /\ metrics (snd run) !! (mfs_chunkserver_write_speed, [ip]) = Some fw.
Proof.
  intros Hrun Hfind Hafter run. subst run.
  assert (Hne : output <> "").
  { intros ->. rewrite (proj1 findall_empty) in Hfind. by destruct before. }
  assert (Hin : In [ip; read; write] (Re.findall io_regex output)).
  { rewrite Hfind. apply in_or_app. right. by left. }
  destruct (io_record_run _ _ Hin) as (ip' & rd & wr & fr & fw & [= <- <- <-] & Er & Ew & Hline).
  exists fr, fw. split; [done|]. split; [done|].
  rewrite (collect_io_metrics_run _ _ output) by done.
  rewrite io_loop_outcome. cbn [fst snd]. split; [done|].
  assert (Hcalls : calls (io_loop output)
                   = calls (for_each before io_line)
                     ++ throughput_events [ip] fr fw
                     ++ calls (for_each after_ io_line)).
  { unfold io_loop. rewrite Hfind.
    destruct (summary_intro _ _ _ Hline) as [Ho Hc].
    destruct (for_each_app_ok io_line stable_io_line before ([ip; read; write] :: after_))
      as [_ ->].
    - apply List.Forall_forall. intros line Hl. apply (io_record_outcome output).
      rewrite Hfind. apply in_or_app. by left.
    - destruct (for_each_cons_ok io_line stable_io_line [ip; read; write] after_ Ho)
        as [_ ->].
      by rewrite Hc. }
  assert (Hrest : forall g o, In g throughput_gauges ->
             replay_at (g, [ip]) (calls (for_each after_ io_line)) o = o).
  { intros g o Hg. apply replay_at_untouched. intros ev Hev Hm.
    apply (for_each_calls_in io_line stable_io_line) in Hev as (line & Hl & Hev).
    destruct (io_line_scope _ _ _ Hev Hm) as (g' & _ & [= _ Heq]).
    by apply (Hafter line Hl). }
  rewrite !lookup_replay, Hcalls, !replay_at_app.
  rewrite !Hrest by (unfold throughput_gauges; simpl; auto).
  split; apply throughput_events_at; exact None.
Qed.

Lemma throughput_last_row_wins_witness :
  let self := {| host := "mfsmaster"; timeout := 10 |} in
  let run := collect_io_metrics (fun _ _ => prints throughput_sample) self initial in
  exists fr fw,
    gib_to_bytes "0.50" = Ok (PyFloat fr)
    /\ mib_to_bytes_float "8.00" = Ok (PyFloat fw)
    /\ fst run = Ok true
    /\ metrics (snd run) !! (mfs_chunkserver_read_speed, ["10.0.0.5"]) = Some fr
    /\ metrics (snd run) !! (mfs_chunkserver_write_speed, ["10.0.0.5"]) = Some fw.
Proof.
  intros self run.
  apply (throughput_last_row_wins (fun _ _ => prints throughput_sample) self initial
           throughput_sample [["10.0.0.5"; "0.25"; "12.50"]]
           [["10.0.0.6"; "1.00"; "4.00"]] "10.0.0.5" "0.50" "8.00").
  - reflexivity.
  - vm_compute. reflexivity.
  - intros line [<-|[]]. discriminate.
Defined.

Section RowKept.
Variable max_str_digits : nat.
Variable subprocess_run : string -> Z -> result CompletedProcess.
Variable self : MooseFSExporter.

(** A row that is written in full, after rows that can be stored and
    before rows of other servers, is what the pass leaves of its
    server. *)
Lemma chunkserver_row_lookup w output before after_ line ip server_id fc fu ft fp :
  subprocess_run (chunkserver_command self) (timeout self) = prints output ->
  Re.findall chunkserver_regex output = before ++ line :: after_ ->
  Forall (row_storable max_str_digits) before ->
  (forall w', chunkserver_line max_str_digits line w'
              = (Ok tt, replay (inventory_events [ip; server_id] fc fu ft fp) w')) ->
  (forall line', In line' after_ -> take 2 line' <> [ip; server_id]) ->
  let run := collect_chunkserver_metrics max_str_digits subprocess_run self w in
  let lv := [ip; server_id] in
  metrics (snd run) !! (mfs_chunkserver_chunks, lv) = Some fc
  /\ metrics (snd run) !! (mfs_chunkserver_disk_used, lv) = Some fu
  /\ metrics (snd run) !! (mfs_chunkserver_disk_total, lv) = Some ft
  /\ metrics (snd run) !! (mfs_chunkserver_disk_usage_percent, lv) = Some fp.
Proof.
  intros Hrun Hfind Hbefore Hw Hafter run lv. subst run lv.
  assert (Hne : output <> "").
  { intros ->. rewrite (proj2 findall_empty) in Hfind. by destruct before. }
  assert (Hcalls : calls (chunkserver_loop max_str_digits output)
                   = calls (for_each before (chunkserver_line max_str_digits))
                     ++ inventory_events [ip; server_id] fc fu ft fp
                     ++ calls (for_each after_ (chunkserver_line max_str_digits))).
  { unfold chunkserver_loop. rewrite Hfind.
    destruct (summary_intro _ _ _ Hw) as [Ho Hc].
    destruct (for_each_app_ok (chunkserver_line max_str_digits)
                (stable_chunkserver_line max_str_digits) before (line :: after_))
      as [_ ->].
    - apply List.Forall_forall. intros line' Hl.
      apply (chunkserver_record_outcome max_str_digits output).
      + rewrite Hfind. apply in_or_app. by left.
      + rewrite List.Forall_forall in Hbefore. by apply Hbefore.
    - destruct (for_each_cons_ok (chunkserver_line max_str_digits)
                  (stable_chunkserver_line max_str_digits) line after_ Ho) as [_ ->].
      by rewrite Hc. }
  assert (Hrest : forall g o, In g inventory_gauges ->
             replay_at (g, [ip; server_id])
               (calls (for_each after_ (chunkserver_line max_str_digits))) o = o).
  { intros g o Hg. apply replay_at_untouched. intros ev Hev Hm.
    apply (for_each_calls_in _ (stable_chunkserver_line max_str_digits)) in Hev
      as (line' & Hl & Hev).
    destruct (chunkserver_line_scope _ _ _ _ Hev Hm) as (g' & _ & [= _ Heq]).
    by apply (Hafter line' Hl). }
  rewrite (collect_chunkserver_metrics_run _ _ _ output) by done.
  assert (Hat : forall g f,
             In g inventory_gauges ->
             (forall o, replay_at (g, [ip; server_id])
                          (inventory_events [ip; server_id] fc fu ft fp) o = Some f) ->
             forall w',
               (exists tail, w' = replay (calls (chunkserver_loop max_str_digits output)
                                          ++ tail) w
                             /\ Forall (fun ev => is_log ev = true) tail) ->
               metrics w' !! (g, [ip; server_id]) = Some f).
  { intros g f Hg Hf w' (tail & -> & Htail).
    rewrite lookup_replay, replay_at_app, Hcalls, !replay_at_app, Hrest, Hf by done.
    apply replay_at_frame. by apply mentions_log. }
  assert (Hw' : exists tail,
             snd match outcome (chunkserver_loop max_str_digits output) with
                 | Ok _ => (Ok true,
                            replay (calls (chunkserver_loop max_str_digits output)) w)
                 | Raise e =>
                     (Ok false,
                      replay (calls (chunkserver_loop max_str_digits output)
                              ++ [EvLog ERROR (ChunkserverCollectionError e)]) w)
                 end
             = replay (calls (chunkserver_loop max_str_digits output) ++ tail) w
             /\ Forall (fun ev => is_log ev = true) tail).
  { destruct (outcome _) as [[]|e]; cbn [snd].
    - exists []. by rewrite app_nil_r.
    - exists [EvLog ERROR (ChunkserverCollectionError e)]. split; [done|].
      by repeat constructor. }
  unfold inventory_gauges in Hat.
  repeat split; (eapply Hat; [| |exact Hw']; [simpl; tauto|]); intros o;
    eapply (inventory_events_at [ip; server_id] fc fu ft fp o o o o).
Qed.

End RowKept.

(** X8.  The rows of the inventory table are written one after the
    other, and a row written stays written: if the rows up to and
    including a row can be stored, and no later row names the same
    server, then after the pass the four series of that server hold the
    chunk count, the used bytes, the total bytes and the percentage of
    the row, also when a later row makes the collector fail. *)
Theorem inventory_row_stays_written
    (max_str_digits : nat)
    (subprocess_run : string -> Z -> result CompletedProcess)
    (self : MooseFSExporter) (w : world) (output : string)
    (before after_ : list (list string))
    (ip server_id chunks used total percent : string) :
  subprocess_run (chunkserver_command self) (timeout self) = prints output ->
  Re.findall chunkserver_regex output
  = before ++ [ip; server_id; chunks; used; total; percent] :: after_ ->
  Forall (row_storable max_str_digits)
         (before ++ [[ip; server_id; chunks; used; total; percent]]) ->
  (forall line, In line after_ -> take 2 line <> [ip; server_id]) ->
  let run := collect_chunkserver_metrics max_str_digits subprocess_run self w in
  let lv := [ip; server_id] in
  exists c t fc fu ft fp,
    (py_int max_str_digits chunks = Ok c /\ float_of_int c = Ok fc
     /\ gib_to_bytes used = Ok (PyFloat fu)
     /\ py_int max_str_digits total = Ok t /\ float_of_int (t * 1024 ^ 3) = Ok ft
     /\ float_ percent = Ok (PyFloat fp))
    /\ metrics (snd run) !! (mfs_chunkserver_chunks, lv) = Some fc
    /\ metrics (snd run) !! (mfs_chunkserver_disk_used, lv) = Some fu
    /\ metrics (snd run) !! (mfs_chunkserver_disk_total, lv) = Some ft
    /\ metrics (snd run) !! (mfs_chunkserver_disk_usage_percent, lv) = Some fp.
Proof.
  intros Hrun Hfind Hst Hafter run lv. subst run lv.
  apply Forall_app in Hst as [Hbefore Hline]. apply Forall_inv in Hline.
  assert (Hin : In [ip; server_id; chunks; used; total; percent]
                   (Re.findall chunkserver_regex output)).
  { rewrite Hfind. apply in_or_app. right. by left. }
  destruct (chunkserver_record_run max_str_digits _ _ Hin Hline)
    as (? & ? & ? & ? & ? & ? & c & t & fc & fu & ft & fp
        & [= <- <- <- <- <- <-] & Ec & Efc & Eu & Et & Eft & Ep & Hw).
  exists c, t, fc, fu, ft, fp. split; [done|].
  by apply (chunkserver_row_lookup max_str_digits subprocess_run self w output
              before after_ [ip; server_id; chunks; used; total; percent]).
Qed.

Lemma inventory_row_stays_written_witness :
  let self := {| host := "mfsmaster"; timeout := 10 |} in
  let run := collect_chunkserver_metrics 4300 (fun _ _ => prints table_with_huge_total)
               self initial in
  let lv := ["10.0.0.5"; "000100"] in
  fst run = Ok false
  /\ exists c t fc fu ft fp,
       (py_int 4300 "1500" = Ok c /\ float_of_int c = Ok fc
        /\ gib_to_bytes "120.50" = Ok (PyFloat fu)
        /\ py_int 4300 "200" = Ok t /\ float_of_int (t * 1024 ^ 3) = Ok ft
        /\ float_ "60.25" = Ok (PyFloat fp))
       /\ metrics (snd run) !! (mfs_chunkserver_chunks, lv) = Some fc
       /\ metrics (snd run) !! (mfs_chunkserver_disk_used, lv) = Some fu
       /\ metrics (snd run) !! (mfs_chunkserver_disk_total, lv) = Some ft
       /\ metrics (snd run) !! (mfs_chunkserver_disk_usage_percent, lv) = Some fp.
Proof.
  intros self run lv. split; [by vm_compute|].
  apply (inventory_row_stays_written 4300 (fun _ _ => prints table_with_huge_total)
           self initial table_with_huge_total []
           [ ["10.0.0.6"; "000101"; "1200"; "95.00"; four_hundred_nines; "47.50"];
             ["10.0.0.7"; "000102"; "900"; "80.25"; "100"; "80.25"] ]
           "10.0.0.5" "000100" "1500" "120.50" "200" "60.25").
  - reflexivity.
  - vm_compute. reflexivity.
  - repeat constructor.
    exists "10.0.0.5", "000100", "1500", "120.50", "200", "60.25".
    split; [reflexivity|]. split.
    + exists 1500%Z, (dyadic 1500 0). split; vm_compute; reflexivity.
    + exists 200%Z, (dyadic (200 * 1024 ^ 3) 0). split; vm_compute; reflexivity.
  - intros line [<-|[<-|[]]]; discriminate.
Defined.

(** X9.  The inventory loop stops at the first row it cannot store.  The
    collector then returns False, the last thing it does is to log the
    error, which is a ValueError (a digit string too long for [int]) or
    an OverflowError (an integer too large for [float]), and the rows
    after the failing one are not written: a series of a server that is
    named by later rows only is what it was before the pass. *)
Theorem inventory_stops_at_first_bad_row
    (max_str_digits : nat)
    (subprocess_run : string -> Z -> result CompletedProcess)
    (self : MooseFSExporter) (w : world) (output : string)
    (before after_ : list (list string)) (line : list string) :
  subprocess_run (chunkserver_command self) (timeout self) = prints output ->
  Re.findall chunkserver_regex output = before ++ line :: after_ ->
  Forall (row_storable max_str_digits) before ->
  ~ row_storable max_str_digits line ->
  let run := collect_chunkserver_metrics max_str_digits subprocess_run self w in
  fst run = Ok false
  /\ (exists e,
        (e = ValueError \/ e = OverflowError)
        /\ last (trace (snd run)) = Some (EvLog ERROR (ChunkserverCollectionError e)))
  /\ forall g lv,
       ~ In lv (map (take 2) (before ++ [line])) ->
       metrics (snd run) !! (g, lv) = metrics w !! (g, lv).
Proof.
  intros Hrun Hfind Hbefore Hbad run. subst run.
  assert (Hne : output <> "").
  { intros ->. rewrite (proj2 findall_empty) in Hfind. by destruct before. }
  assert (Hin : In line (Re.findall chunkserver_regex output)).
  { rewrite Hfind. apply in_or_app. right. by left. }
  destruct (outcome (chunkserver_line max_str_digits line)) as [[]|e] eqn:Eline.
  { destruct Hbad. by apply (chunkserver_record_outcome max_str_digits output). }
  pose proof (chunkserver_record_raises max_str_digits _ _ _ Hin Eline) as Hkind.
  assert (Hloop : outcome (chunkserver_loop max_str_digits output) = Raise e
                  /\ calls (chunkserver_loop max_str_digits output)
                     = calls (for_each before (chunkserver_line max_str_digits))
                       ++ calls (chunkserver_line max_str_digits line)).
  { unfold chunkserver_loop. rewrite Hfind.
    destruct (for_each_app_ok (chunkserver_line max_str_digits)
                (stable_chunkserver_line max_str_digits) before (line :: after_))
      as [-> ->].
    - apply List.Forall_forall. intros line' Hl.
      apply (chunkserver_record_outcome max_str_digits output).
      + rewrite Hfind. apply in_or_app. by left.
      + rewrite List.Forall_forall in Hbefore. by apply Hbefore.
    - destruct (for_each_cons_raise (chunkserver_line max_str_digits)
                  (stable_chunkserver_line max_str_digits) line after_ e Eline)
        as [-> ->].
      done. }
  destruct Hloop as [Ho Hc].
  rewrite (collect_chunkserver_metrics_run _ _ _ output) by done.
  rewrite Ho. cbn [fst snd]. split; [done|]. split.
  - exists e. split; [done|].
    by rewrite trace_replay, app_assoc, last_snoc.
  - intros g lv Hlv. rewrite lookup_replay, replay_at_log.
    apply replay_at_untouched. intros ev Hev Hm. apply Hlv.
    rewrite Hc in Hev. rewrite map_app. apply in_or_app.
    apply in_app_or in Hev as [Hev|Hev].
    + left.
      apply (for_each_calls_in _ (stable_chunkserver_line max_str_digits)) in Hev
        as (line' & Hl & Hev).
      destruct (chunkserver_line_scope _ _ _ _ Hev Hm) as (g' & _ & [= _ ->]).
      by apply in_map.
    + right.
      destruct (chunkserver_line_scope _ _ _ _ Hev Hm) as (g' & _ & [= _ ->]).
      by left.
Qed.

Lemma inventory_stops_at_first_bad_row_witness :
  let self := {| host := "mfsmaster"; timeout := 10 |} in
  let run := collect_chunkserver_metrics 4300 (fun _ _ => prints table_with_huge_total)
               self initial in
  fst run = Ok false
  /\ (exists e,
        (e = ValueError \/ e = OverflowError)
        /\ last (trace (snd run)) = Some (EvLog ERROR (ChunkserverCollectionError e)))
  /\ forall g lv,
       ~ In lv (map (take 2)
                  ([ ["10.0.0.5"; "000100"; "1500"; "120.50"; "200"; "60.25"] ]
                   ++ [ ["10.0.0.6"; "000101"; "1200"; "95.00"; four_hundred_nines;
                         "47.50"] ])) ->
       metrics (snd run) !! (g, lv) = metrics initial !! (g, lv).
Proof.
  intros self run.
  apply (inventory_stops_at_first_bad_row 4300
           (fun _ _ => prints table_with_huge_total) self initial table_with_huge_total
           [ ["10.0.0.5"; "000100"; "1500"; "120.50"; "200"; "60.25"] ]
           [ ["10.0.0.7"; "000102"; "900"; "80.25"; "100"; "80.25"] ]
           ["10.0.0.6"; "000101"; "1200"; "95.00"; four_hundred_nines; "47.50"]).
  - reflexivity.
  - vm_compute. reflexivity.
  - repeat constructor.
    exists "10.0.0.5", "000100", "1500", "120.50", "200", "60.25".
    split; [reflexivity|]. split.
    + exists 1500%Z, (dyadic 1500 0). split; vm_compute; reflexivity.
    + exists 200%Z, (dyadic (200 * 1024 ^ 3) 0). split; vm_compute; reflexivity.
  - intros (ip & sid & ch & us & tot & pct & Heq & _ & (z & f & Hz & Hf)).
    injection Heq as <- <- <- <- <- <-.
    vm_compute in Hz. injection Hz as <-. vm_compute in Hf. discriminate Hf.
Defined.

(* ================================================================== *)
(** * Series that go together *)
(* ================================================================== *)

Section Invariants.
Local Open Scope py_scope.
Variable max_str_digits : nat.
Variable self : MooseFSExporter.

(** At the start there is no series of a gauge with labels. *)
Lemma fresh_registry_labelled g lv :
  labelnames g <> [] -> fresh_registry !! (g, lv) = None.
Proof.
  intros H. unfold fresh_registry. apply not_elem_of_list_to_map_1.
  rewrite <- list_fmap_compose. intros Hin.
  apply list_elem_of_fmap in Hin as (g' & Heq & Hg'). simpl in Heq.
  injection Heq as <- _.
  apply list_elem_of_filter in Hg' as [Hg' _]. done.
Qed.

Lemma throughput_events_off lv lv' g fr fw o :
  lv' <> lv -> replay_at (g, lv') (throughput_events lv fr fw) o = o.
Proof.
  intros H. unfold throughput_events, replay_at. cbn [fold_left update_at].
  by rewrite !decide_False by congruence.
Qed.

Lemma inventory_events_off lv lv' g fc fu ft fp o :
  lv' <> lv -> replay_at (g, lv') (inventory_events lv fc fu ft fp) o = o.
Proof.
  intros H. unfold inventory_events, replay_at. cbn [fold_left update_at].
  by rewrite !decide_False by congruence.
Qed.

Lemma paired_block lv fr fw w :
  paired (metrics w) -> paired (metrics (replay (throughput_events lv fr fw) w)).
Proof.
  intros H lv'. rewrite !lookup_replay.
  destruct (decide (lv' = lv)) as [->|Hne].
  - destruct (throughput_events_at lv fr fw
                (metrics w !! (mfs_chunkserver_read_speed, lv))
                (metrics w !! (mfs_chunkserver_write_speed, lv))) as [-> ->].
    split; eauto.
  - rewrite !throughput_events_off by done. apply H.
Qed.

Lemma aligned_block lv fc fu ft fp w :
  aligned (metrics w) -> aligned (metrics (replay (inventory_events lv fc fu ft fp) w)).
Proof.
  intros H g lv' Hg. rewrite !lookup_replay.
  destruct (decide (lv' = lv)) as [->|Hne].
  - destruct (inventory_events_at lv fc fu ft fp
                (metrics w !! (mfs_chunkserver_chunks, lv))
                (metrics w !! (mfs_chunkserver_disk_used, lv))
                (metrics w !! (mfs_chunkserver_disk_total, lv))
                (metrics w !! (mfs_chunkserver_disk_usage_percent, lv)))
      as (E1 & E2 & E3 & E4).
    unfold inventory_gauges in Hg. simpl in Hg.
    destruct Hg as [<-|[<-|[<-|[<-|[]]]]]; rewrite ?E1, ?E2, ?E3, ?E4; split; eauto.
  - rewrite !inventory_events_off by done. by apply H.
Qed.

Lemma paired_ext (m m' : registry) :
  (forall g lv, In g throughput_gauges -> m' !! (g, lv) = m !! (g, lv)) ->
  paired m -> paired m'.
Proof.
  intros Heq H lv. rewrite !Heq by (unfold throughput_gauges; simpl; auto). apply H.
Qed.

Lemma aligned_ext (m m' : registry) :
  (forall g lv, In g inventory_gauges -> m' !! (g, lv) = m !! (g, lv)) ->
  aligned m -> aligned m'.
Proof.
  intros Heq H g lv Hg.
  rewrite !Heq by (done || unfold inventory_gauges; simpl; auto). by apply H.
Qed.

Lemma io_rows_paired output lines w :
  (forall line, In line lines -> In line (Re.findall io_regex output)) ->
  paired (metrics w) -> paired (metrics (snd (for_each lines io_line w))).
Proof.
  revert w. induction lines as [|line lines IH]; intros w Hin Hp; [done|].
  cbn [for_each]. unfold bind at 1.
  destruct (io_record_run output line) as (ip & rd & wr & fr & fw & _ & _ & _ & ->);
    [apply Hin; by left|].
  apply IH; [intros; apply Hin; by right|]. by apply paired_block.
Qed.

Lemma chunkserver_rows_aligned output lines w :
  (forall line, In line lines ->
     In line (Re.findall chunkserver_regex output)
     /\ row_storable max_str_digits line) ->
  aligned (metrics w) ->
  aligned (metrics (snd (for_each lines (chunkserver_line max_str_digits) w))).
Proof.
  revert w. induction lines as [|line lines IH]; intros w Hin Ha; [done|].
  cbn [for_each]. unfold bind at 1.
  destruct (Hin line) as [Hl Hst]; [by left|].
  destruct (chunkserver_record_run max_str_digits output line Hl Hst)
    as (? & ? & ? & ? & ? & ? & ? & ? & fc & fu & ft & fp & _ & _ & _ & _ & _ & _ & _ & ->).
  apply IH; [intros; apply Hin; by right|]. by apply aligned_block.
Qed.

(** The series of the per-server gauges are foreign to the system
    collector, and those of one table to the collector of the other. *)
Lemma system_calls_foreign output ev g lv :
  In ev (system_calls max_str_digits output) -> mentions (g, lv) ev = true ->
  lv <> [] \/ In g inventory_gauges \/ In g throughput_gauges -> False.
Proof.
  intros Hev Hm H.
  destruct (system_calls_scope _ _ _ _ Hev Hm) as (r & Hr & [= -> ->]).
  destruct (system_targets_unlabelled max_str_digits r Hr) as [Hi Ht].
  destruct H as [H|[H|H]]; auto.
Qed.

Lemma collect_io_metrics_paired subprocess_run w :
  paired (metrics w) ->
  paired (metrics (snd (collect_io_metrics subprocess_run self w))).
Proof.
  intros Hp.
  destruct (prints_or_silent (subprocess_run (io_command self) (timeout self)))
    as [(output & Hne & Hrun)|Hs].
  - rewrite (collect_io_metrics_run _ _ output) by done.
    rewrite io_loop_outcome. cbn [snd].
    pose proof (stable_io_loop output w) as Hst.
    replace (replay (calls (io_loop output)) w) with (snd (io_loop output w))
      by (by rewrite Hst).
    by apply (io_rows_paired output).
  - destruct (collect_io_metrics_silent self _ Hs) as (evs & Hl & ->).
    cbn [snd]. by rewrite metrics_replay_logs.
Qed.

Lemma cycle_paired subprocess_run w :
  paired (metrics w) ->
  paired (metrics (snd (collect_all_metrics max_str_digits subprocess_run self w))).
Proof.
  intros Hp. rewrite collect_all_metrics_run. cbn [snd].
  apply collect_io_metrics_paired.
  eapply paired_ext; [|eapply paired_ext; [|exact Hp]].
  - intros g lv Hg. apply collect_chunkserver_metrics_frame.
    intros output ev _ Hev Hm.
    destruct (chunkserver_loop_scope _ _ _ _ Hev Hm) as (g' & line & Hg' & _ & [= -> _]).
    by apply (tables_disjoint g').
  - intros g lv Hg. apply collect_system_metrics_frame.
    intros output ev _ Hev Hm. eapply system_calls_foreign; eauto.
Qed.

End Invariants.

(** X10.  The read and the write speed go together: if they are known
    for the same addresses before, as at the start, when neither is
    known for any, then they are known for the same addresses after any
    number of rounds of the polling loop, whatever the commands did and
    whatever the interval is. *)
Theorem speeds_stay_paired
    (max_str_digits : nat) (self : MooseFSExporter) (interval : Z)
    (rounds : list (string -> Z -> result CompletedProcess)) (w : world) :
  paired (metrics w) ->
  paired (metrics (snd (run_loop max_str_digits self interval rounds w))).
Proof.
  apply (run_loop_invariant max_str_digits self paired).
  intros sh w' _. apply cycle_paired.
Qed.

Lemma speeds_stay_paired_witness :
  let self := {| host := "mfsmaster"; timeout := 10 |} in
  let rounds := [ (fun _ _ => prints throughput_sample);
                  (fun _ _ => Raise TimeoutExpired) ] in
  paired (metrics (snd (run_loop 4300 self 15 rounds initial))).
Proof.
  intros self rounds.
  apply (speeds_stay_paired 4300 self 15 rounds initial).
  intros lv. cbn [initial metrics].
  rewrite !fresh_registry_labelled by discriminate. done.
Defined.

(** X11.  The four inventory series go together as long as every row
    can be stored: if they are known for the same servers before a pass
    of the inventory collector in which the command fails, prints
    nothing, or prints rows that can all be stored, then they are known
    for the same servers after it. *)
Theorem inventory_series_stay_aligned
    (max_str_digits : nat)
    (subprocess_run : string -> Z -> result CompletedProcess)
    (self : MooseFSExporter) (w : world) :
  aligned (metrics w) ->
  (forall output,
      subprocess_run (chunkserver_command self) (timeout self) = prints output ->
      Forall (row_storable max_str_digits) (Re.findall chunkserver_regex output)) ->
  aligned (metrics (snd (collect_chunkserver_metrics max_str_digits subprocess_run
                           self w))).
Proof.
  intros Ha Hrows.
  destruct (prints_or_silent (subprocess_run (chunkserver_command self) (timeout self)))
    as [(output & Hne & Hrun)|Hs].
  - rewrite (collect_chunkserver_metrics_run _ _ _ output) by done.
    pose proof (Hrows output Hrun) as Hall.
    rewrite (proj2 (chunkserver_loop_outcome max_str_digits output) Hall). cbn [snd].
    pose proof (stable_chunkserver_loop max_str_digits output w) as Hst.
    replace (replay (calls (chunkserver_loop max_str_digits output)) w)
      with (snd (chunkserver_loop max_str_digits output w)) by (by rewrite Hst).
    apply (chunkserver_rows_aligned max_str_digits output); [|done].
    intros line Hl. split; [done|].
    rewrite List.Forall_forall in Hall. by apply Hall.
  - destruct (collect_chunkserver_metrics_silent max_str_digits self _ Hs)
      as (evs & Hl & ->).
    cbn [snd]. by rewrite metrics_replay_logs.
Qed.

Lemma inventory_series_stay_aligned_witness :
  let self := {| host := "mfsmaster"; timeout := 10 |} in
  aligned (metrics (snd (collect_chunkserver_metrics 4300
                           (fun _ _ => prints inventory_sample) self initial))).
Proof.
  intros self.
  apply (inventory_series_stay_aligned 4300 (fun _ _ => prints inventory_sample)
           self initial).
  - intros g lv Hg. cbn [initial metrics].
    rewrite !fresh_registry_labelled; [done|discriminate|].
    unfold inventory_gauges in Hg. simpl in Hg.
    destruct Hg as [<-|[<-|[<-|[<-|[]]]]]; discriminate.
  - intros output [= <-].
    change (Re.findall chunkserver_regex inventory_sample)
      with [["10.0.0.5"; "000100"; "1500"; "120.50"; "200"; "60.25"]].
    repeat constructor.
    exists "10.0.0.5", "000100", "1500", "120.50", "200", "60.25".
    split; [reflexivity|]. split.
    + exists 1500%Z, (dyadic 1500 0). split; vm_compute; reflexivity.
    + exists 200%Z, (dyadic (200 * 1024 ^ 3) 0). split; vm_compute; reflexivity.
Defined.

(* ================================================================== *)
(** * What the rules can log *)
(* ================================================================== *)

Section RuleFailures.
Import PyStr.
Variable max_str_digits : nat.

Lemma search_from_sound r s pos m :
  Re.search_from r s pos = Some m ->
  exists u caps, matched r u caps /\ Re.m_groups m = map str caps.
Proof.
  revert pos. induction s as [|a s IH]; intros pos H; cbn [Re.search_from] in H.
  - destruct (Re.match_at r [] pos) as [m'|] eqn:E; [|done]. injection H as <-.
    destruct (match_at_sound _ _ _ _ E) as (u & s' & caps & _ & Hm & _ & _ & Hg). eauto.
  - destruct (Re.match_at r (a :: s) pos) as [m'|] eqn:E; [|by eapply IH].
    injection H as <-.
    destruct (match_at_sound _ _ _ _ E) as (u & s' & caps & _ & Hm & _ & _ & Hg). eauto.
Qed.

(** The groups of a match of [re.search] are captures of the groups of
    the pattern. *)
Lemma search_groups r text m :
  Re.search r text = Some m ->
  exists caps, Re.m_groups m = map str caps /\ Forall2 lang (groups_of r) caps.
Proof.
  intros H. destruct (search_from_sound _ _ _ _ H) as (u & caps & Hm & Hg).
  exists caps. split; [done|]. by eapply matched_groups.
Qed.

Lemma py_float_raises s e : py_float s = Raise e -> e = ValueError.
Proof.
  unfold py_float. destruct (sign _) as [neg body].
  repeat (destruct (string_dec _ _); [congruence|]).
  destruct (cut is_e body) as [mant ex].
  destruct (number mant) as [[ds k]|]; [|congruence].
  destruct (match ex with Some x => exponent x | None => Some 0%Z end); congruence.
Qed.

Lemma tib_to_bytes_decimal d1 d2 :
  digits d1 -> digits d2 ->
  exists f, tib_to_bytes (str (d1 ++ "."%char :: d2)) = Ok (PyFloat f).
Proof.
  intros H1 H2. unfold tib_to_bytes.
  destruct (gib_to_bytes_decimal _ _ H1 H2) as [f ->].
  unfold rbind. rewrite py_mul_float. eauto.
Qed.

(** What [float(converter(captured))] can raise, by converter. *)
Lemma stored_float_ s e :
  rbind (float_ s) to_float = Raise e -> e = ValueError.
Proof.
  unfold float_. destruct (py_float s) as [f|e'] eqn:E; simpl; [done|].
  intros [= <-]. by eapply py_float_raises.
Qed.

Lemma stored_int_ s e :
  rbind (int_ max_str_digits s) to_float = Raise e ->
  e = ValueError \/ e = OverflowError.
Proof.
  unfold int_. destruct (py_int max_str_digits s) as [z|e'] eqn:E; simpl.
  - intros H. right. by eapply float_of_int_raises.
  - intros [= <-]. left. by eapply py_int_raises.
Qed.

Lemma stored_mib_to_bytes s e :
  rbind (mib_to_bytes max_str_digits s) to_float = Raise e ->
  e = ValueError \/ e = OverflowError.
Proof.
  unfold mib_to_bytes, int_. destruct (py_int max_str_digits s) as [z|e'] eqn:E; simpl.
  - intros H. right. by eapply float_of_int_raises.
  - intros [= <-]. left. by eapply py_int_raises.
Qed.

End RuleFailures.

Section RuleWarnings.
Import PyStr.
Variable max_str_digits : nat.

(** The capture of a rule and what is made of it. *)
Ltac rule_capture Hcaps :=
  match type of Hcaps with
  | Forall2 _ (groups_of ?R) _ =>
      let g := eval vm_compute in (groups_of R) in
      change (groups_of R) with g in Hcaps
  end;
  let Hl := fresh "Hl" in
  let Hnil := fresh "Hnil" in
  inversion Hcaps as [|? cap ? ? Hl Hnil]; subst; inversion Hnil; subst;
  clear Hcaps Hnil;
  change (map str [cap] !! (1 - 1)) with (Some (str cap));
  cbn [converter target labelnames length Nat.eqb metric_name].

Ltac rule_decimal Hl lemma :=
  let d1 := fresh "d1" in
  let d2 := fresh "d2" in
  let f := fresh "f" in
  apply lang_decimal in Hl as (d1 & d2 & -> & ? & ?);
  destruct (lemma d1 d2) as [f ->]; [done|done|]; discriminate.

(** A rule whose pattern matches fails only by raising ValueError or
    OverflowError, and a rule that captures a decimal never fails. *)
Lemma rule_value_raises r output e :
  In r (metrics_map max_str_digits) ->
  rule_value (rule_regex r) output r = Some (Raise e) ->
  In (metric_name r)
     ["version"; "ram_used"; "trash_space"; "total_objects"; "directories";
      "files"; "chunks"]
  /\ (e = ValueError \/ e = OverflowError).
Proof.
  intros Hin. unfold rule_value.
  destruct (Re.search (rule_regex r) output) as [m|] eqn:Es; [|done].
  destruct (search_groups _ _ _ Es) as (caps & Hg & Hcaps).
  unfold Re.group. rewrite Hg. clear Es Hg.
  unfold metrics_map in Hin. cbn [In] in Hin.
  destruct Hin as [<-|[<-|[<-|[<-|[<-|[<-|[<-|[<-|[<-|[<-|[<-|[<-|[]]]]]]]]]]]]];
    rule_capture Hcaps.
  - intros [= H]. apply stored_float_ in H. split; [simpl; tauto|by left].
  - intros [= H]. apply stored_mib_to_bytes in H. split; [simpl; tauto|done].
  - rule_decimal Hl float_decimal.
  - rule_decimal Hl float_decimal.
  - rule_decimal Hl float_decimal.
  - rule_decimal Hl tib_to_bytes_decimal.
  - rule_decimal Hl tib_to_bytes_decimal.
  - intros [= H]. apply stored_mib_to_bytes in H. split; [simpl; tauto|done].
  - intros [= H]. apply stored_int_ in H. split; [simpl; tauto|done].
  - intros [= H]. apply stored_int_ in H. split; [simpl; tauto|done].
  - intros [= H]. apply stored_int_ in H. split; [simpl; tauto|done].
  - intros [= H]. apply stored_int_ in H. split; [simpl; tauto|done].
Qed.

End RuleWarnings.

(** X12.  What a pass of the system collector can add to the log: the
    record of a failed command, or the warning of a rule whose captured
    text could not be stored, and nothing else.  Such a warning carries
    a ValueError or an OverflowError and comes from the version rule or
    from one of the six integer rules: the five rules that capture a
    decimal never fail, and the error record of the collector itself is
    never written. *)
Theorem system_pass_log_records
    (max_str_digits : nat)
    (subprocess_run : string -> Z -> result CompletedProcess)
    (self : MooseFSExporter) (w : world) (ev : event) :
  let run := collect_system_metrics max_str_digits subprocess_run self w in
  In ev (trace (snd run)) -> is_log ev = true ->
  In ev (trace w)
  \/ (exists e,
        subprocess_run (system_command self) (timeout self) = Raise e
        /\ ev = command_failure (system_command self) e)
  \/ (exists r e,
        In r (metrics_map max_str_digits)
        /\ In (metric_name r)
              ["version"; "ram_used"; "trash_space"; "total_objects"; "directories";
               "files"; "chunks"]
        /\ (e = ValueError \/ e = OverflowError)
        /\ ev = EvLog WARNING (ErrorProcessing (metric_name r) e)).
Proof.
  intros run Hev Hlog. subst run.
  destruct (prints_or_silent (subprocess_run (system_command self) (timeout self)))
    as [(output & Hne & Hrun)|Hs].
  - rewrite (collect_system_metrics_run _ _ _ output) in Hev by done.
    cbn [snd] in Hev. rewrite trace_replay in Hev.
    apply in_app_or in Hev as [Hev|Hev]; [by left|]. right; right.
    unfold system_calls in Hev. apply in_flat_map in Hev as (r & Hr & Hev).
    unfold rule_calls in Hev.
    destruct (rule_value (rule_regex r) output r) as [[f|e]|] eqn:E; [| |done].
    + destruct Hev as [<-|[]]. discriminate Hlog.
    + destruct Hev as [<-|[]].
      destruct (rule_value_raises _ _ _ _ Hr E) as [Hname Hkind].
      by exists r, e.
  - destruct (collect_system_metrics_no_output max_str_digits subprocess_run self w Hs)
      as (evs & Heq & Hevs).
    rewrite Heq in Hev. cbn [snd] in Hev. rewrite trace_replay in Hev.
    apply in_app_or in Hev as [Hev|Hev]; [by left|]. right; left. by apply Hevs.
Qed.

Lemma system_pass_log_records_witness :
  let self := {| host := "mfsmaster"; timeout := 10 |} in
  let subprocess_run := fun (_ : string) (_ : Z) => prints "master version : 4.10.0" in
  let ev := EvLog WARNING (ErrorProcessing "version" ValueError) in
  In ev (trace initial)
  \/ (exists e,
        subprocess_run (system_command self) (timeout self) = Raise e
        /\ ev = command_failure (system_command self) e)
  \/ (exists r e,
        In r (metrics_map 4300)
        /\ In (metric_name r)
              ["version"; "ram_used"; "trash_space"; "total_objects"; "directories";
               "files"; "chunks"]
        /\ (e = ValueError \/ e = OverflowError)
        /\ ev = EvLog WARNING (ErrorProcessing (metric_name r) e)).
Proof.
  intros self subprocess_run ev.
  apply (system_pass_log_records 4300 subprocess_run self initial ev).
  - vm_compute. by left.
  - reflexivity.
Defined.

(* ================================================================== *)
(** * The order of the collectors *)
(* ================================================================== *)

Section Order.
Local Open Scope py_scope.
Variable max_str_digits : nat.
Variable subprocess_run : string -> Z -> result CompletedProcess.
Variable self : MooseFSExporter.

(** Blocks of calls that commute on every series can be permuted. *)
Lemma replay_at_permutation (l l' : list (list event)) :
  Permutation l l' ->
  (forall a b, In a l -> In b l ->
     forall k o, replay_at k a (replay_at k b o) = replay_at k b (replay_at k a o)) ->
  forall k o, replay_at k (concat l) o = replay_at k (concat l') o.
Proof.
  induction 1 as [|x l l' Hp IH|x y l|l l' l'' Hp1 IH1 Hp2 IH2]; intros Hc k o.
  - done.
  - cbn [concat]. rewrite !replay_at_app. apply IH.
    intros a b Ha Hb. apply Hc; by right.
  - cbn [concat]. rewrite !replay_at_app. f_equal.
    apply Hc; [right; by left|by left].
  - rewrite IH1 by done. apply IH2.
    intros a b Ha Hb. apply Hc; eapply Permutation_in; try eassumption;
      by apply Permutation_sym.
Qed.

(** A method that leaves a series in every world makes no call that
    changes it. *)
Lemma frame_calls {A} (m : M A) (k : series) :
  stable m ->
  (forall w, metrics (snd (m w)) !! k = metrics w !! k) ->
  forall o, replay_at k (calls m) o = o.
Proof.
  intros Hm H o.
  pose (w := {| metrics := match o with
                           | Some v => {[ k := v ]}
                           | None => ∅
                           end;
                trace := [] |}).
  assert (Hw : metrics w !! k = o).
  { subst w. destruct o; simpl; [apply lookup_singleton_eq|apply lookup_empty]. }
  specialize (H w). rewrite (Hm w) in H. cbn [snd] in H.
  by rewrite lookup_replay, Hw in H.
Qed.

(** The world a collector of the exporter leaves inside the loop. *)
Lemma after_collector c w :
  In c (metrics_collectors max_str_digits subprocess_run self) ->
  stable (snd c) /\ after c w = replay (calls (snd c)) w.
Proof.
  unfold metrics_collectors. intros [<-|[<-|[<-|[]]]]; cbn [snd].
  - pose proof (stable_collect_system_metrics max_str_digits subprocess_run self) as Hs.
    split; [done|]. unfold after. cbn [snd fst].
    destruct (guarded_returns
                (let! output := _execute_command subprocess_run self
                                  ("mfscli -H " +:+ host self +:+ " -SIG") in
                 if falsy output then ret false
                 else for_each (metrics_map max_str_digits) (apply_rule (text output)) ;;
                      ret true)
                SystemCollectionError false w) as [b Hb].
    fold (collect_system_metrics max_str_digits subprocess_run self) in Hb.
    rewrite (Hs w) in Hb |- *. cbn [fst] in Hb. by rewrite Hb.
  - pose proof (stable_collect_chunkserver_metrics max_str_digits subprocess_run self)
      as Hs.
    split; [done|]. unfold after. cbn [snd fst].
    destruct (guarded_returns
                (let! output := _execute_command subprocess_run self
                                  ("mfscli -H " +:+ host self +:+ " -SCS") in
                 if falsy output then ret false
                 else let! chunkserver_lines :=
                        re_findall chunkserver_pattern (text output) in
                      for_each chunkserver_lines (chunkserver_line max_str_digits) ;;
                      ret true)
                ChunkserverCollectionError false w) as [b Hb].
    fold (collect_chunkserver_metrics max_str_digits subprocess_run self) in Hb.
    rewrite (Hs w) in Hb |- *. cbn [fst] in Hb. by rewrite Hb.
  - pose proof (stable_collect_io_metrics subprocess_run self) as Hs.
    split; [done|]. unfold after. cbn [snd fst].
    destruct (guarded_returns
                (let! output := _execute_command subprocess_run self
                                  ("mfscli -H " +:+ host self +:+ " -SHD") in
                 if falsy output then ret false
                 else let! io_lines := re_findall io_pattern (text output) in
                      for_each io_lines io_line ;;
                      ret true)
                IOCollectionError false w) as [b Hb].
    fold (collect_io_metrics subprocess_run self) in Hb.
    rewrite (Hs w) in Hb |- *. cbn [fst] in Hb. by rewrite Hb.
Qed.

(** Every series is foreign to two of the three collectors. *)
Lemma collectors_apart c1 c2 (k : series) :
  In c1 (metrics_collectors max_str_digits subprocess_run self) ->
  In c2 (metrics_collectors max_str_digits subprocess_run self) ->
  c1 = c2
  \/ (forall o, replay_at k (calls (snd c1)) o = o)
  \/ (forall o, replay_at k (calls (snd c2)) o = o).
Proof.
  destruct k as [g lv].
  assert (Hsys : In g inventory_gauges \/ In g throughput_gauges ->
            forall o, replay_at (g, lv)
                        (calls (collect_system_metrics max_str_digits subprocess_run self))
                        o = o).
  { intros Hg. apply frame_calls; [apply stable_collect_system_metrics|].
    intros w. apply collect_system_metrics_frame.
    intros output ev _ Hev Hm. eapply system_calls_foreign; eauto. }
  assert (Hinv : ~ In g inventory_gauges ->
            forall o, replay_at (g, lv)
                        (calls (collect_chunkserver_metrics max_str_digits
                                  subprocess_run self)) o = o).
  { intros Hg. apply frame_calls; [apply stable_collect_chunkserver_metrics|].
    intros w. apply collect_chunkserver_metrics_frame.
    intros output ev _ Hev Hm.
    by destruct (chunkserver_loop_scope _ _ _ _ Hev Hm) as (g' & line & Hg' & _ & [= -> _]). }
  assert (Hio : ~ In g throughput_gauges ->
            forall o, replay_at (g, lv) (calls (collect_io_metrics subprocess_run self)) o
                      = o).
  { intros Hg. apply frame_calls; [apply stable_collect_io_metrics|].
    intros w. apply collect_io_metrics_frame.
    intros output ev _ Hev Hm.
    by destruct (io_loop_scope _ _ _ Hev Hm) as (g' & line & Hg' & _ & [= -> _]). }
  assert (Hdec : (In g inventory_gauges \/ In g throughput_gauges)
                 \/ (~ In g inventory_gauges /\ ~ In g throughput_gauges)).
  { unfold inventory_gauges, throughput_gauges.
    destruct g; simpl; first [left; tauto | right; split; intros H; decompose [or] H;
                                            discriminate || done]. }
  assert (Hdis : In g inventory_gauges -> ~ In g throughput_gauges).
  { intros H1 H2. by apply (tables_disjoint g). }
  unfold metrics_collectors.
  intros [<-|[<-|[<-|[]]]] [<-|[<-|[<-|[]]]]; cbn [snd]; auto;
    destruct Hdec as [[Hi|Ht]|[Hi Ht]]; auto.
  - right; left. apply Hinv. intros Hi. by apply (tables_disjoint g).
  - right; right. apply Hinv. intros Hi. by apply (tables_disjoint g).
Qed.

End Order.

(** X13.  The three collectors write disjoint series, so their order in
    the list of [collect_all_metrics] does not matter to the registry:
    the loop run on the collectors in any order never raises and leaves
    the registry that one cycle leaves. *)
Theorem collector_order_is_immaterial
    (max_str_digits : nat)
    (subprocess_run : string -> Z -> result CompletedProcess)
    (self : MooseFSExporter) (collectors : list (string * M bool)) (w : world) :
  Permutation collectors (metrics_collectors max_str_digits subprocess_run self) ->
  fst (run_collectors collectors w) = Ok tt
  /\ metrics (snd (run_collectors collectors w))
     = metrics (snd (collect_all_metrics max_str_digits subprocess_run self w)).
Proof.
  intros Hp. unfold collect_all_metrics. rewrite !run_collectors_fold. cbn [fst snd].
  split; [done|].
  assert (Hfold : forall cs w0,
             (forall c, In c cs ->
                In c (metrics_collectors max_str_digits subprocess_run self)) ->
             fold_left (fun w c => after c w) cs w0
             = replay (concat (map (fun c => calls (snd c)) cs)) w0).
  { induction cs as [|c cs IH]; intros w0 Hcs; [done|].
    cbn [fold_left map concat]. rewrite replay_app.
    destruct (after_collector max_str_digits subprocess_run self c w0) as [_ ->];
      [apply Hcs; by left|].
    apply IH. intros c' Hc'. apply Hcs. by right. }
  rewrite !Hfold; [|done|intros c Hc; by eapply Permutation_in].
  apply map_eq. intros k. rewrite !lookup_replay.
  apply replay_at_permutation; [by apply Permutation_map|].
  intros a b Ha Hb k' o.
  apply in_map_iff in Ha as (c1 & <- & Hc1). apply in_map_iff in Hb as (c2 & <- & Hc2).
  destruct (collectors_apart max_str_digits subprocess_run self c1 c2 k')
    as [->|[H|H]]; try (by eapply Permutation_in); [done| |]; by rewrite !H.
Qed.

Lemma collector_order_is_immaterial_witness :
  let self := {| host := "mfsmaster"; timeout := 10 |} in
  let subprocess_run := fun (_ : string) (_ : Z) => prints inventory_sample in
  let backwards := [ ("collect_io_metrics", collect_io_metrics subprocess_run self);
                     ("collect_chunkserver_metrics",
                      collect_chunkserver_metrics 4300 subprocess_run self);
                     ("collect_system_metrics",
                      collect_system_metrics 4300 subprocess_run self) ] in
  fst (run_collectors backwards initial) = Ok tt
  /\ metrics (snd (run_collectors backwards initial))
     = metrics (snd (collect_all_metrics 4300 subprocess_run self initial)).
Proof.
  intros self subprocess_run backwards.
  apply (collector_order_is_immaterial 4300 subprocess_run self backwards initial).
  apply Permutation_sym.
  apply (Permutation_rev (metrics_collectors 4300 subprocess_run self)).
Defined.

(* ================================================================== *)
(** * What the table collectors can log *)
(* ================================================================== *)

Section TableLogs.
Local Open Scope py_scope.
Variable max_str_digits : nat.
Variable subprocess_run : string -> Z -> result CompletedProcess.
Variable self : MooseFSExporter.

Lemma write_all_no_log lv ws ev : In ev (snd (write_all lv ws)) -> is_log ev = false.
Proof.
  induction ws as [|[g v] ws IH]; [done|].
  simpl. destruct (to_float v) as [f|e]; simpl.
  - intros [<-|[<-|H]]; auto.
  - by intros [<-|[]].
Qed.

Lemma chunkserver_loop_no_log output ev :
  In ev (calls (chunkserver_loop max_str_digits output)) -> is_log ev = false.
Proof.
  intros H. unfold chunkserver_loop in H.
  apply for_each_calls_in in H as (line & _ & Hev); [|apply stable_chunkserver_line].
  destruct (chunkserver_line_cases max_str_digits line)
    as [[e He]|(ip & sid & rest & vc & vu & vt & vp & -> & Hrun)].
  - destruct (summary_intro _ (Raise e) [] He) as [_ Hc]. by rewrite Hc in Hev.
  - destruct (summary_intro _ _ _ Hrun) as [_ Hc]. rewrite Hc in Hev.
    by eapply write_all_no_log.
Qed.

Lemma io_loop_no_log output ev : In ev (calls (io_loop output)) -> is_log ev = false.
Proof.
  intros H. unfold io_loop in H.
  apply for_each_calls_in in H as (line & _ & Hev); [|apply stable_io_line].
  destruct (io_line_cases line) as [[e He]|(ip & rest & vr & vw & -> & Hrun)].
  - destruct (summary_intro _ (Raise e) [] He) as [_ Hc]. by rewrite Hc in Hev.
  - destruct (summary_intro _ _ _ Hrun) as [_ Hc]. rewrite Hc in Hev.
    by eapply write_all_no_log.
Qed.

(** A loop that raises does so in one of its rounds. *)
Lemma for_each_raises {A} (l : list A) (body : A -> M unit) e :
  (forall x, stable (body x)) ->
  outcome (for_each l body) = Raise e ->
  exists x, In x l /\ outcome (body x) = Raise e.
Proof.
  intros Hb. induction l as [|x l IH]; intros H; [done|].
  destruct (outcome (body x)) as [[]|e'] eqn:E.
  - destruct (for_each_cons_ok body Hb x l E) as [Ho _]. rewrite Ho in H.
    destruct (IH H) as (x' & Hx' & He). exists x'. split; [by right|done].
  - destruct (for_each_cons_raise body Hb x l e' E) as [Ho _]. rewrite Ho in H.
    injection H as <-. exists x. split; [by left|done].
Qed.

(** Without output, the only trace of a table collector is the record
    of a failed command. *)
Lemma collect_chunkserver_metrics_no_output w :
  silent (subprocess_run (chunkserver_command self) (timeout self)) ->
  exists evs,
    collect_chunkserver_metrics max_str_digits subprocess_run self w
    = (Ok false, replay evs w)
    /\ (forall ev, In ev evs -> exists e,
          subprocess_run (chunkserver_command self) (timeout self) = Raise e
          /\ ev = command_failure (chunkserver_command self) e).
Proof.
  intros H. unfold collect_chunkserver_metrics, try_except, bind.
  fold (chunkserver_command self). rewrite execute_command_run.
  destruct (subprocess_run _ _) as [[rc out]|e] eqn:E; simpl.
  - exists []. split; [|by intros ? []].
    destruct (Z.eqb_spec rc 0) as [->|Hrc]; simpl; [|done].
    rewrite (H out) by done. done.
  - exists [command_failure (chunkserver_command self) e]. split; [done|].
    intros ev [<-|[]]. eauto.
Qed.

Lemma collect_io_metrics_no_output w :
  silent (subprocess_run (io_command self) (timeout self)) ->
  exists evs,
    collect_io_metrics subprocess_run self w = (Ok false, replay evs w)
    /\ (forall ev, In ev evs -> exists e,
          subprocess_run (io_command self) (timeout self) = Raise e
          /\ ev = command_failure (io_command self) e).
Proof.
  intros H. unfold collect_io_metrics, try_except, bind.
  fold (io_command self). rewrite execute_command_run.
  destruct (subprocess_run _ _) as [[rc out]|e] eqn:E; simpl.
  - exists []. split; [|by intros ? []].
    destruct (Z.eqb_spec rc 0) as [->|Hrc]; simpl; [|done].
    rewrite (H out) by done. done.
  - exists [command_failure (io_command self) e]. split; [done|].
    intros ev [<-|[]]. eauto.
Qed.

End TableLogs.

(** X14.  What a pass of the inventory collector can add to the log: the
    record of a failed command, or one error record of the collector,
    with a ValueError or an OverflowError, and nothing else; in
    particular no row is ever reported by a warning of its own. *)
Theorem inventory_pass_log_records
    (max_str_digits : nat)
    (subprocess_run : string -> Z -> result CompletedProcess)
    (self : MooseFSExporter) (w : world) (ev : event) :
  let run := collect_chunkserver_metrics max_str_digits subprocess_run self w in
  In ev (trace (snd run)) -> is_log ev = true ->
  In ev (trace w)
  \/ (exists e,
        subprocess_run (chunkserver_command self) (timeout self) = Raise e
        /\ ev = command_failure (chunkserver_command self) e)
  \/ (exists e,
        (e = ValueError \/ e = OverflowError)
        /\ fst run = Ok false
        /\ ev = EvLog ERROR (ChunkserverCollectionError e)).
Proof.
  intros run Hev Hlog. subst run.
  destruct (prints_or_silent (subprocess_run (chunkserver_command self) (timeout self)))
    as [(output & Hne & Hrun)|Hs].
  - rewrite (collect_chunkserver_metrics_run _ _ _ output) in Hev |- * by done.
    destruct (outcome (chunkserver_loop max_str_digits output)) as [[]|e] eqn:E;
      cbn [fst snd] in Hev |- *; rewrite trace_replay in Hev;
      apply in_app_or in Hev as [Hev|Hev]; try (by left).
    + apply chunkserver_loop_no_log in Hev. congruence.
    + apply in_app_or in Hev as [Hev|[<-|[]]].
      * apply chunkserver_loop_no_log in Hev. congruence.
      * right; right. exists e. split; [|done].
        unfold chunkserver_loop in E.
        apply for_each_raises in E as (line & Hline & E);
          [|apply stable_chunkserver_line].
        by apply (chunkserver_record_raises max_str_digits output line).
  - destruct (collect_chunkserver_metrics_no_output max_str_digits subprocess_run
                self w Hs) as (evs & Heq & Hevs).
    rewrite Heq in Hev. cbn [snd] in Hev. rewrite trace_replay in Hev.
    apply in_app_or in Hev as [Hev|Hev]; [by left|]. right; left. by apply Hevs.
Qed.

Lemma inventory_pass_log_records_witness :
  let self := {| host := "mfsmaster"; timeout := 10 |} in
  let subprocess_run := fun (_ : string) (_ : Z) => prints table_with_huge_total in
  let run := collect_chunkserver_metrics 4300 subprocess_run self initial in
  let ev := EvLog ERROR (ChunkserverCollectionError OverflowError) in
  In ev (trace initial)
  \/ (exists e,
        subprocess_run (chunkserver_command self) (timeout self) = Raise e
        /\ ev = command_failure (chunkserver_command self) e)
  \/ (exists e,
        (e = ValueError \/ e = OverflowError)
        /\ fst run = Ok false
        /\ ev = EvLog ERROR (ChunkserverCollectionError e)).
Proof.
  intros self subprocess_run run ev.
  apply (inventory_pass_log_records 4300 subprocess_run self initial ev).
  - vm_compute. tauto.
  - reflexivity.
Defined.

(** X15.  A pass of the throughput collector adds nothing to the log but
    the record of a failed command: every row that matches the pattern
    converts, so the error record of the collector is never written. *)
Theorem throughput_pass_log_records
    (subprocess_run : string -> Z -> result CompletedProcess)
    (self : MooseFSExporter) (w : world) (ev : event) :
  let run := collect_io_metrics subprocess_run self w in
  In ev (trace (snd run)) -> is_log ev = true ->
  In ev (trace w)
  \/ (exists e,
        subprocess_run (io_command self) (timeout self) = Raise e
        /\ ev = command_failure (io_command self) e).
Proof.
  intros run Hev Hlog. subst run.
  destruct (prints_or_silent (subprocess_run (io_command self) (timeout self)))
    as [(output & Hne & Hrun)|Hs].
  - rewrite (collect_io_metrics_run _ _ output) in Hev by done.
    rewrite io_loop_outcome in Hev. cbn [snd] in Hev. rewrite trace_replay in Hev.
    apply in_app_or in Hev as [Hev|Hev]; [by left|].
    apply io_loop_no_log in Hev. congruence.
  - destruct (collect_io_metrics_no_output subprocess_run self w Hs)
      as (evs & Heq & Hevs).
    rewrite Heq in Hev. cbn [snd] in Hev. rewrite trace_replay in Hev.
    apply in_app_or in Hev as [Hev|Hev]; [by left|]. right. by apply Hevs.
Qed.

Lemma throughput_pass_log_records_witness :
  let self := {| host := "mfsmaster"; timeout := 10 |} in
  let subprocess_run := fun (_ : string) (_ : Z) => @Raise CompletedProcess OSError in
  let ev := EvLog ERROR (CommandExecutionError OSError) in
  In ev (trace initial)
  \/ (exists e,
        subprocess_run (io_command self) (timeout self) = Raise e
        /\ ev = command_failure (io_command self) e).
Proof.
  intros self subprocess_run ev.
  apply (throughput_pass_log_records subprocess_run self initial ev).
  - vm_compute. by left.
  - reflexivity.
Defined.

(* ================================================================== *)
(** * The inventory sample *)
(* ================================================================== *)

(** C1, as stated, fails.  Both outputs contain the sample line.  In the
    first a row before it has a chunk count that [float] cannot hold: the
    loop ends there, the collector returns False and the series of the
    sample's server do not exist.  In the second a later row names the
    same server: the number of chunks registered is 7, not 1500. *)
Lemma inventory_sample_not_registered :
  let self := {| host := "mfsmaster"; timeout := 10 |} in
  let pass := fun output =>
    collect_chunkserver_metrics 4300 (fun _ _ => prints output) self initial in
  let lv := ["10.0.0.5"; "000100"] in
  ((exists pre post, sample_after_huge_count = pre +:+ inventory_sample +:+ post)
   /\ fst (pass sample_after_huge_count) = Ok false
   /\ metrics (snd (pass sample_after_huge_count)) !! (mfs_chunkserver_chunks, lv)
      = None)
  /\ ((exists pre post, sample_before_same_server = pre +:+ inventory_sample +:+ post)
      /\ fst (pass sample_before_same_server) = Ok true
      /\ holds (snd (pass sample_before_same_server)) (mfs_chunkserver_chunks, lv) 7 1
      /\ ~ holds (snd (pass sample_before_same_server)) (mfs_chunkserver_chunks, lv)
             1500 1).
Proof.
  intros self pass lv. subst pass. cbv beta. split; [split; [|split]|split; [|split; [|split]]].
  - exists ("10.0.0.4 1 000099 - 4.10.0 0 OK OK " +:+ four_hundred_nines
            +:+ " 95.00 GiB 200 GiB 47.50%
"), "".
    by vm_compute.
  - by vm_compute.
  - by vm_compute.
  - exists "", "
10.0.0.5 1 000100 - 4.10.0 0 OK OK 7 0.50 GiB 200 GiB 0.25%".
    by vm_compute.
  - by vm_compute.
  - exists (dyadic 7 0). split; by vm_compute.
  - intros (f & Hf & He). vm_compute in Hf. injection Hf as <-.
    vm_compute in He. discriminate He.
Qed.

(** C1, amended.  Given a command output in which [re.findall] finds the
    row of the sample line, such that the rows found before it can be
    stored and no row found after it names the same server, one pass of
    [collect_chunkserver_metrics] leaves, under the label values
    ip = 10.0.0.5 and server_id = 000100, the number of chunks 1500, the
    used bytes 120.50 * 1024^3, the total bytes 200 * 1024^3 and the
    usage percentage 60.25, whatever the registry held before; and the
    collector succeeds exactly when the rows found after it can be stored
    too.  So it is when the output is the sample line alone. *)
Theorem inventory_sample_row_registered
    (max_str_digits : nat)
    (subprocess_run : string -> Z -> result CompletedProcess)
    (self : MooseFSExporter) (w : world) (output : string)
    (before after_ : list (list string)) :
  subprocess_run (chunkserver_command self) (timeout self) = prints output ->
  Re.findall chunkserver_regex output
  = before ++ ["10.0.0.5"; "000100"; "1500"; "120.50"; "200"; "60.25"] :: after_ ->
  Forall (row_storable max_str_digits) before ->
  (forall line, In line after_ -> take 2 line <> ["10.0.0.5"; "000100"]) ->
  let run := collect_chunkserver_metrics max_str_digits subprocess_run self w in
  let lv := ["10.0.0.5"; "000100"] in
  Forall (fun g => labelnames g = ["ip"; "server_id"])
         [mfs_chunkserver_chunks; mfs_chunkserver_disk_used;
          mfs_chunkserver_disk_total; mfs_chunkserver_disk_usage_percent]
  /\ holds (snd run) (mfs_chunkserver_chunks, lv) 1500 1
  /\ holds (snd run) (mfs_chunkserver_disk_used, lv) (12050 * 1024 ^ 3) 100
  /\ holds (snd run) (mfs_chunkserver_disk_total, lv) (200 * 1024 ^ 3) 1
  /\ holds (snd run) (mfs_chunkserver_disk_usage_percent, lv) 6025 100
  /\ (fst run = Ok true <-> Forall (row_storable max_str_digits) after_).
Proof.
  intros Hrun Hfind Hbefore Hafter run lv. subst run lv.
  split; [by repeat constructor|].
  assert (Hsum :
    outcome (chunkserver_line max_str_digits
               ["10.0.0.5"; "000100"; "1500"; "120.50"; "200"; "60.25"]) = Ok tt
    /\ calls (chunkserver_line max_str_digits
                ["10.0.0.5"; "000100"; "1500"; "120.50"; "200"; "60.25"])
       = inventory_events ["10.0.0.5"; "000100"] (dyadic 1500 0)
           (dyadic 129385889792 0) (dyadic 214748364800 0) (dyadic 241 (-2)))
    by (split; vm_compute; reflexivity).
  destruct Hsum as [Ho Hc].
  assert (Hline : forall w',
    chunkserver_line max_str_digits
      ["10.0.0.5"; "000100"; "1500"; "120.50"; "200"; "60.25"] w'
    = (Ok tt, replay (inventory_events ["10.0.0.5"; "000100"] (dyadic 1500 0)
                        (dyadic 129385889792 0) (dyadic 214748364800 0)
                        (dyadic 241 (-2))) w')).
  { intros w'. by rewrite (stable_chunkserver_line max_str_digits _ w'), Ho, Hc. }
  destruct (chunkserver_row_lookup max_str_digits subprocess_run self w output
              before after_ _ _ _ _ _ _ _ Hrun Hfind Hbefore Hline Hafter)
    as (H1 & H2 & H3 & H4).
  unfold holds.
  split; [exists (dyadic 1500 0); split; [done|by vm_compute]|].
  split; [exists (dyadic 129385889792 0); split; [done|by vm_compute]|].
  split; [exists (dyadic 214748364800 0); split; [done|by vm_compute]|].
  split; [exists (dyadic 241 (-2)); split; [done|by vm_compute]|].
  assert (Hne : output <> "").
  { intros ->. rewrite (proj2 findall_empty) in Hfind. by destruct before. }
  assert (Hin : In ["10.0.0.5"; "000100"; "1500"; "120.50"; "200"; "60.25"]
                   (Re.findall chunkserver_regex output)).
  { rewrite Hfind. apply in_or_app. right. by left. }
  rewrite (collect_chunkserver_metrics_run _ _ _ output) by done.
  pose proof (chunkserver_loop_outcome max_str_digits output) as Hloop.
  rewrite Hfind in Hloop.
  assert (Hall : Forall (row_storable max_str_digits)
                   (before ++ ["10.0.0.5"; "000100"; "1500"; "120.50"; "200"; "60.25"]
                           :: after_)
                 <-> Forall (row_storable max_str_digits) after_).
  { rewrite Forall_app, Forall_cons_iff. split; [tauto|]. intros Ha.
    split; [done|]. split; [|done].
    by apply (chunkserver_record_outcome max_str_digits output). }
  rewrite <- Hall, <- Hloop.
  destruct (outcome (chunkserver_loop max_str_digits output)) as [[]|e]; cbn [fst];
    by split.
Qed.

(** The sample line alone, and the sample line among other rows. *)
Lemma inventory_sample_row_registered_witness :
  let self := {| host := "mfsmaster"; timeout := 10 |} in
  let alone := collect_chunkserver_metrics 4300 (fun _ _ => prints inventory_sample)
                 self initial in
  let among := collect_chunkserver_metrics 4300
                 (fun _ _ => prints table_with_huge_total) self initial in
  let lv := ["10.0.0.5"; "000100"] in
  (fst alone = Ok true
   /\ holds (snd alone) (mfs_chunkserver_chunks, lv) 1500 1
   /\ holds (snd alone) (mfs_chunkserver_disk_used, lv) (12050 * 1024 ^ 3) 100
   /\ holds (snd alone) (mfs_chunkserver_disk_total, lv) (200 * 1024 ^ 3) 1
   /\ holds (snd alone) (mfs_chunkserver_disk_usage_percent, lv) 6025 100)
  /\ holds (snd among) (mfs_chunkserver_disk_used, lv) (12050 * 1024 ^ 3) 100.
Proof.
  intros self alone among lv.
  destruct (inventory_sample_row_registered 4300 (fun _ _ => prints inventory_sample)
              self initial inventory_sample [] [])
    as (_ & H1 & H2 & H3 & H4 & H5);
    [reflexivity|by vm_compute|constructor|by intros line []|].
  destruct (inventory_sample_row_registered 4300
              (fun _ _ => prints table_with_huge_total) self initial
              table_with_huge_total []
              [ ["10.0.0.6"; "000101"; "1200"; "95.00"; four_hundred_nines; "47.50"];
                ["10.0.0.7"; "000102"; "900"; "80.25"; "100"; "80.25"] ])
    as (_ & _ & H6 & _);
    [reflexivity|by vm_compute|constructor
    |intros line [<-|[<-|[]]]; discriminate|].
  split; [|exact H6].
  split; [apply H5; constructor|]. by repeat split.
Defined.
